(** * seed_pipeline: normalisation, validation, adapter, batch ingestion

    A shallow embedding of the ingestion core of [seed_pipeline]
    ([normalize/text.py], [ingest/validate.py], [ingest/file_io.py],
    [ingest/metrics.py], [adapters/generic_responses_v1.py],
    [adapters/registry.py], [ingest/batch.py], [api/routers/seeds.py],
    [db/models.py]) and the properties its specification states.

    Python [str] values are lists of Unicode code points; SQL tables are
    lists of rows in insertion order; the SQLAlchemy session is a state
    and exception monad over the committed tables and the tables as the
    open transaction sees them. *)

From Stdlib Require Import List NArith ZArith Bool Lia Arith String Ascii Floats.
From Stdlib Require Import Strings.Byte.
Import ListNotations.

Set Implicit Arguments.
Set Warnings "-register-all".

(* ================================================================== *)
(** * Python text *)
(* ================================================================== *)

(** A Python [str] is a sequence of code points.  Lone surrogates
    (U+D800..U+DFFF) are legal members: [json.load] produces them from
    an escape such as [\ud800]. *)
Abbreviation codepoint := N (only parsing).
Abbreviation str := (list N) (only parsing).

(** An ASCII literal as a [str]. *)
Definition lit (s : string) : str := map N_of_ascii (list_ascii_of_string s).

Fixpoint str_eqb (a b : str) : bool :=
  match a, b with
  | [], [] => true
  | x :: a', y :: b' => N.eqb x y && str_eqb a' b'
  | _, _ => false
  end.

Fixpoint drop_while {A} (p : A -> bool) (l : list A) : list A :=
  match l with
  | [] => []
  | x :: r => if p x then drop_while p r else l
  end.

Fixpoint take_while {A} (p : A -> bool) (l : list A) : list A :=
  match l with
  | [] => []
  | x :: r => if p x then x :: take_while p r else []
  end.

(* ================================================================== *)
(** * The Unicode character database, as [str] methods and [unicodedata]
      read it *)
(* ================================================================== *)

(** [is_whitespace] is complete: it is CPython's [_PyUnicode_IsWhitespace],
    the predicate behind [str.strip()], [str.isspace()] and the [\s] class
    of [re] on [str] patterns.  The case mapping, the decomposition
    mappings and the combining classes are the rows of UnicodeData.txt for
    Basic Latin (U+0000..U+007F), Latin-1 Supplement (U+0080..U+00FF) and
    Combining Diacritical Marks (U+0300..U+036F); a code point outside
    these blocks is treated as uncased, undecomposable and of combining
    class 0, which is what the database says of the two such code points
    the mappings below lead to, U+03BC and U+2044.  The theorems about
    all text hold whatever the tables are outside the three blocks; the
    others are about text of the first two blocks. *)
Module Unicode.

Local Open Scope N_scope.

Definition between (lo hi c : N) : bool := (lo <=? c) && (c <=? hi).

Definition is_whitespace (c : codepoint) : bool :=
  between 0x09 0x0D c || between 0x1C 0x20 c || (c =? 0x85) || (c =? 0xA0)
  || (c =? 0x1680) || between 0x2000 0x200A c || (c =? 0x2028)
  || (c =? 0x2029) || (c =? 0x202F) || (c =? 0x205F) || (c =? 0x3000).

(** Simple lowercase mapping (the blocks above hold no code point with a
    special or contextual lowercase mapping). *)
Definition lower_cp (c : codepoint) : codepoint :=
  if between 0x41 0x5A c then c + 0x20
  else if between 0xC0 0xDE c && negb (c =? 0xD7) then c + 0x20
  else c.

(** [unicodedata.combining(ch) != 0]. *)
Definition is_combining (c : codepoint) : bool :=
  between 0x300 0x36F c && negb (c =? 0x34F).

(** Canonical decomposition mappings. *)
Definition canonical_decomposition (c : codepoint) : option (list codepoint) :=
  match c with
  | 0xC0 => Some [0x41; 0x300] | 0xC1 => Some [0x41; 0x301]
  | 0xC2 => Some [0x41; 0x302] | 0xC3 => Some [0x41; 0x303]
  | 0xC4 => Some [0x41; 0x308] | 0xC5 => Some [0x41; 0x30A]
  | 0xC7 => Some [0x43; 0x327]
  | 0xC8 => Some [0x45; 0x300] | 0xC9 => Some [0x45; 0x301]
  | 0xCA => Some [0x45; 0x302] | 0xCB => Some [0x45; 0x308]
  | 0xCC => Some [0x49; 0x300] | 0xCD => Some [0x49; 0x301]
  | 0xCE => Some [0x49; 0x302] | 0xCF => Some [0x49; 0x308]
  | 0xD1 => Some [0x4E; 0x303]
  | 0xD2 => Some [0x4F; 0x300] | 0xD3 => Some [0x4F; 0x301]
  | 0xD4 => Some [0x4F; 0x302] | 0xD5 => Some [0x4F; 0x303]
  | 0xD6 => Some [0x4F; 0x308]
  | 0xD9 => Some [0x55; 0x300] | 0xDA => Some [0x55; 0x301]
  | 0xDB => Some [0x55; 0x302] | 0xDC => Some [0x55; 0x308]
  | 0xDD => Some [0x59; 0x301]
  | 0xE0 => Some [0x61; 0x300] | 0xE1 => Some [0x61; 0x301]
  | 0xE2 => Some [0x61; 0x302] | 0xE3 => Some [0x61; 0x303]
  | 0xE4 => Some [0x61; 0x308] | 0xE5 => Some [0x61; 0x30A]
  | 0xE7 => Some [0x63; 0x327]
  | 0xE8 => Some [0x65; 0x300] | 0xE9 => Some [0x65; 0x301]
  | 0xEA => Some [0x65; 0x302] | 0xEB => Some [0x65; 0x308]
  | 0xEC => Some [0x69; 0x300] | 0xED => Some [0x69; 0x301]
  | 0xEE => Some [0x69; 0x302] | 0xEF => Some [0x69; 0x308]
  | 0xF1 => Some [0x6E; 0x303]
  | 0xF2 => Some [0x6F; 0x300] | 0xF3 => Some [0x6F; 0x301]
  | 0xF4 => Some [0x6F; 0x302] | 0xF5 => Some [0x6F; 0x303]
  | 0xF6 => Some [0x6F; 0x308]
  | 0xF9 => Some [0x75; 0x300] | 0xFA => Some [0x75; 0x301]
  | 0xFB => Some [0x75; 0x302] | 0xFC => Some [0x75; 0x308]
  | 0xFD => Some [0x79; 0x301] | 0xFF => Some [0x79; 0x308]
  | 0x340 => Some [0x300] | 0x341 => Some [0x301] | 0x343 => Some [0x313]
  | 0x344 => Some [0x308; 0x301]
  | _ => None
  end.

(** Compatibility decomposition mappings (the tagged rows: [<noBreak>],
    [<compat>], [<super>], [<fraction>]). *)
Definition compatibility_decomposition (c : codepoint) : option (list codepoint) :=
  match c with
  | 0xA0 => Some [0x20]
  | 0xA8 => Some [0x20; 0x308]
  | 0xAA => Some [0x61]
  | 0xAF => Some [0x20; 0x304]
  | 0xB2 => Some [0x32]
  | 0xB3 => Some [0x33]
  | 0xB4 => Some [0x20; 0x301]
  | 0xB5 => Some [0x3BC]
  | 0xB8 => Some [0x20; 0x327]
  | 0xB9 => Some [0x31]
  | 0xBA => Some [0x6F]
  | 0xBC => Some [0x31; 0x2044; 0x34]
  | 0xBD => Some [0x31; 0x2044; 0x32]
  | 0xBE => Some [0x33; 0x2044; 0x34]
  | _ => None
  end.

Definition decompose_canonical (c : codepoint) : list codepoint :=
  match canonical_decomposition c with
  | Some d => d
  | None => [c]
  end.

Definition decompose_compat (c : codepoint) : list codepoint :=
  match canonical_decomposition c with
  | Some d => d
  | None => match compatibility_decomposition c with
            | Some d => d
            | None => [c]
            end
  end.

(** [unicodedata.normalize("NFD", s)] and [unicodedata.normalize("NFKD", s)]
    up to the canonical ordering of marks.  (In the three blocks every
    mapping is already fully decomposed.)  Canonical ordering permutes
    only code points of non-zero combining class among themselves, so it
    cannot be observed once those code points are filtered out, which is
    the only use the program makes of these forms. *)
Definition nfd (s : str) : str := flat_map decompose_canonical s.
Definition nfkd (s : str) : str := flat_map decompose_compat s.

(** [str.lower()]. *)
Definition lower (s : str) : str := map lower_cp s.

(** [str.strip()] with no argument. *)
Definition lstrip (s : str) : str := drop_while is_whitespace s.
Definition rstrip (s : str) : str := rev (drop_while is_whitespace (rev s)).
Definition strip (s : str) : str := rstrip (lstrip s).

End Unicode.

(* ================================================================== *)
(** * [re.Pattern.sub] for patterns that never match the empty string *)
(* ================================================================== *)

(** A compiled pattern is given by its matcher at the start of the text:
    [Some n] when the leftmost-preferred match there consumes [n >= 1]
    code points.  [re_sub] scans left to right; at a position where the
    pattern matches it emits the replacement computed from the matched
    text and resumes after the match, otherwise it copies one code point. *)
Section ReSub.
Variable match_here : str -> option nat.
Variable repl : str -> str.

Fixpoint re_sub_from (inside : nat) (text : str) : str :=
  match text with
  | [] => []
  | c :: rest =>
      match inside with
      | S k => re_sub_from k rest
      | O =>
          match match_here text with
          | Some n => repl (firstn n text) ++ re_sub_from (pred n) rest
          | None => c :: re_sub_from 0 rest
          end
      end
  end.

Definition re_sub (text : str) : str := re_sub_from 0 text.
End ReSub.

(* ================================================================== *)
(** * normalize/text.py *)
(* ================================================================== *)

Module Normalize.
Import Unicode.
Local Open Scope N_scope.

(** [_WHITESPACE_RE = re.compile(r"\s+")]: greedy, one or more. *)
Definition _WHITESPACE_RE (text : str) : option nat :=
  match List.length (take_while is_whitespace text) with
  | O => None
  | n => Some n
  end.

(** [_REPEATS_RE = re.compile(r"(.)\1{2,}")]: one code point other than
    a line feed, then greedily two or more copies of it. *)
Definition _REPEATS_RE (text : str) : option nat :=
  match text with
  | [] => None
  | c :: rest =>
      if c =? 0x0A then None
      else
        let copies := List.length (take_while (N.eqb c) rest) in
        if (2 <=? copies)%nat then Some (S copies) else None
  end.

(** [match.group(1)] of a match of [_REPEATS_RE]. *)
Definition _collapse (matched : str) : str := firstn 1 matched.

Definition _strip_accents (text : str) : str :=
  let text := nfkd text in
  filter (fun ch => negb (is_combining ch)) text.

(** The argument is already a [str]: the [isinstance] branch that calls
    [str(text)] is for callers outside the pipeline. *)
Definition normalize_text (text : str) (collapse_repeats : bool) : str :=
  let text := strip text in
  let text := lower text in
  let text := _strip_accents text in
  let text := re_sub _WHITESPACE_RE (fun _ => [0x20]) text in
  if collapse_repeats then re_sub _REPEATS_RE _collapse text else text.

(** The callers of the two functions below, [ingest_batch] and the API,
    leave [collapse_repeats] at its default, [False]. *)
Definition normalize_seed (text : str) (collapse_repeats : bool) : str :=
  normalize_text text collapse_repeats.

Definition normalize_variation (text : str) (collapse_repeats : bool) : str :=
  normalize_text text collapse_repeats.

End Normalize.

Import Normalize.

(* ================================================================== *)
(** * Python values, as [json.load] builds them *)
(* ================================================================== *)

(** A [dict] keeps its items in insertion order; in a dict built by
    Python the keys are pairwise distinct.  [json.load] never builds a
    tuple, so the [tuple] alternative of [isinstance(x, (list, tuple))]
    has no constructor here. *)
Inductive pyval : Type :=
| PNone
| PBool (b : bool)
| PInt (z : Z)
| PFloat (f : float)
| PStr (s : str)
| PList (l : list pyval)
| PDict (d : list (str * pyval)).

(** [bool(v)], the test behind [if v:] and [not v]. *)
Definition truthy (v : pyval) : bool :=
  match v with
  | PNone => false
  | PBool b => b
  | PInt z => negb (Z.eqb z 0)
  | PFloat f => negb (PrimFloat.eqb f 0%float)
  | PStr s => match s with [] => false | _ => true end
  | PList l => match l with [] => false | _ => true end
  | PDict d => match d with [] => false | _ => true end
  end.

Definition is_str (v : pyval) : bool :=
  match v with PStr _ => true | _ => false end.

Definition is_none (v : pyval) : bool :=
  match v with PNone => true | _ => false end.

(** The text of a value already known to be a [str]. *)
Definition str_of (v : pyval) : str :=
  match v with PStr s => s | _ => [] end.

Section Dict.
Variable V : Type.

Fixpoint lookup (d : list (str * V)) (k : str) : option V :=
  match d with
  | [] => None
  | (k', v) :: r => if str_eqb k' k then Some v else lookup r k
  end.

(** [d[k] = v]: an existing key keeps its position. *)
Fixpoint dict_set (d : list (str * V)) (k : str) (v : V) : list (str * V) :=
  match d with
  | [] => [(k, v)]
  | (k', v') :: r =>
      if str_eqb k' k then (k', v) :: r else (k', v') :: dict_set r k v
  end.

Definition values (d : list (str * V)) : list V := map snd d.
End Dict.

Definition dict := list (str * pyval).

(** [d.get(k, default)] and [d.get(k)]. *)
Definition get_or (d : dict) (k : str) (default : pyval) : pyval :=
  match lookup d k with Some v => v | None => default end.
Definition get (d : dict) (k : str) : pyval := get_or d k PNone.

(* ================================================================== *)
(** * The library functions the program calls *)
(* ================================================================== *)

(** [hashlib], [json] and [str()] are taken as given.  A [hashlib] object
    is determined by the bytes fed to it so far. *)
Class Platform : Type := {
  sha256_hexdigest : list byte -> str;
  md5_hexdigest : list byte -> str;
  (** [json.load] of a file with these bytes; [None] when it raises
      ([JSONDecodeError], [UnicodeDecodeError], ...). *)
  json_load : list byte -> option pyval;
  json_dumps : pyval -> str;
  (** [str(v)] for a [v] that is not a [str]. *)
  repr : pyval -> str
}.

Definition py_str `{Platform} (v : pyval) : str :=
  match v with PStr s => s | _ => repr v end.

(** [str.encode("utf-8")]: surrogates are not allowed. *)
Module Utf8.
Local Open Scope N_scope.

Definition byte_of (n : N) : byte :=
  match Byte.of_N n with Some b => b | None => x00 end.

Definition encode_cp (c : codepoint) : option (list byte) :=
  if c <? 0x80 then Some [byte_of c]
  else if c <? 0x800 then
    Some [byte_of (0xC0 + c / 0x40); byte_of (0x80 + c mod 0x40)]
  else if c <? 0x10000 then
    if Unicode.between 0xD800 0xDFFF c then None
    else Some [byte_of (0xE0 + c / 0x1000);
               byte_of (0x80 + (c / 0x40) mod 0x40);
               byte_of (0x80 + c mod 0x40)]
  else if c <? 0x110000 then
    Some [byte_of (0xF0 + c / 0x40000);
          byte_of (0x80 + (c / 0x1000) mod 0x40);
          byte_of (0x80 + (c / 0x40) mod 0x40);
          byte_of (0x80 + c mod 0x40)]
  else None.

Fixpoint encode (s : str) : option (list byte) :=
  match s with
  | [] => Some []
  | c :: r =>
      match encode_cp c, encode r with
      | Some b, Some bs => Some (b ++ bs)
      | _, _ => None
      end
  end.
End Utf8.

(* ================================================================== *)
(** * Exceptions, and the state-and-exception monad *)
(* ================================================================== *)

Inductive exn : Type :=
| KeyError (msg : str)
| MultipleResultsFound
| IntegrityError
| ProgrammingError
| UnicodeEncodeError.

(** A computation over a state [S] either returns or raises; both leave
    a state behind. *)
Inductive outcome (S A : Type) : Type :=
| Returned (a : A) (s : S)
| Raised (e : exn) (s : S).
Arguments Returned {S A} a s.
Arguments Raised {S A} e s.

Definition M (S A : Type) : Type := S -> outcome S A.

Definition ret {S A} (a : A) : M S A := fun s => Returned a s.
Definition raise {S A} (e : exn) : M S A := fun s => Raised e s.
Definition bind {S A B} (m : M S A) (k : A -> M S B) : M S B :=
  fun s => match m s with
           | Returned a s' => k a s'
           | Raised e s' => Raised e s'
           end.
Definition gets {S A} (f : S -> A) : M S A := fun s => Returned (f s) s.
Definition modify {S} (f : S -> S) : M S unit := fun s => Returned tt (f s).

Definition final_state {S A} (o : outcome S A) : S :=
  match o with Returned _ s => s | Raised _ s => s end.

Declare Scope monad_scope.
Delimit Scope monad_scope with monad.
Notation "x <- c ;; k" := (bind c (fun x => k))
  (at level 61, c at next level, right associativity) : monad_scope.
Notation "c ;;; k" := (bind c (fun _ => k))
  (at level 61, right associativity) : monad_scope.
Local Open Scope monad_scope.

(** [for x in l: body(x)]. *)
Fixpoint for_each {S A} (l : list A) (body : A -> M S unit) : M S unit :=
  match l with
  | [] => ret tt
  | x :: r => body x ;;; for_each r body
  end.

(** [normalize/text.py]: [md5_hex]. *)
Definition md5_hex `{Platform} {S} (text : str) : M S str :=
  match Utf8.encode text with
  | Some bytes => ret (md5_hexdigest bytes)
  | None => raise UnicodeEncodeError
  end.

(* ================================================================== *)
(** * db/models.py *)
(* ================================================================== *)

(** One record per mapped class, one list of rows per table.  The
    wall-clock columns ([created_at], [ingested_at], [processed_at],
    [observed_at]) and the columns the program never sets
    ([display_name], [meta], [source_system]) are left out. *)
Module Seed.
Record t : Type := {
  id : nat;
  seed_text : str;          (* unique *)
  normalized_seed : str;    (* indexed, not unique *)
  seed_hash : str
}.
End Seed.

Module Variation.
Record t : Type := {
  id : nat;
  seed_id : nat;
  variation_text : str;
  normalized_variation : str;   (* unique together with seed_id *)
  variation_hash : str
}.
End Variation.

Module Miner.
Record t : Type := {
  id : nat;
  miner_external_id : str   (* unique *)
}.
End Miner.

Module Batch.
Record t : Type := {
  id : nat;
  batch_name : str          (* unique *)
}.
End Batch.

Module SourceFile.
Record t : Type := {
  id : nat;
  batch_id : nat;
  file_path : str;
  file_checksum : str;
  record_count : option nat
}.
End SourceFile.

Module Observation.
Record t : Type := {
  id : nat;
  seed_id : nat;
  variation_id : nat;
  miner_id : option nat;
  batch_id : option nat;
  source_file_id : option nat;
  score : pyval;
  raw_payload : option str
}.
End Observation.

Record Tables : Type := {
  seeds : list Seed.t;
  variations : list Variation.t;
  miners : list Miner.t;
  batches : list Batch.t;
  source_files : list SourceFile.t;
  observations : list Observation.t
}.

(** The next value of each table's primary-key sequence.  A sequence is
    not transactional: a value drawn by a statement that is later rolled
    back is not handed out again. *)
Record Sequences : Type := {
  next_seed : nat;
  next_variation : nat;
  next_miner : nat;
  next_batch : nat;
  next_source_file : nat;
  next_observation : nat
}.

(** What the database holds between sessions. *)
Record Database : Type := {
  stored : Tables;
  sequences : Sequences
}.

Definition empty_tables : Tables :=
  {| seeds := []; variations := []; miners := []; batches := [];
     source_files := []; observations := [] |}.

Definition empty_database : Database :=
  {| stored := empty_tables;
     sequences := {| next_seed := 1; next_variation := 1; next_miner := 1;
                     next_batch := 1; next_source_file := 1;
                     next_observation := 1 |} |}.

(* ================================================================== *)
(** * db/engine.py: the session *)
(* ================================================================== *)

(** [committed] is what other connections see and what survives the
    session; [txn] is the tables as the session's open transaction sees
    them, with every flushed row.  [session.flush()] writes to [txn];
    [session.commit()] makes [txn] the committed tables; closing the
    session rolls the open transaction back. *)
Record Session : Type := {
  committed : Tables;
  txn : Tables;
  seqs : Sequences
}.

Definition open_session (db : Database) : Session :=
  {| committed := stored db; txn := stored db; seqs := sequences db |}.

Definition close_session (s : Session) : Database :=
  {| stored := committed s; sequences := seqs s |}.

(** [session.execute(select(...).where(...)).all()]. *)
Definition execute {A} (query : Tables -> list A) : M Session (list A) :=
  gets (fun s => query (txn s)).

(** [Result.scalar_one_or_none()]. *)
Definition scalar_one_or_none {S A} (rows : list A) : M S (option A) :=
  match rows with
  | [] => ret None
  | [row] => ret (Some row)
  | _ => raise MultipleResultsFound
  end.

Definition commit : M Session unit :=
  modify (fun s => {| committed := txn s; txn := txn s; seqs := seqs s |}).

Definition with_txn (f : Tables -> Tables) (g : Sequences -> Sequences)
  : M Session unit :=
  modify (fun s => {| committed := committed s; txn := f (txn s); seqs := g (seqs s) |}).

(** [session.add(row); session.flush()] per mapped class: the unique
    constraints of the table are checked, the primary key is drawn from
    the sequence, and the row is appended. *)
Definition add_seed (seed_text normalized_seed seed_hash : str) : M Session Seed.t :=
  n <- gets (fun s => next_seed (seqs s)) ;;
  clash <- execute (fun t => filter (fun r => str_eqb (Seed.seed_text r) seed_text) (seeds t)) ;;
  match clash with
  | _ :: _ => raise IntegrityError
  | [] =>
      let row := {| Seed.id := n; Seed.seed_text := seed_text;
                    Seed.normalized_seed := normalized_seed;
                    Seed.seed_hash := seed_hash |} in
      with_txn
        (fun t => {| seeds := seeds t ++ [row]; variations := variations t;
                     miners := miners t; batches := batches t;
                     source_files := source_files t;
                     observations := observations t |})
        (fun q => {| next_seed := S (next_seed q); next_variation := next_variation q;
                     next_miner := next_miner q; next_batch := next_batch q;
                     next_source_file := next_source_file q;
                     next_observation := next_observation q |}) ;;;
      ret row
  end.

Definition add_variation (seed_id : nat) (variation_text normalized_variation variation_hash : str)
  : M Session Variation.t :=
  n <- gets (fun s => next_variation (seqs s)) ;;
  clash <- execute (fun t =>
             filter (fun r => Nat.eqb (Variation.seed_id r) seed_id
                              && str_eqb (Variation.normalized_variation r) normalized_variation)
                    (variations t)) ;;
  match clash with
  | _ :: _ => raise IntegrityError
  | [] =>
      let row := {| Variation.id := n; Variation.seed_id := seed_id;
                    Variation.variation_text := variation_text;
                    Variation.normalized_variation := normalized_variation;
                    Variation.variation_hash := variation_hash |} in
      with_txn
        (fun t => {| seeds := seeds t; variations := variations t ++ [row];
                     miners := miners t; batches := batches t;
                     source_files := source_files t;
                     observations := observations t |})
        (fun q => {| next_seed := next_seed q; next_variation := S (next_variation q);
                     next_miner := next_miner q; next_batch := next_batch q;
                     next_source_file := next_source_file q;
                     next_observation := next_observation q |}) ;;;
      ret row
  end.

Definition add_miner (miner_external_id : str) : M Session Miner.t :=
  n <- gets (fun s => next_miner (seqs s)) ;;
  clash <- execute (fun t => filter (fun r => str_eqb (Miner.miner_external_id r) miner_external_id) (miners t)) ;;
  match clash with
  | _ :: _ => raise IntegrityError
  | [] =>
      let row := {| Miner.id := n; Miner.miner_external_id := miner_external_id |} in
      with_txn
        (fun t => {| seeds := seeds t; variations := variations t;
                     miners := miners t ++ [row]; batches := batches t;
                     source_files := source_files t;
                     observations := observations t |})
        (fun q => {| next_seed := next_seed q; next_variation := next_variation q;
                     next_miner := S (next_miner q); next_batch := next_batch q;
                     next_source_file := next_source_file q;
                     next_observation := next_observation q |}) ;;;
      ret row
  end.

Definition add_batch (batch_name : str) : M Session Batch.t :=
  n <- gets (fun s => next_batch (seqs s)) ;;
  clash <- execute (fun t => filter (fun r => str_eqb (Batch.batch_name r) batch_name) (batches t)) ;;
  match clash with
  | _ :: _ => raise IntegrityError
  | [] =>
      let row := {| Batch.id := n; Batch.batch_name := batch_name |} in
      with_txn
        (fun t => {| seeds := seeds t; variations := variations t;
                     miners := miners t; batches := batches t ++ [row];
                     source_files := source_files t;
                     observations := observations t |})
        (fun q => {| next_seed := next_seed q; next_variation := next_variation q;
                     next_miner := next_miner q; next_batch := S (next_batch q);
                     next_source_file := next_source_file q;
                     next_observation := next_observation q |}) ;;;
      ret row
  end.

Definition add_source_file (batch_id : nat) (file_path file_checksum : str)
  : M Session SourceFile.t :=
  n <- gets (fun s => next_source_file (seqs s)) ;;
  let row := {| SourceFile.id := n; SourceFile.batch_id := batch_id;
                SourceFile.file_path := file_path;
                SourceFile.file_checksum := file_checksum;
                SourceFile.record_count := None |} in
  with_txn
    (fun t => {| seeds := seeds t; variations := variations t;
                 miners := miners t; batches := batches t;
                 source_files := source_files t ++ [row];
                 observations := observations t |})
    (fun q => {| next_seed := next_seed q; next_variation := next_variation q;
                 next_miner := next_miner q; next_batch := next_batch q;
                 next_source_file := S (next_source_file q);
                 next_observation := next_observation q |}) ;;;
  ret row.

(** [session.add(obs)]: written with the next flush, at the latest the
    one [commit] starts with. *)
Definition add_observation (seed_id variation_id : nat)
  (miner_id batch_id source_file_id : option nat) (score : pyval)
  (raw_payload : option str) : M Session unit :=
  n <- gets (fun s => next_observation (seqs s)) ;;
  let row := {| Observation.id := n; Observation.seed_id := seed_id;
                Observation.variation_id := variation_id;
                Observation.miner_id := miner_id;
                Observation.batch_id := batch_id;
                Observation.source_file_id := source_file_id;
                Observation.score := score;
                Observation.raw_payload := raw_payload |} in
  with_txn
    (fun t => {| seeds := seeds t; variations := variations t;
                 miners := miners t; batches := batches t;
                 source_files := source_files t;
                 observations := observations t ++ [row] |})
    (fun q => {| next_seed := next_seed q; next_variation := next_variation q;
                 next_miner := next_miner q; next_batch := next_batch q;
                 next_source_file := next_source_file q;
                 next_observation := S (next_observation q) |}).

(** [src_file.record_count = n]: an UPDATE of the row with this key. *)
Definition set_record_count (source_file_id : nat) (n : nat) : M Session unit :=
  with_txn
    (fun t => {| seeds := seeds t; variations := variations t;
                 miners := miners t; batches := batches t;
                 source_files :=
                   map (fun r =>
                          if Nat.eqb (SourceFile.id r) source_file_id
                          then {| SourceFile.id := SourceFile.id r;
                                  SourceFile.batch_id := SourceFile.batch_id r;
                                  SourceFile.file_path := SourceFile.file_path r;
                                  SourceFile.file_checksum := SourceFile.file_checksum r;
                                  SourceFile.record_count := Some n |}
                          else r)
                       (source_files t);
                 observations := observations t |})
    (fun q => q).

(* ================================================================== *)
(** * ingest/metrics.py *)
(* ================================================================== *)

Record Metrics : Type := {
  seeds_new : nat;
  seeds_existing : nat;
  variations_new : nat;
  variations_existing : nat;
  observations_inserted : nat;
  files_processed : nat;
  files_skipped : nat;
  invalid_records : nat
}.

(** [Metrics()]. *)
Definition Metrics_init : Metrics :=
  {| seeds_new := 0; seeds_existing := 0; variations_new := 0;
     variations_existing := 0; observations_inserted := 0;
     files_processed := 0; files_skipped := 0; invalid_records := 0 |}.

(** The counters the program bumps with [+= 1]. *)
Inductive counter : Type :=
| c_seeds_new | c_seeds_existing | c_variations_new | c_variations_existing
| c_observations_inserted | c_files_processed | c_files_skipped
| c_invalid_records.

Definition incr (c : counter) (m : Metrics) : Metrics :=
  {| seeds_new :=
       seeds_new m + match c with c_seeds_new => 1 | _ => 0 end;
     seeds_existing :=
       seeds_existing m + match c with c_seeds_existing => 1 | _ => 0 end;
     variations_new :=
       variations_new m + match c with c_variations_new => 1 | _ => 0 end;
     variations_existing :=
       variations_existing m + match c with c_variations_existing => 1 | _ => 0 end;
     observations_inserted :=
       observations_inserted m + match c with c_observations_inserted => 1 | _ => 0 end;
     files_processed :=
       files_processed m + match c with c_files_processed => 1 | _ => 0 end;
     files_skipped :=
       files_skipped m + match c with c_files_skipped => 1 | _ => 0 end;
     invalid_records :=
       invalid_records m + match c with c_invalid_records => 1 | _ => 0 end |}.

(* ================================================================== *)
(** * ingest/validate.py *)
(* ================================================================== *)

Definition validate_record (record : dict) : bool * option str :=
  let seed := get record (lit "seed") in
  let variation := get record (lit "variation") in
  if negb (truthy seed) || negb (is_str seed) then
    (false, Some (lit "missing or invalid seed"))
  else if negb (truthy variation) || negb (is_str variation) then
    (false, Some (lit "missing or invalid variation"))
  else (true, None).

(* ================================================================== *)
(** * adapters/generic_responses_v1.py and adapters/registry.py *)
(* ================================================================== *)

Section Adapters.
Context `{Platform}.

Definition _get_miner_id (resp : dict) : option str :=
  let hotkey := get resp (lit "hotkey") in
  if truthy hotkey then Some (py_str hotkey)
  else
    let uid := get resp (lit "uid") in
    if negb (is_none uid) then Some (py_str uid) else None.

(** The canonical record [parse] yields. *)
Definition canonical_record (seed : str) (variation : pyval) (miner_id : option str) : dict :=
  [ (lit "seed", PStr seed);
    (lit "variation", variation);
    (lit "miner_ext_id", match miner_id with Some m => PStr m | None => PNone end);
    (lit "score", PNone);
    (lit "raw", PNone) ].

(** The generator, as the finite sequence of records it yields.  A bare
    [return] ends the sequence; [continue] moves to the next item. *)
Definition parse (obj : pyval) : list dict :=
  match obj with
  | PDict obj =>
      match get obj (lit "responses") with
      | PDict responses =>
          flat_map
            (fun resp =>
               match resp with
               | PDict resp =>
                   let miner_id := _get_miner_id resp in
                   match get_or resp (lit "variations") (PDict []) with
                   | PDict variations_map =>
                       flat_map
                         (fun item : str * pyval =>
                            let (seed, variations) := item in
                            match variations with
                            | PList variations =>
                                flat_map
                                  (fun variation =>
                                     if negb (truthy variation) then []
                                     else [canonical_record seed variation miner_id])
                                  variations
                            | _ => []
                            end)
                         variations_map
                   | _ => []
                   end
               | _ => []
               end)
            (values responses)
      | _ => []
      end
  | _ => []
  end.

Definition adapter : Type := pyval -> list dict.

Definition _REGISTRY : list (str * adapter) :=
  [ (lit "generic_responses_v1", parse) ].

Definition get_adapter {S} (name : str) : M S adapter :=
  match lookup _REGISTRY name with
  | Some a => ret a
  | None => raise (KeyError (lit "Unknown adapter: " ++ name))
  end.

(** [sorted(_REGISTRY.keys())]: [str] values compare by code points,
    lexicographically. *)
Fixpoint str_leb (a b : str) : bool :=
  match a, b with
  | [], _ => true
  | _ :: _, [] => false
  | x :: a', y :: b' =>
      if N.ltb x y then true else if N.eqb x y then str_leb a' b' else false
  end.

Fixpoint insert_sorted (x : str) (l : list str) : list str :=
  match l with
  | [] => [x]
  | y :: r => if str_leb x y then x :: l else y :: insert_sorted x r
  end.

Definition sorted (l : list str) : list str := fold_right insert_sorted [] l.

Definition get_adapter_names : list str := sorted (map fst _REGISTRY).

End Adapters.

(* ================================================================== *)
(** * ingest/file_io.py *)
(* ================================================================== *)

(** A [Path] together with what the file system holds under it. *)
Record Path : Type := {
  path_str : str;            (* str(path) *)
  is_file : bool;            (* path.is_file() *)
  contents : list byte       (* the bytes of the file, when it is one *)
}.

Section FileIO.
Context `{Platform}.

(** [for chunk in iter(lambda: f.read(block_size), b""): h.update(chunk)].
    [fed] is what the hash object has been fed; [rounds] bounds the
    number of reads, and one more than the length of the file is always
    enough for a positive block size. *)
Fixpoint read_blocks (rounds block_size : nat) (unread fed : list byte) : list byte :=
  match rounds with
  | O => fed
  | S rounds' =>
      match firstn block_size unread with
      | [] => fed
      | chunk => read_blocks rounds' block_size (skipn block_size unread) (fed ++ chunk)
      end
  end.

Definition compute_checksum (path : Path) : str :=
  let block_size := N.to_nat 8192 in
  sha256_hexdigest
    (read_blocks (S (List.length (contents path))) block_size (contents path) []).

(** [None] stands for the exception [json.load] raises. *)
Definition load_json (path : Path) : option pyval := json_load (contents path).

End FileIO.

(* ================================================================== *)
(** * ingest/batch.py *)
(* ================================================================== *)

(** The state of one call of [ingest_batch]: the session and the
    [Metrics] object the helpers mutate. *)
Record Run : Type := {
  session : Session;
  metrics : Metrics
}.

(** A computation on the session, inside a run. *)
Definition on_session {A} (m : M Session A) : M Run A :=
  fun r =>
    match m (session r) with
    | Returned a s => Returned a {| session := s; metrics := metrics r |}
    | Raised e s => Raised e {| session := s; metrics := metrics r |}
    end.

(** [metrics.<c> += 1]. *)
Definition bump (c : counter) : M Run unit :=
  modify (fun r => {| session := session r; metrics := incr c (metrics r) |}).

Definition _get_or_create_batch (batch_name : str) : M Session Batch.t :=
  rows <- execute (fun t => filter (fun b => str_eqb (Batch.batch_name b) batch_name) (batches t)) ;;
  batch <- scalar_one_or_none rows ;;
  match batch with
  | Some batch => ret batch
  | None => add_batch batch_name
  end.

Definition _get_or_create_seed (raw_seed norm_seed seed_hash : str) : M Run Seed.t :=
  seed <- on_session
            (rows <- execute (fun t => filter (fun s => str_eqb (Seed.normalized_seed s) norm_seed) (seeds t)) ;;
             scalar_one_or_none rows) ;;
  match seed with
  | None =>
      (* the row is completed by the flush that follows the counter *)
      bump c_seeds_new ;;;
      on_session (add_seed raw_seed norm_seed seed_hash)
  | Some seed =>
      bump c_seeds_existing ;;;
      ret seed
  end.

Definition _get_or_create_variation (seed : Seed.t)
  (raw_variation norm_variation variation_hash : str) : M Run Variation.t :=
  var <- on_session
           (rows <- execute (fun t =>
                       filter (fun v => Nat.eqb (Variation.seed_id v) (Seed.id seed)
                                        && str_eqb (Variation.normalized_variation v) norm_variation)
                              (variations t)) ;;
            scalar_one_or_none rows) ;;
  match var with
  | None =>
      bump c_variations_new ;;;
      on_session (add_variation (Seed.id seed) raw_variation norm_variation variation_hash)
  | Some var =>
      bump c_variations_existing ;;;
      ret var
  end.

(** [ext_id] is a [str] or [None] by its annotation, and so [parse]
    builds it.  A truthy value of another type would be compared with a
    text column, a statement PostgreSQL, the database of [db/engine.py],
    rejects. *)
Definition _get_or_create_miner (ext_id : pyval) : M Session (option Miner.t) :=
  if negb (truthy ext_id) then ret None
  else
    match ext_id with
    | PStr ext_id =>
        rows <- execute (fun t => filter (fun m => str_eqb (Miner.miner_external_id m) ext_id) (miners t)) ;;
        miner <- scalar_one_or_none rows ;;
        match miner with
        | None => m <- add_miner ext_id ;; ret (Some m)
        | Some m => ret (Some m)
        end
    | _ => raise ProgrammingError
    end.

Section Batch.
Context `{Platform}.

(** The body of [for rec in adapter(data)]; the result is the
    contribution of the record to [record_count]. *)
Definition ingest_record (batch : Batch.t) (src_file : option SourceFile.t)
  (dry_run : bool) (rec : dict) : M Run nat :=
  let (valid, reason) := validate_record rec in
  if negb valid then
    bump c_invalid_records ;;;
    ret 0
  else
    let raw_seed := str_of (get rec (lit "seed")) in
    let raw_variation := str_of (get rec (lit "variation")) in
    let norm_seed := normalize_seed raw_seed false in
    let norm_variation := normalize_variation raw_variation false in
    seed_hash <- md5_hex norm_seed ;;
    var_hash <- md5_hex norm_variation ;;
    seed <- _get_or_create_seed raw_seed norm_seed seed_hash ;;
    variation <- _get_or_create_variation seed raw_variation norm_variation var_hash ;;
    let miner_ext_id := get rec (lit "miner_ext_id") in
    miner <- (if truthy miner_ext_id
              then on_session (_get_or_create_miner miner_ext_id)
              else ret None) ;;
    (if negb dry_run then
       on_session
         (add_observation (Seed.id seed) (Variation.id variation)
            (option_map Miner.id miner)
            (Some (Batch.id batch))
            (option_map SourceFile.id src_file)
            (get rec (lit "score"))
            (if truthy (get rec (lit "raw"))
             then Some (json_dumps (get rec (lit "raw")))
             else None))
     else ret tt) ;;;
    bump c_observations_inserted ;;;
    ret 1.

(** The record loop, with the local [record_count]. *)
Fixpoint ingest_records (batch : Batch.t) (src_file : option SourceFile.t)
  (dry_run : bool) (recs : list dict) (record_count : nat) : M Run nat :=
  match recs with
  | [] => ret record_count
  | rec :: rest =>
      n <- ingest_record batch src_file dry_run rec ;;
      ingest_records batch src_file dry_run rest (record_count + n)
  end.

(** The resume check: [true] when the file is to be skipped. *)
Definition check_resume (batch : Batch.t) (resume : bool) (checksum : str) : M Run bool :=
  if resume then
    existing_file <- on_session
      (rows <- execute (fun t =>
                 filter (fun f => Nat.eqb (SourceFile.batch_id f) (Batch.id batch)
                                  && str_eqb (SourceFile.file_checksum f) checksum)
                        (source_files t)) ;;
       scalar_one_or_none rows) ;;
    match existing_file with
    | Some _ => bump c_files_skipped ;;; ret true
    | None => ret false
    end
  else ret false.

(** [src_file = models.SourceFile(...); session.add(src_file); session.flush()]
    unless [dry_run]. *)
Definition create_source_file (batch : Batch.t) (dry_run : bool) (path : Path)
  (checksum : str) : M Run (option SourceFile.t) :=
  if negb dry_run then
    src_file <- on_session (add_source_file (Batch.id batch) (path_str path) checksum) ;;
    ret (Some src_file)
  else ret None.

(** From the record loop to the end of the body of [for path in files]. *)
Definition process_records (parser : adapter) (batch : Batch.t) (dry_run : bool)
  (src_file : option SourceFile.t) (data : pyval) : M Run unit :=
  record_count <- ingest_records batch src_file dry_run (parser data) 0 ;;
  (match src_file with
   | Some f =>
       if negb dry_run then on_session (set_record_count (SourceFile.id f) record_count)
       else ret tt
   | None => ret tt
   end) ;;;
  bump c_files_processed ;;;
  if negb dry_run then on_session commit else ret tt.

(** The body of [for path in files]. *)
Definition ingest_file (parser : adapter) (batch : Batch.t) (dry_run resume : bool)
  (path : Path) : M Run unit :=
  if negb (is_file path) then ret tt
  else
    let checksum := compute_checksum path in
    skip <- check_resume batch resume checksum ;;
    if skip : bool then ret tt
    else
      match load_json path with
      | None => bump c_invalid_records
      | Some data =>
          src_file <- create_source_file batch dry_run path checksum ;;
          process_records parser batch dry_run src_file data
      end.

(** The body of [ingest_batch] from [get_adapter] to [return metrics]. *)
Definition ingest_batch_body (batch_name : str) (files : list Path)
  (adapter_name : str) (dry_run resume : bool) (workers : nat) : M Run Metrics :=
  parser <- get_adapter adapter_name ;;
  batch <- on_session (_get_or_create_batch batch_name) ;;
  for_each files (ingest_file parser batch dry_run resume) ;;;
  gets metrics.

(** [ingest_batch]: a fresh [Metrics], a session opened on the database
    and closed on every way out.  The result is what the call returns or
    raises, and the database it leaves. *)
Definition ingest_batch (db : Database) (batch_name : str) (files : list Path)
  (adapter_name : str) (dry_run resume : bool) (workers : nat)
  : (exn + Metrics) * Database :=
  match ingest_batch_body batch_name files adapter_name dry_run resume workers
          {| session := open_session db; metrics := Metrics_init |} with
  | Returned m r => (inr m, close_session (session r))
  | Raised e r => (inl e, close_session (session r))
  end.

End Batch.

(* ================================================================== *)
(** * api/routers/seeds.py: [seed_diff] *)
(* ================================================================== *)

Record SeedDiffRequest : Type := {
  seed : str;
  request_variations : list str     (* [variations], min_items=1 *)
}.

Record SeedDiffResponse : Type := {
  existing : list str;
  new : list str
}.

(** [{var: normalize_variation(var) for var in payload.variations}]. *)
Definition norm_map_of (candidates : list str) : list (str * str) :=
  fold_left (fun d var => dict_set d var (normalize_variation var false)) candidates [].

Definition seed_diff (payload : SeedDiffRequest) : M Session SeedDiffResponse :=
  let seed_norm := normalize_seed (seed payload) false in
  rows <- execute (fun t =>
            map Seed.id
              (filter (fun s => str_eqb (Seed.normalized_seed s) seed_norm) (seeds t))) ;;
  seed_row <- scalar_one_or_none rows ;;
  match seed_row with
  | None => ret {| existing := []; new := request_variations payload |}
  | Some seed_id =>
      let norm_map := norm_map_of (request_variations payload) in
      rows <- execute (fun t =>
                map Variation.normalized_variation
                  (filter (fun v =>
                             Nat.eqb (Variation.seed_id v) seed_id
                             && existsb (str_eqb (Variation.normalized_variation v))
                                        (values norm_map))
                          (variations t))) ;;
      let existing_norms := rows in
      let (existing, new) :=
        fold_left
          (fun (acc : list str * list str) (item : str * str) =>
             let (raw_var, norm_var) := item in
             if existsb (str_eqb norm_var) existing_norms
             then (fst acc ++ [raw_var], snd acc)
             else (fst acc, snd acc ++ [raw_var]))
          norm_map ([], []) in
      ret {| existing := existing; new := new |}
  end.

(* ================================================================== *)
(** * api/routers/seeds.py: [seeds_exists] *)
(* ================================================================== *)

Module SeedExistsRequest.
Record t : Type := {
  seeds : list str     (* min_items=1 *)
}.
End SeedExistsRequest.

Module SeedExistsResponseItem.
Record t : Type := {
  seed : str;
  exists_ : bool;      (* [exists] *)
  variation_count : nat
}.
End SeedExistsResponseItem.

(** The rows of [select(col, func.count(...)).group_by(col)], given the
    column of the selected rows: one row per distinct value, with the
    number of its rows. *)
Definition group_by_count (col : list nat) : list (nat * nat) :=
  map (fun k => (k, count_occ Nat.eq_dec col k)) (nodup Nat.eq_dec col).

(** [counts.get(k, default)] on a dict with [int] keys. *)
Fixpoint get_count (counts : list (nat * nat)) (k default : nat) : nat :=
  match counts with
  | [] => default
  | (k', v) :: r => if Nat.eqb k' k then v else get_count r k default
  end.

(** A selected row [(id, seed_text, normalized_seed)] is a non-empty
    [Row], which is truthy: [if row] tests [found.get] against [None]. *)
Definition seeds_exists (payload : SeedExistsRequest.t)
  : M Session (list SeedExistsResponseItem.t) :=
  let norm_map :=
    fold_left (fun d seed => dict_set d seed (normalize_seed seed false))
              (SeedExistsRequest.seeds payload) [] in
  rows <- execute (fun t =>
            map (fun s => (Seed.id s, Seed.seed_text s, Seed.normalized_seed s))
              (filter (fun s => existsb (str_eqb (Seed.normalized_seed s)) (values norm_map))
                      (seeds t))) ;;
  let found :=
    fold_left (fun d (row : nat * str * str) => dict_set d (snd row) row) rows [] in
  counts <- (match found with
             | _ :: _ =>
                 let seed_ids := map (fun row : nat * str * str => fst (fst row)) (values found) in
                 execute (fun t =>
                   group_by_count
                     (map Variation.seed_id
                        (filter (fun v => existsb (Nat.eqb (Variation.seed_id v)) seed_ids)
                                (variations t))))
             | [] => ret []
             end) ;;
  ret (fold_left
         (fun results (item : str * str) =>
            let (raw_seed, norm_seed) := item in
            match lookup found norm_seed with
            | Some row =>
                results ++ [{| SeedExistsResponseItem.seed := raw_seed;
                               SeedExistsResponseItem.exists_ := true;
                               SeedExistsResponseItem.variation_count :=
                                 get_count counts (fst (fst row)) 0 |}]
            | None =>
                results ++ [{| SeedExistsResponseItem.seed := raw_seed;
                               SeedExistsResponseItem.exists_ := false;
                               SeedExistsResponseItem.variation_count := 0 |}]
            end)
         norm_map []).

(* ================================================================== *)
(** * Section 4.1 of the specification, read literally *)
(* ================================================================== *)

(** The normaliser as the specification words it, step by step, for
    comparison with [normalize_text]. *)
Module Spec.
Import Unicode.
Local Open Scope N_scope.

(** The maximal runs of a text under a sameness test. *)
Fixpoint runs (same : codepoint -> codepoint -> bool) (text : str) : list str :=
  match text with
  | [] => []
  | x :: rest =>
      match runs same rest with
      | (y :: run) :: more =>
          if same x y then (x :: y :: run) :: more else [x] :: (y :: run) :: more
      | _ => [[x]]
      end
  end.

(** Step 1: trim leading/trailing whitespace. *)
Definition trim (text : str) : str := strip text.

(** Step 2: lowercase. *)
Definition lowercase (text : str) : str := lower text.

(** Step 2, had "(case-fold)" meant full case folding, [str.casefold]:
    in the blocks of the tables it differs from lowercasing on SHARP S
    and MICRO SIGN. *)
Definition casefold (text : str) : str :=
  flat_map (fun c => if c =? 0xDF then [0x73; 0x73]
                     else if c =? 0xB5 then [0x3BC]
                     else [lower_cp c])
           text.

(** Step 3: decompose to a decomposed form and drop all combining marks. *)
Definition strip_accents (decompose : str -> str) (text : str) : str :=
  filter (fun ch => negb (is_combining ch)) (decompose text).

(** Step 4: every run of one-or-more whitespace characters becomes one
    ASCII space. *)
Definition collapse_whitespace (text : str) : str :=
  flat_map
    (fun run => match run with
                | c :: _ => if is_whitespace c then [0x20] else run
                | [] => []
                end)
    (runs (fun a b => Bool.eqb (is_whitespace a) (is_whitespace b)) text).

(** Step 5: every run of 3-or-more identical characters becomes a single
    occurrence. *)
Definition collapse_repeated (text : str) : str :=
  flat_map
    (fun run => if (3 <=? List.length run)%nat then firstn 1 run else run)
    (runs N.eqb text).

(** The five steps in order, over a choice of decomposed form. *)
Definition normalize_with (decompose : str -> str) (text : str) (collapse_repeats : bool) : str :=
  let text := trim text in
  let text := lowercase text in
  let text := strip_accents decompose text in
  let text := collapse_whitespace text in
  if collapse_repeats then collapse_repeated text else text.

(** As written: the canonical decomposed form, [collapse_repeats]
    defaulting to false. *)
Definition normalize (text : str) (collapse_repeats : bool) : str :=
  normalize_with nfd text collapse_repeats.

End Spec.

(* ================================================================== *)
(** * Vocabulary of the proofs *)
(* ================================================================== *)

(** ** Normalisation *)

(** The two substitutions of [normalize_text]. *)
Definition sub_whitespace : str -> str := re_sub _WHITESPACE_RE (fun _ => [0x20%N]).
Definition sub_repeats : str -> str := re_sub _REPEATS_RE _collapse.

(** What lowering and accent stripping make of one code point. *)
Definition norm_cp (c : codepoint) : str :=
  filter (fun ch => negb (Unicode.is_combining ch))
         (Unicode.decompose_compat (Unicode.lower_cp c)).

(** A code point that is not whitespace, is its own lowercase, has no
    decomposition and is not a combining mark: one that every step of
    the normaliser leaves as it is. *)
Definition stable (c : codepoint) : bool :=
  negb (Unicode.is_whitespace c)
  && N.eqb (Unicode.lower_cp c) c
  && str_eqb (Unicode.decompose_compat c) [c]
  && negb (Unicode.is_combining c).

(** The spacing accents of Latin-1: DIAERESIS, MACRON, ACUTE ACCENT and
    CEDILLA, whose compatibility decomposition is a space and a mark. *)
Definition spacing_accent (c : codepoint) : bool :=
  (N.eqb c 0xA8 || N.eqb c 0xAF || N.eqb c 0xB4 || N.eqb c 0xB8)%N.

(** Text of Basic Latin and Latin-1 Supplement without spacing accents. *)
Definition latin1_plain (text : str) : bool :=
  forallb (fun c => N.ltb c 0x100 && negb (spacing_accent c)) text.

(** A whitespace code point normalises to one whitespace code point; any
    other one to a non-empty run of stable code points. *)
Definition regular_cp (c : codepoint) : bool :=
  if Unicode.is_whitespace c then
    match norm_cp c with
    | [w] => Unicode.is_whitespace w
    | _ => false
    end
  else
    match norm_cp c with
    | [] => false
    | l => forallb stable l
    end.

(** [sub_whitespace] as a scanner: [in_run] tells that the previous code
    point was whitespace. *)
Fixpoint ws_scan (in_run : bool) (text : str) : str :=
  match text with
  | [] => []
  | c :: rest =>
      if Unicode.is_whitespace c
      then if in_run then ws_scan true rest else 0x20%N :: ws_scan true rest
      else c :: ws_scan false rest
  end.

(** The last code point, if any, is not whitespace. *)
Fixpoint ends_ok (text : str) : bool :=
  match text with
  | [] => true
  | c :: rest =>
      match rest with
      | [] => negb (Unicode.is_whitespace c)
      | _ => ends_ok rest
      end
  end.

(** Text of stable code points and single spaces that does not end in a
    space and, when [after_space], does not start with one. *)
Fixpoint tight (after_space : bool) (text : str) : bool :=
  match text with
  | [] => negb after_space
  | c :: rest =>
      if N.eqb c 0x20 then negb after_space && tight true rest
      else stable c && tight false rest
  end.

(** Text in normal form: empty, or tight without a leading space. *)
Definition normal (text : str) : bool :=
  match text with
  | [] => true
  | _ => tight true text
  end.

(** A surrogate code point, which UTF-8 cannot encode. *)
Definition surrogate (c : codepoint) : bool := Unicode.between 0xD800 0xDFFF c.

(** Text of Basic Latin and Latin-1 Supplement. *)
Definition latin1 (text : str) : bool := forallb (fun c => N.ltb c 0x100) text.

(** Whitespace is single ASCII spaces: no other whitespace code point,
    and no space right after a space. *)
Fixpoint single_spaced (text : str) : bool :=
  match text with
  | [] => true
  | c :: rest =>
      (N.eqb c 0x20 || negb (Unicode.is_whitespace c))
      && match rest with
         | d :: _ => negb (N.eqb c 0x20 && N.eqb d 0x20)
         | [] => true
         end
      && single_spaced rest
  end.

(** No code point is followed by two copies of itself. *)
Fixpoint no_triple (text : str) : bool :=
  match text with
  | [] => true
  | c :: rest =>
      (List.length (take_while (N.eqb c) rest) <=? 1)%nat && no_triple rest
  end.

(** ** Reasoning about computations *)

(** From a state in [P], the computation returns into [Q] or raises
    into [E]. *)
Definition hoare {S A} (P : S -> Prop) (m : M S A) (Q : A -> S -> Prop)
  (E : S -> Prop) : Prop :=
  forall s, P s ->
    match m s with
    | Returned a s' => Q a s'
    | Raised _ s' => E s'
    end.

(** [I] holds after the computation, however it ends, if it held before. *)
Definition inv {S A} (I : S -> Prop) (m : M S A) : Prop :=
  hoare I m (fun _ => I) I.

(** A property of the session, as a property of the run. *)
Definition of_session (J : Session -> Prop) : Run -> Prop :=
  fun r => J (session r).

(** From a state in [P], the computation returns into [Q] or raises an
    exception [e] into [E e]. *)
Definition triple {S A} (P : S -> Prop) (m : M S A) (Q : A -> S -> Prop)
  (E : exn -> S -> Prop) : Prop :=
  forall s, P s ->
    match m s with
    | Returned a s' => Q a s'
    | Raised e s' => E e s'
    end.

(** [f] has the value it had when the computation returns. *)
Definition kept_on_return {S A T} (f : S -> T) (m : M S A) : Prop :=
  forall s a s', m s = Returned a s' -> f s' = f s.

(** ** The store *)

Definition seed_key (s : Seed.t) : str := Seed.normalized_seed s.
Definition variation_key (v : Variation.t) : nat * str :=
  (Variation.seed_id v, Variation.normalized_variation v).


(** The tests of the queries. *)
Definition seed_has (norm_seed : str) (s : Seed.t) : bool :=
  str_eqb (Seed.normalized_seed s) norm_seed.
Definition variation_has (seed_id : nat) (norm_variation : str) (v : Variation.t) : bool :=
  Nat.eqb (Variation.seed_id v) seed_id
  && str_eqb (Variation.normalized_variation v) norm_variation.
Definition source_file_has (batch_id : nat) (checksum : str) (f : SourceFile.t) : bool :=
  Nat.eqb (SourceFile.batch_id f) batch_id
  && str_eqb (SourceFile.file_checksum f) checksum.
Definition batch_has (batch_name : str) (b : Batch.t) : bool :=
  str_eqb (Batch.batch_name b) batch_name.

(** The committed tables are [c0]. *)
Definition committed_is (c0 : Tables) : Session -> Prop := fun s => committed s = c0.


(** The databases that calls of [ingest_batch], with any arguments,
    build from the empty one. *)
Inductive reachable `{Platform} : Database -> Prop :=
| reachable_empty : reachable empty_database
| reachable_ingest (db : Database) (batch_name : str) (files : list Path)
    (adapter_name : str) (dry_run resume : bool) (workers : nat) :
    reachable db ->
    reachable (snd (ingest_batch db batch_name files adapter_name dry_run resume workers)).


(** ** Files *)

(** The SourceFile rows the resume check of a file finds. *)
Definition resume_rows (batch : Batch.t) (checksum : str) (r : Run) : list SourceFile.t :=
  filter (source_file_has (Batch.id batch) checksum) (source_files (txn (session r))).

(** The run after [metrics.<c> += 1]. *)
Definition bumped (c : counter) (r : Run) : Run :=
  {| session := session r; metrics := incr c (metrics r) |}.

(** [src_file.record_count = n] on one row. *)
Definition with_record_count (n : nat) (f : SourceFile.t) : SourceFile.t :=
  {| SourceFile.id := SourceFile.id f;
     SourceFile.batch_id := SourceFile.batch_id f;
     SourceFile.file_path := SourceFile.file_path f;
     SourceFile.file_checksum := SourceFile.file_checksum f;
     SourceFile.record_count := Some n |}.

(** The row a file gets when it is not skipped. *)
Definition source_file_row (id : nat) (batch : Batch.t) (path : Path) (checksum : str)
  : SourceFile.t :=
  {| SourceFile.id := id; SourceFile.batch_id := Batch.id batch;
     SourceFile.file_path := path_str path; SourceFile.file_checksum := checksum;
     SourceFile.record_count := None |}.







(** ** The steps of a record, as changes of the session *)

(** The session after a row was added and flushed: the row at the end of
    its table, the table's sequence one further. *)
Definition flushed_seed (row : Seed.t) (s : Session) : Session :=
  {| committed := committed s;
     txn := {| seeds := seeds (txn s) ++ [row]; variations := variations (txn s);
               miners := miners (txn s); batches := batches (txn s);
               source_files := source_files (txn s);
               observations := observations (txn s) |};
     seqs := {| next_seed := S (next_seed (seqs s));
                next_variation := next_variation (seqs s);
                next_miner := next_miner (seqs s); next_batch := next_batch (seqs s);
                next_source_file := next_source_file (seqs s);
                next_observation := next_observation (seqs s) |} |}.

Definition flushed_variation (row : Variation.t) (s : Session) : Session :=
  {| committed := committed s;
     txn := {| seeds := seeds (txn s); variations := variations (txn s) ++ [row];
               miners := miners (txn s); batches := batches (txn s);
               source_files := source_files (txn s);
               observations := observations (txn s) |};
     seqs := {| next_seed := next_seed (seqs s);
                next_variation := S (next_variation (seqs s));
                next_miner := next_miner (seqs s); next_batch := next_batch (seqs s);
                next_source_file := next_source_file (seqs s);
                next_observation := next_observation (seqs s) |} |}.

Definition flushed_miner (row : Miner.t) (s : Session) : Session :=
  {| committed := committed s;
     txn := {| seeds := seeds (txn s); variations := variations (txn s);
               miners := miners (txn s) ++ [row]; batches := batches (txn s);
               source_files := source_files (txn s);
               observations := observations (txn s) |};
     seqs := {| next_seed := next_seed (seqs s);
                next_variation := next_variation (seqs s);
                next_miner := S (next_miner (seqs s)); next_batch := next_batch (seqs s);
                next_source_file := next_source_file (seqs s);
                next_observation := next_observation (seqs s) |} |}.

Definition flushed_batch (row : Batch.t) (s : Session) : Session :=
  {| committed := committed s;
     txn := {| seeds := seeds (txn s); variations := variations (txn s);
               miners := miners (txn s); batches := batches (txn s) ++ [row];
               source_files := source_files (txn s);
               observations := observations (txn s) |};
     seqs := {| next_seed := next_seed (seqs s);
                next_variation := next_variation (seqs s);
                next_miner := next_miner (seqs s); next_batch := S (next_batch (seqs s));
                next_source_file := next_source_file (seqs s);
                next_observation := next_observation (seqs s) |} |}.

Definition flushed_source_file (row : SourceFile.t) (s : Session) : Session :=
  {| committed := committed s;
     txn := {| seeds := seeds (txn s); variations := variations (txn s);
               miners := miners (txn s); batches := batches (txn s);
               source_files := source_files (txn s) ++ [row];
               observations := observations (txn s) |};
     seqs := {| next_seed := next_seed (seqs s);
                next_variation := next_variation (seqs s);
                next_miner := next_miner (seqs s); next_batch := next_batch (seqs s);
                next_source_file := S (next_source_file (seqs s));
                next_observation := next_observation (seqs s) |} |}.

Definition flushed_observation (row : Observation.t) (s : Session) : Session :=
  {| committed := committed s;
     txn := {| seeds := seeds (txn s); variations := variations (txn s);
               miners := miners (txn s); batches := batches (txn s);
               source_files := source_files (txn s);
               observations := observations (txn s) ++ [row] |};
     seqs := {| next_seed := next_seed (seqs s);
                next_variation := next_variation (seqs s);
                next_miner := next_miner (seqs s); next_batch := next_batch (seqs s);
                next_source_file := next_source_file (seqs s);
                next_observation := S (next_observation (seqs s)) |} |}.

(** The session after [src_file.record_count = n] and [session.commit()]. *)
Definition counted_and_committed (source_file_id n : nat) (s : Session) : Session :=
  let t := {| seeds := seeds (txn s); variations := variations (txn s);
              miners := miners (txn s); batches := batches (txn s);
              source_files :=
                map (fun row => if Nat.eqb (SourceFile.id row) source_file_id
                                then with_record_count n row else row)
                    (source_files (txn s));
              observations := observations (txn s) |} in
  {| committed := t; txn := t; seqs := seqs s |}.

(** A run with another session, the same metrics. *)
Definition in_session (s : Session) (r : Run) : Run :=
  {| session := s; metrics := metrics r |}.

(** The Observation row [ingest_record] builds. *)
Definition observation_row `{Platform} (id : nat) (seed : Seed.t) (variation : Variation.t)
  (miner : option Miner.t) (batch : Batch.t) (src_file : option SourceFile.t)
  (rec : dict) : Observation.t :=
  {| Observation.id := id;
     Observation.seed_id := Seed.id seed;
     Observation.variation_id := Variation.id variation;
     Observation.miner_id := option_map Miner.id miner;
     Observation.batch_id := Some (Batch.id batch);
     Observation.source_file_id := option_map SourceFile.id src_file;
     Observation.score := get rec (lit "score");
     Observation.raw_payload :=
       if truthy (get rec (lit "raw"))
       then Some (json_dumps (get rec (lit "raw")))
       else None |}.

(** ** Rows that fit together *)

(** The text of a row and its keys: the normalized column is the normal
    form of the text, the hash column the MD5 of its UTF-8 encoding. *)
Definition hashed `{Platform} (text normalized hash : str) : Prop :=
  normalized = normalize_text text false
  /\ exists bytes, Utf8.encode normalized = Some bytes /\ hash = md5_hexdigest bytes.

Definition seed_sound `{Platform} (s : Seed.t) : Prop :=
  hashed (Seed.seed_text s) (Seed.normalized_seed s) (Seed.seed_hash s).

(** A Variation row, besides, belongs to a Seed row. *)
Definition variation_sound `{Platform} (t : Tables) (v : Variation.t) : Prop :=
  hashed (Variation.variation_text v) (Variation.normalized_variation v)
         (Variation.variation_hash v)
  /\ In (Variation.seed_id v) (map Seed.id (seeds t)).

(** The key of a SourceFile row and the batch it names. *)
Definition file_key (f : SourceFile.t) : nat * nat :=
  (SourceFile.id f, SourceFile.batch_id f).

(** An Observation row points to a Seed row and to a Variation row of
    that Seed, to a Miner row if to any, to a Batch row and to a
    SourceFile row of that batch; it has neither score nor payload. *)
Definition observation_sound (t : Tables) (o : Observation.t) : Prop :=
  In (Observation.seed_id o) (map Seed.id (seeds t))
  /\ In (Observation.variation_id o, Observation.seed_id o)
        (map (fun v => (Variation.id v, Variation.seed_id v)) (variations t))
  /\ (forall m, Observation.miner_id o = Some m -> In m (map Miner.id (miners t)))
  /\ (exists b f, Observation.batch_id o = Some b
                  /\ Observation.source_file_id o = Some f
                  /\ In b (map Batch.id (batches t))
                  /\ In (f, b) (map file_key (source_files t)))
  /\ Observation.score o = PNone
  /\ Observation.raw_payload o = None.

Definition sound_tables `{Platform} (t : Tables) : Prop :=
  Forall seed_sound (seeds t)
  /\ Forall (variation_sound t) (variations t)
  /\ Forall (observation_sound t) (observations t)
  /\ Forall (fun f => In (SourceFile.batch_id f) (map Batch.id (batches t)))
            (source_files t)
  /\ Forall (fun m => Miner.miner_external_id m <> []) (miners t)
  /\ NoDup (map seed_key (seeds t))
  /\ NoDup (map variation_key (variations t))
  /\ NoDup (map Miner.miner_external_id (miners t))
  /\ NoDup (map Batch.batch_name (batches t)).

Definition sound_session `{Platform} (s : Session) : Prop :=
  sound_tables (committed s) /\ sound_tables (txn s).

(** A record as an adapter is to yield it, and as [parse] does: the miner
    is text or [None], and there is neither score nor payload. *)
Definition canonical (rec : dict) : Prop :=
  (get rec (lit "miner_ext_id") = PNone
   \/ exists m, get rec (lit "miner_ext_id") = PStr m)
  /\ get rec (lit "score") = PNone
  /\ get rec (lit "raw") = PNone.

(** The Batch row and the SourceFile row a record is ingested under are
    in the tables (outside dry run there is always a SourceFile row). *)
Definition under (batch : Batch.t) (src_file : option SourceFile.t) (dry_run : bool)
  (s : Session) : Prop :=
  In (Batch.id batch) (map Batch.id (batches (txn s)))
  /\ (dry_run = false ->
      exists f, src_file = Some f
                /\ In (SourceFile.id f, Batch.id batch)
                      (map file_key (source_files (txn s)))).

Definition sound_under `{Platform} (batch : Batch.t) (src_file : option SourceFile.t)
  (dry_run : bool) (r : Run) : Prop :=
  sound_session (session r) /\ under batch src_file dry_run (session r).

(** A sound session that holds the Batch row of the run. *)
Definition sound_in `{Platform} (batch : Batch.t) (r : Run) : Prop :=
  sound_session (session r)
  /\ In (Batch.id batch) (map Batch.id (batches (txn (session r)))).

(** An adapter that yields canonical records only. *)
Definition canonical_adapter (parser : pyval -> list dict) : Prop :=
  forall data, Forall canonical (parser data).

(** ** Tables that only grow *)

(** Every table of [t] is the table of [t0] with rows added at its end. *)
Definition extends (t0 t : Tables) : Prop :=
  (exists rows, seeds t = seeds t0 ++ rows)
  /\ (exists rows, variations t = variations t0 ++ rows)
  /\ (exists rows, miners t = miners t0 ++ rows)
  /\ (exists rows, batches t = batches t0 ++ rows)
  /\ (exists rows, source_files t = source_files t0 ++ rows)
  /\ (exists rows, observations t = observations t0 ++ rows).

(** The SourceFile sequence is ahead of the keys of the SourceFile rows. *)
Definition file_ids_below (bound : nat) (t : Tables) : Prop :=
  Forall (fun f => SourceFile.id f < bound) (source_files t).

Definition file_ids_session (s : Session) : Prop :=
  file_ids_below (next_source_file (seqs s)) (committed s)
  /\ file_ids_below (next_source_file (seqs s)) (txn s).

(** While the records of a file are gone through: nothing is committed,
    the transaction sees the tables of [t0] with rows added, and the
    SourceFile sequence is at [bound] or beyond. *)
Definition growing (t0 c0 : Tables) (bound : nat) (s : Session) : Prop :=
  committed s = c0 /\ extends t0 (txn s) /\ bound <= next_source_file (seqs s).

(** Between the files of a run. *)
Definition grown (t0 : Tables) (bound : nat) (s : Session) : Prop :=
  extends t0 (committed s) /\ extends t0 (txn s)
  /\ bound <= next_source_file (seqs s).

(** The exceptions a run can end in. *)
Definition expected (adapter_name : str) (resume : bool) (e : exn) : Prop :=
  e = KeyError (lit "Unknown adapter: " ++ adapter_name)
  \/ e = UnicodeEncodeError
  \/ (resume = true /\ e = MultipleResultsFound).

(** ** Rows against counters *)

(** The books of a run: the rows the transaction sees against the
    counters.  In order: Seed rows over [seeds_new]; Variation rows over
    [variations_new]; Observation rows over [observations_inserted] and
    SourceFile rows over [files_processed] (over nothing in a dry run,
    which adds neither); seed lookups and variation lookups over
    [observations_inserted]. *)
Definition ledger (dry_run : bool) (r : Run) : list Z :=
  let t := txn (session r) in
  let m := metrics r in
  let rows {A} (l : list A) := Z.of_nat (List.length l) in
  [ rows (seeds t) - Z.of_nat (seeds_new m);
    rows (variations t) - Z.of_nat (variations_new m);
    rows (observations t)
    - (if dry_run then 0 else Z.of_nat (observations_inserted m));
    rows (source_files t)
    - (if dry_run then 0 else Z.of_nat (files_processed m));
    Z.of_nat (seeds_new m) + Z.of_nat (seeds_existing m)
    - Z.of_nat (observations_inserted m);
    Z.of_nat (variations_new m) + Z.of_nat (variations_existing m)
    - Z.of_nat (observations_inserted m) ]%Z.

(** Committed and seen by the transaction are the same rows, the Batch
    table apart. *)
Definition synced_rows (s : Session) : Prop :=
  seeds (committed s) = seeds (txn s)
  /\ variations (committed s) = variations (txn s)
  /\ miners (committed s) = miners (txn s)
  /\ source_files (committed s) = source_files (txn s)
  /\ observations (committed s) = observations (txn s).

(** ** The candidates of a diff *)

(** The candidates in the order of their first occurrence, each once:
    the keys of the dict comprehension of [seed_diff]. *)
Fixpoint first_occurrences (seen : list (list N)) (l : list (list N)) : list (list N) :=
  match l with
  | [] => []
  | x :: rest =>
      if existsb (str_eqb x) seen then first_occurrences seen rest
      else x :: first_occurrences (x :: seen) rest
  end.

(** The candidate's normalized form is a Variation of the Seed. *)
Definition known_variation (t : Tables) (seed_id : nat) (candidate : str) : bool :=
  existsb (variation_has seed_id (normalize_variation candidate false)) (variations t).

(** What [seeds_exists] answers for one raw seed: the Seed row with its
    normalized text, if there is one, and the number of the Variation
    rows of that Seed. *)
Definition seed_report (t : Tables) (raw_seed : str) : SeedExistsResponseItem.t :=
  match find (seed_has (normalize_seed raw_seed false)) (seeds t) with
  | Some row =>
      {| SeedExistsResponseItem.seed := raw_seed;
         SeedExistsResponseItem.exists_ := true;
         SeedExistsResponseItem.variation_count :=
           List.length (filter (fun v => Nat.eqb (Variation.seed_id v) (Seed.id row))
                               (variations t)) |}
  | None =>
      {| SeedExistsResponseItem.seed := raw_seed;
         SeedExistsResponseItem.exists_ := false;
         SeedExistsResponseItem.variation_count := 0 |}
  end.

(** The columns [seeds_exists] selects, the Seed rows it selects for the
    normalized texts asked for, and its dict [found]. *)
Definition seed_columns (s : Seed.t) : nat * str * str :=
  (Seed.id s, Seed.seed_text s, Seed.normalized_seed s).
Definition selected_seeds (t : Tables) (wanted : list str) : list Seed.t :=
  filter (fun s => existsb (str_eqb (Seed.normalized_seed s)) wanted) (seeds t).
Definition found_seeds (t : Tables) (wanted : list str) : list (str * (nat * str * str)) :=
  fold_left (fun d (row : nat * str * str) => dict_set d (snd row) row)
            (map seed_columns (selected_seeds t wanted)) [].

(** ** Dry run against real run *)




(** A dict whose values are the normalized forms of its keys. *)
Definition normalized_dict (d : list (list N * list N)) : Prop :=
  Forall (fun kv => snd kv = normalize_variation (fst kv) false) d.

(** ** Dry runs *)

(** The records of a sequence that pass validation. *)
Definition accepted (recs : list dict) : nat :=
  List.length (filter (fun rec => fst (validate_record rec)) recs).

(** The records a dry run accepts from one file, given the SourceFile
    rows the resume check reads: those of a regular file that is not
    skipped and loads. *)
Definition dry_accepts `{Platform} (parser : adapter) (batch : Batch.t) (resume : bool)
  (rows : list SourceFile.t) (path : Path) : nat :=
  if is_file path
     && (negb resume
         || match filter (source_file_has (Batch.id batch) (compute_checksum path)) rows with
            | [] => true
            | _ => false
            end)
  then match load_json path with
       | Some data => accepted (parser data)
       | None => 0
       end
  else 0.

(** The Batch row a run under this name works with: the stored one, or
    the one it adds. *)
Definition batch_of (db : Database) (batch_name : str) : Batch.t :=
  match filter (batch_has batch_name) (batches (stored db)) with
  | b :: _ => b
  | [] => {| Batch.id := next_batch (sequences db); Batch.batch_name := batch_name |}
  end.

(** Nothing committed, and no SourceFile or Observation row flushed. *)
Definition dry_state (t : Tables) (s : Session) : Prop :=
  committed s = t
  /\ source_files (txn s) = source_files t
  /\ observations (txn s) = observations t.

(** ** Records and documents *)

(** A value that is non-empty text. *)
Definition nonempty_text (v : pyval) : Prop :=
  exists s, v = PStr s /\ s <> [].



(* ================================================================== *)
(** * Concrete inputs *)
(* ================================================================== *)

(** Files and a platform for the concrete runs below.  The two digests
    are stand-ins that return the bytes themselves, read as code points
    (so equal digests mean equal contents); [json_load] is [json.load]
    on the documents listed and on one malformed file. *)
Module Demo.

(** JSON text, written with apostrophes for the double quotes. *)
Definition json_text (s : string) : list byte :=
  map (fun b => if Byte.eqb b x27 then x22 else b) (list_byte_of_string s).

Fixpoint bytes_eqb (a b : list byte) : bool :=
  match a, b with
  | [], [] => true
  | x :: a', y :: b' => Byte.eqb x y && bytes_eqb a' b'
  | _, _ => false
  end.

(** The example of the adapter's docstring, reduced to one response. *)
Definition ahmed_text : list byte :=
  json_text "{'responses': {'149': {'hotkey': '0xabc123', 'variations': {'ahmed': ['ahmad', 'amed']}}}}".
Definition ahmed_json : pyval :=
  PDict [ (lit "responses",
           PDict [ (lit "149",
                    PDict [ (lit "hotkey", PStr (lit "0xabc123"));
                            (lit "variations",
                             PDict [ (lit "ahmed",
                                      PList [PStr (lit "ahmad"); PStr (lit "amed")]) ]) ]) ]) ].

(** One record reported twice, with different capitals. *)
Definition twice_text : list byte :=
  json_text "{'responses': {'7': {'variations': {'Ahmed': ['Ahmad', 'ahmad']}}}}".
Definition twice_json : pyval :=
  PDict [ (lit "responses",
           PDict [ (lit "7",
                    PDict [ (lit "variations",
                             PDict [ (lit "Ahmed",
                                      PList [PStr (lit "Ahmad"); PStr (lit "ahmad")]) ]) ]) ]) ].

(** A seed that is a lone surrogate, after one good record. *)
Definition surrogate_text : list byte :=
  json_text "{'responses': {'1': {'variations': {'ahmed': ['ahmad'], '\ud800': ['x']}}}}".
Definition surrogate_json : pyval :=
  PDict [ (lit "responses",
           PDict [ (lit "1",
                    PDict [ (lit "variations",
                             PDict [ (lit "ahmed", PList [PStr (lit "ahmad")]);
                                     ([0xD800%N], PList [PStr (lit "x")]) ]) ]) ]) ].

(** Valid JSON of a shape the adapter does not know. *)
Definition array_text : list byte := json_text "[1, 2]".
Definition array_json : pyval := PList [PInt 1; PInt 2].

(** Not JSON. *)
Definition malformed_text : list byte := json_text "{'responses': ".

Definition documents : list (list byte * pyval) :=
  [ (ahmed_text, ahmed_json); (twice_text, twice_json);
    (surrogate_text, surrogate_json); (array_text, array_json) ].

Fixpoint find_document (docs : list (list byte * pyval)) (text : list byte) : option pyval :=
  match docs with
  | [] => None
  | (t, v) :: rest => if bytes_eqb t text then Some v else find_document rest text
  end.

Definition digest (bytes : list byte) : str := map Byte.to_N bytes.

#[export] Instance platform : Platform := {
  sha256_hexdigest := digest;
  md5_hexdigest := digest;
  json_load := find_document documents;
  json_dumps := fun _ => lit "null";
  repr := fun _ => lit "object"
}.

Definition file (name : string) (bytes : list byte) : Path :=
  {| path_str := lit name; is_file := true; contents := bytes |}.

Definition generic : str := lit "generic_responses_v1".

Definition a_json : Path := file "a.json" ahmed_text.
Definition a_copy : Path := file "copy_of_a.json" ahmed_text.
Definition b_json : Path := file "b.json" twice_text.
Definition s_json : Path := file "s.json" surrogate_text.
Definition e_json : Path := file "e.json" array_text.

(** A run that has just opened its session on the empty database, and
    the Batch row its first batch gets. *)
Definition fresh : Run :=
  {| session := open_session empty_database; metrics := Metrics_init |}.
Definition b1 : Batch.t := {| Batch.id := 1; Batch.batch_name := lit "b1" |}.

(** The database after [a.json] was ingested under "b1". *)
Definition after_a : Database :=
  snd (ingest_batch empty_database (lit "b1") [a_json] generic false true 1).

(** The database after [a.json] and [b.json] were ingested under "b1". *)
Definition after_first_run : Database :=
  snd (ingest_batch empty_database (lit "b1") [a_json; b_json] generic false true 1).

(** The run at the end of a dry run over [a.json], before its session
    is closed. *)
Definition dry_end : Run :=
  final_state (ingest_batch_body (lit "b1") [a_json] generic true true 1 fresh).


(** A request about the seed of [a.json], in other capitals. *)
Definition diff_request : SeedDiffRequest :=
  {| seed := lit " AHMED";
     request_variations := [lit "Ahmad"; lit "zed"; lit "Ahmad"] |}.

End Demo.

(* ================================================================== *)
(** * Properties *)
(* ================================================================== *)

(** ** Text and [re.sub] *)

Lemma str_eqb_refl (a : str) : str_eqb a a = true.
Proof. induction a as [|x a IH]; simpl; [reflexivity|]. now rewrite N.eqb_refl, IH. Qed.

Lemma str_eqb_eq (a b : str) : str_eqb a b = true <-> a = b.
Proof.
  split.
  - revert b. induction a as [|x a IH]; destruct b as [|y b]; simpl; try discriminate; auto.
    intros E. apply andb_true_iff in E as [E1 E2].
    apply N.eqb_eq in E1. apply IH in E2. congruence.
  - intros ->. apply str_eqb_refl.
Qed.

Lemma str_eqb_neq (a b : str) : str_eqb a b = false <-> a <> b.
Proof.
  split.
  - intros E ->. rewrite str_eqb_refl in E. discriminate.
  - intros N. destruct (str_eqb a b) eqn:E; [|reflexivity].
    apply str_eqb_eq in E. contradiction.
Qed.

Lemma str_eqb_sym (a b : str) : str_eqb a b = str_eqb b a.
Proof.
  destruct (str_eqb a b) eqn:E.
  - apply str_eqb_eq in E. subst. now rewrite str_eqb_refl.
  - symmetry. apply str_eqb_neq. apply str_eqb_neq in E. congruence.
Qed.

Lemma skipn_take_while {A} (p : A -> bool) (l : list A) :
  skipn (List.length (take_while p l)) l = drop_while p l.
Proof. induction l as [|x l IH]; simpl; [reflexivity|]. destruct (p x); simpl; auto. Qed.

Lemma take_drop_while {A} (p : A -> bool) (l : list A) :
  take_while p l ++ drop_while p l = l.
Proof. induction l as [|x l IH]; simpl; [reflexivity|]. destruct (p x); simpl; congruence. Qed.

Lemma drop_while_length {A} (p : A -> bool) (l : list A) :
  (List.length (drop_while p l) <= List.length l)%nat.
Proof. induction l as [|x l IH]; simpl; [lia|]. destruct (p x); simpl; lia. Qed.

Section ReSubFacts.
Variable match_here : str -> option nat.
Variable repl : str -> str.

Lemma re_sub_from_skip (k : nat) (text : str) :
  re_sub_from match_here repl k text = re_sub match_here repl (skipn k text).
Proof.
  revert k. induction text as [|c rest IH]; intros [|k]; simpl; try reflexivity.
  apply IH.
Qed.

Lemma re_sub_cons (c : codepoint) (rest : str) :
  re_sub match_here repl (c :: rest) =
  match match_here (c :: rest) with
  | Some n => repl (firstn n (c :: rest)) ++ re_sub match_here repl (skipn (pred n) rest)
  | None => c :: re_sub match_here repl rest
  end.
Proof.
  unfold re_sub at 1. simpl. destruct (match_here (c :: rest)); [|reflexivity].
  now rewrite re_sub_from_skip.
Qed.
End ReSubFacts.

Lemma sub_whitespace_cons (c : codepoint) (rest : str) :
  sub_whitespace (c :: rest) =
  if Unicode.is_whitespace c
  then 0x20%N :: sub_whitespace (drop_while Unicode.is_whitespace rest)
  else c :: sub_whitespace rest.
Proof.
  unfold sub_whitespace. rewrite re_sub_cons. unfold _WHITESPACE_RE. simpl take_while.
  destruct (Unicode.is_whitespace c); simpl; [|reflexivity].
  now rewrite skipn_take_while.
Qed.

Lemma sub_repeats_cons (c : codepoint) (rest : str) :
  sub_repeats (c :: rest) =
  if (negb (N.eqb c 0x0A) && (2 <=? List.length (take_while (N.eqb c) rest))%nat)%bool
  then c :: sub_repeats (drop_while (N.eqb c) rest)
  else c :: sub_repeats rest.
Proof.
  unfold sub_repeats. rewrite re_sub_cons.
  change (_REPEATS_RE (c :: rest)) with
    (if N.eqb c 0x0A then None
     else if (2 <=? List.length (take_while (N.eqb c) rest))%nat
          then Some (S (List.length (take_while (N.eqb c) rest))) else None).
  destruct (N.eqb c 0x0A); cbn [negb andb]; [reflexivity|].
  destruct (2 <=? List.length (take_while (N.eqb c) rest))%nat; [|reflexivity].
  cbn [pred]. rewrite skipn_take_while. reflexivity.
Qed.

(** ** The specification's run-based steps against the substitutions *)

Section Runs.
Variable same : codepoint -> codepoint -> bool.
Hypothesis same_class : forall x y z, same x y = true -> same x z = same y z.

Lemma take_while_ext {A} (p q : A -> bool) (l : list A) :
  (forall x, p x = q x) -> take_while p l = take_while q l.
Proof. intros E. induction l as [|x l IH]; simpl; [reflexivity|]. rewrite E, IH. reflexivity. Qed.

Lemma drop_while_ext {A} (p q : A -> bool) (l : list A) :
  (forall x, p x = q x) -> drop_while p l = drop_while q l.
Proof. intros E. induction l as [|x l IH]; simpl; [reflexivity|]. rewrite E, IH. reflexivity. Qed.

Lemma runs_cons (x : codepoint) (rest : str) :
  Spec.runs same (x :: rest) =
  (x :: take_while (same x) rest) :: Spec.runs same (drop_while (same x) rest).
Proof.
  revert x. induction rest as [|y rest IH]; intros x; [reflexivity|].
  change (Spec.runs same (x :: y :: rest)) with
    (match Spec.runs same (y :: rest) with
     | (y' :: run) :: more =>
         if same x y' then (x :: y' :: run) :: more else [x] :: (y' :: run) :: more
     | _ => [[x]]
     end).
  rewrite (IH y). cbn [take_while drop_while].
  destruct (same x y) eqn:E.
  - rewrite (take_while_ext (same x) (same y)), (drop_while_ext (same x) (same y)) by (intro; now apply same_class).
    reflexivity.
  - rewrite (IH y). reflexivity.
Qed.
End Runs.

Lemma sub_whitespace_nonws_prefix (text : str) :
  sub_whitespace text =
  take_while (fun c => negb (Unicode.is_whitespace c)) text
  ++ sub_whitespace (drop_while (fun c => negb (Unicode.is_whitespace c)) text).
Proof.
  induction text as [|c rest IH]; [reflexivity|].
  cbn [take_while drop_while]. destruct (Unicode.is_whitespace c) eqn:E; cbn [negb].
  - reflexivity.
  - rewrite sub_whitespace_cons, E. cbn [app]. now rewrite <- IH.
Qed.

Lemma collapse_whitespace_sub (text : str) :
  Spec.collapse_whitespace text = sub_whitespace text.
Proof.
  remember (List.length text) as n eqn:Hn. revert text Hn.
  induction n as [n IH] using lt_wf_ind. intros [|x rest] Hn; [reflexivity|].
  unfold Spec.collapse_whitespace.
  rewrite runs_cons
    by (intros a b c E; apply eqb_prop in E; now rewrite E).
  cbn [flat_map].
  fold (Spec.collapse_whitespace
          (drop_while (fun b => Bool.eqb (Unicode.is_whitespace x) (Unicode.is_whitespace b)) rest)).
  simpl in Hn.
  rewrite (IH (List.length (drop_while (fun b => Bool.eqb (Unicode.is_whitespace x) (Unicode.is_whitespace b)) rest)))
    by (try reflexivity; subst n; apply Nat.lt_succ_r, drop_while_length).
  rewrite sub_whitespace_cons.
  destruct (Unicode.is_whitespace x) eqn:E.
  - rewrite (drop_while_ext _ Unicode.is_whitespace) by (intro b; now destruct (Unicode.is_whitespace b)).
    reflexivity.
  - rewrite (drop_while_ext _ (fun c => negb (Unicode.is_whitespace c))),
      (take_while_ext _ (fun c => negb (Unicode.is_whitespace c)))
      by (intro b; now destruct (Unicode.is_whitespace b)).
    cbn [app]. now rewrite <- sub_whitespace_nonws_prefix.
Qed.

Lemma take_while_nil_drop {A} (p : A -> bool) (l : list A) :
  take_while p l = [] -> drop_while p l = l.
Proof. destruct l as [|x l]; simpl; [reflexivity|]. destruct (p x); [discriminate|reflexivity]. Qed.

Lemma collapse_repeated_sub (text : str) :
  Forall (fun c => c <> 0x0A%N) text ->
  Spec.collapse_repeated text = sub_repeats text.
Proof.
  remember (List.length text) as n eqn:Hn. revert text Hn.
  induction n as [n IH] using lt_wf_ind. intros [|x rest] Hn Hnl; [reflexivity|].
  assert (Hsuffix : forall l : str, Forall (fun c => c <> 0x0A%N) l ->
                    Forall (fun c => c <> 0x0A%N) (drop_while (N.eqb x) l)).
  { induction l as [|y l IHl]; simpl; intros F; [constructor|].
    destruct (N.eqb x y); [apply IHl; now inversion F|exact F]. }
  inversion Hnl as [|? ? Hx Hrest]; subst.
  simpl in IH.
  unfold Spec.collapse_repeated.
  rewrite runs_cons
    by (intros a b c E; apply N.eqb_eq in E; now subst).
  cbn [flat_map].
  change (flat_map _ (Spec.runs N.eqb (drop_while (N.eqb x) rest)))
    with (Spec.collapse_repeated (drop_while (N.eqb x) rest)).
  rewrite (IH (List.length (drop_while (N.eqb x) rest)))
    by (try reflexivity; try (apply Hsuffix; assumption);
        apply Nat.lt_succ_r, drop_while_length).
  rewrite sub_repeats_cons.
  apply N.eqb_neq in Hx. rewrite Hx. cbn [negb andb List.length].
  change (3 <=? S (List.length (take_while (N.eqb x) rest)))%nat
    with (2 <=? List.length (take_while (N.eqb x) rest))%nat.
  destruct (2 <=? List.length (take_while (N.eqb x) rest))%nat eqn:E2; [reflexivity|].
  apply Nat.leb_gt in E2. rewrite <- app_comm_cons. f_equal.
  destruct rest as [|y rest']; [reflexivity|].
  cbn [take_while drop_while] in *. destruct (N.eqb x y) eqn:Exy; [|reflexivity].
  apply N.eqb_eq in Exy. subst y.
  destruct (take_while (N.eqb x) rest') eqn:Etw; [|simpl in E2; lia].
  rewrite sub_repeats_cons, Etw, Hx. cbn [negb andb List.length Nat.leb app].
  now rewrite (take_while_nil_drop _ _ Etw).
Qed.

Lemma ws_scan_in_run (text : str) :
  ws_scan true text = ws_scan false (drop_while Unicode.is_whitespace text).
Proof.
  induction text as [|c rest IH]; [reflexivity|].
  cbn [ws_scan drop_while]. destruct (Unicode.is_whitespace c) eqn:E; [exact IH|].
  cbn [ws_scan]. now rewrite E.
Qed.

Lemma sub_whitespace_scan (text : str) : sub_whitespace text = ws_scan false text.
Proof.
  remember (List.length text) as n eqn:Hn. revert text Hn.
  induction n as [n IH] using lt_wf_ind. intros [|c rest] Hn; [reflexivity|].
  rewrite sub_whitespace_cons. cbn [ws_scan].
  destruct (Unicode.is_whitespace c).
  - rewrite ws_scan_in_run. f_equal.
    apply (IH (List.length (drop_while Unicode.is_whitespace rest))); [|reflexivity].
    subst n. apply Nat.lt_succ_r, drop_while_length.
  - f_equal. apply (IH (List.length rest)); [subst n; simpl; lia|reflexivity].
Qed.

Lemma ws_scan_chars (in_run : bool) (text : str) :
  Forall (fun c => c = 0x20%N \/ (Unicode.is_whitespace c = false /\ In c text))
         (ws_scan in_run text).
Proof.
  revert in_run. induction text as [|c rest IH]; intros in_run; [constructor|].
  assert (W : forall b, Forall (fun c0 => c0 = 0x20%N \/ (Unicode.is_whitespace c0 = false /\ In c0 (c :: rest)))
                          (ws_scan b rest)).
  { intros b. eapply Forall_impl; [|apply IH]. simpl. intuition. }
  cbn [ws_scan]. destruct (Unicode.is_whitespace c) eqn:E.
  - destruct in_run; [apply W|]. constructor; [now left|apply W].
  - constructor; [right; simpl; auto|apply W].
Qed.

Lemma sub_whitespace_no_line_feed (text : str) :
  Forall (fun c => c <> 0x0A%N) (sub_whitespace text).
Proof.
  rewrite sub_whitespace_scan. eapply Forall_impl; [|apply ws_scan_chars].
  intros c [->|[W _]]; [discriminate|]. intros ->. discriminate.
Qed.

(** ** C3: the steps of [normalize_text] *)

(** C3 (as amended).  For every input string and either value of
    [collapse_repeats], [normalize_text] is the composition, in this
    order, of: trimming leading and trailing whitespace; lowercasing;
    decomposing to the compatibility decomposed form (NFKD) and dropping
    every code point of non-zero combining class; replacing every run of
    whitespace by one ASCII space; and, only when [collapse_repeats] is
    set, replacing every run of three or more identical code points by
    one occurrence.  [normalize_seed] and [normalize_variation] are
    [normalize_text]; the pipeline calls them with [collapse_repeats]
    off, the default. *)
Theorem normalize_text_steps :
  forall (text : str) (collapse_repeats : bool),
    normalize_text text collapse_repeats
    = Spec.normalize_with Unicode.nfkd text collapse_repeats
    /\ normalize_text text false
       = Spec.collapse_whitespace
           (Spec.strip_accents Unicode.nfkd (Spec.lowercase (Spec.trim text)))
    /\ normalize_text text true
       = Spec.collapse_repeated
           (Spec.collapse_whitespace
              (Spec.strip_accents Unicode.nfkd (Spec.lowercase (Spec.trim text))))
    /\ normalize_seed text collapse_repeats
       = Spec.normalize_with Unicode.nfkd text collapse_repeats
    /\ normalize_variation text collapse_repeats
       = Spec.normalize_with Unicode.nfkd text collapse_repeats.
Proof.
  intros text collapse_repeats.
  assert (E : forall cr, normalize_text text cr = Spec.normalize_with Unicode.nfkd text cr).
  { intros cr. unfold normalize_text, Spec.normalize_with.
    rewrite collapse_whitespace_sub.
    destruct cr; [|reflexivity].
    rewrite collapse_repeated_sub by apply sub_whitespace_no_line_feed.
    reflexivity. }
  repeat split; try apply E.
Qed.

(** Step 2 is [str.lower], not full case folding: SHARP S stays. *)
Example lowercase_is_not_case_folding :
  Spec.casefold [0xDF%N] = lit "ss"
  /\ Spec.lowercase [0xDF%N] = [0xDF%N]
  /\ normalize_text [0xDF%N] false = [0xDF%N].
Proof. repeat split. Qed.

(** C3, as stated, is refuted: with the canonical decomposed form (NFD)
    the specification's steps leave SUPERSCRIPT TWO (U+00B2) alone,
    while the program, which decomposes to NFKD, turns it into DIGIT
    TWO. *)
Lemma normalize_text_is_not_canonical_decomposition :
  Spec.normalize [0xB2%N] false = [0xB2%N]
  /\ normalize_text [0xB2%N] false = [0x32%N]
  /\ ~ (forall (text : str) (collapse_repeats : bool),
          normalize_text text collapse_repeats = Spec.normalize text collapse_repeats).
Proof.
  split; [reflexivity|]. split; [reflexivity|].
  intros H. specialize (H [0xB2%N] false). vm_compute in H. discriminate.
Qed.

Lemma str_eqb_spec' (a b : str) : {a = b} + {a <> b}.
Proof.
  destruct (str_eqb a b) eqn:E; [left; now apply str_eqb_eq|right; now apply str_eqb_neq].
Qed.

(** ** C6: where [normalize_text] is idempotent *)

Lemma strip_accents_lower (text : str) :
  _strip_accents (Unicode.lower text) = flat_map norm_cp text.
Proof.
  unfold _strip_accents, Unicode.nfkd, Unicode.lower.
  induction text as [|c rest IH]; [reflexivity|].
  cbn [map flat_map]. rewrite filter_app, IH. reflexivity.
Qed.

Lemma normalize_text_scan (text : str) :
  normalize_text text false = ws_scan false (flat_map norm_cp (Unicode.strip text)).
Proof.
  unfold normalize_text.
  change (re_sub _WHITESPACE_RE (fun _ => [0x20%N])) with sub_whitespace.
  now rewrite sub_whitespace_scan, strip_accents_lower.
Qed.

(** Every code point of Basic Latin and Latin-1 Supplement other than
    the four spacing accents is regular: by inspection of all 256. *)
Lemma regular_latin1 (c : codepoint) :
  (c < 0x100)%N -> spacing_accent c = false -> regular_cp c = true.
Proof.
  intros Hc Hs.
  assert (T : forallb (fun c => spacing_accent c || regular_cp c)
                      (map N.of_nat (seq 0 256)) = true) by (vm_compute; reflexivity).
  rewrite forallb_forall in T.
  specialize (T c). rewrite Hs in T. apply T.
  apply in_map_iff. exists (N.to_nat c). split; [apply N2Nat.id|].
  apply in_seq. lia.
Qed.

Lemma drop_while_snoc {A} (p : A -> bool) (l : list A) (c : A) :
  drop_while p (l ++ [c]) =
  match drop_while p l with
  | [] => if p c then [] else [c]
  | l' => l' ++ [c]
  end.
Proof.
  induction l as [|x l IH]; [reflexivity|].
  cbn [app drop_while]. destruct (p x); [exact IH|reflexivity].
Qed.

Lemma rstrip_cons (c : codepoint) (rest : str) :
  Unicode.rstrip (c :: rest) =
  match Unicode.rstrip rest with
  | [] => if Unicode.is_whitespace c then [] else [c]
  | l => c :: l
  end.
Proof.
  unfold Unicode.rstrip. cbn [rev]. rewrite drop_while_snoc.
  destruct (drop_while Unicode.is_whitespace (rev rest)) as [|h t] eqn:E.
  - cbn [rev]. now destruct (Unicode.is_whitespace c).
  - rewrite rev_app_distr. cbn [rev app].
    destruct (rev t ++ [h]) eqn:E'; [now destruct (rev t)|reflexivity].
Qed.

Lemma rstrip_ends_ok (text : str) : ends_ok (Unicode.rstrip text) = true.
Proof.
  induction text as [|c rest IH]; [reflexivity|].
  rewrite rstrip_cons. destruct (Unicode.rstrip rest) as [|h t] eqn:E.
  - destruct (Unicode.is_whitespace c) eqn:W; [reflexivity|]. simpl. now rewrite W.
  - exact IH.
Qed.

Lemma rstrip_incl (text : str) (c : codepoint) :
  In c (Unicode.rstrip text) -> In c text.
Proof.
  induction text as [|x rest IH]; [auto|].
  rewrite rstrip_cons. destruct (Unicode.rstrip rest) as [|h t] eqn:E.
  - destruct (Unicode.is_whitespace x); simpl; tauto.
  - simpl. intros [->|[->|I]]; auto; right; apply IH; simpl; auto.
Qed.

Lemma rstrip_head (text : str) :
  match Unicode.rstrip text, text with
  | h :: _, h' :: _ => h = h'
  | _, _ => True
  end.
Proof.
  destruct text as [|x rest]; [now destruct (Unicode.rstrip [])|].
  rewrite rstrip_cons. destruct (Unicode.rstrip rest); [|reflexivity].
  now destruct (Unicode.is_whitespace x).
Qed.

Lemma drop_while_incl {A} (p : A -> bool) (l : list A) (c : A) :
  In c (drop_while p l) -> In c l.
Proof.
  induction l as [|x l IH]; [auto|]. cbn [drop_while].
  destruct (p x); simpl; auto.
Qed.

Lemma drop_while_head {A} (p : A -> bool) (l : list A) :
  match drop_while p l with
  | h :: _ => p h = false
  | [] => True
  end.
Proof.
  induction l as [|x l IH]; [exact I|]. cbn [drop_while].
  destruct (p x) eqn:E; [exact IH|exact E].
Qed.

Lemma strip_shape (text : str) :
  ends_ok (Unicode.strip text) = true
  /\ (forall c, In c (Unicode.strip text) -> In c text)
  /\ match Unicode.strip text with
     | h :: _ => Unicode.is_whitespace h = false
     | [] => True
     end.
Proof.
  unfold Unicode.strip, Unicode.lstrip. split; [apply rstrip_ends_ok|]. split.
  - intros c I. now apply rstrip_incl, drop_while_incl in I.
  - pose proof (rstrip_head (drop_while Unicode.is_whitespace text)) as Hh.
    pose proof (drop_while_head Unicode.is_whitespace text) as Hd.
    destruct (drop_while Unicode.is_whitespace text) as [|d ds]; [exact I|].
    destruct (Unicode.rstrip (d :: ds)); [exact I|]. now subst.
Qed.

Lemma stable_facts (c : codepoint) :
  stable c = true ->
  Unicode.is_whitespace c = false /\ N.eqb c 0x20 = false
  /\ Unicode.lower_cp c = c /\ Unicode.decompose_compat c = [c]
  /\ Unicode.is_combining c = false.
Proof.
  unfold stable. intros S.
  repeat (apply andb_true_iff in S as [S ?]).
  apply negb_true_iff in S. repeat split; auto.
  - destruct (N.eqb_spec c 0x20); [subst; discriminate|reflexivity].
  - now apply N.eqb_eq.
  - now apply str_eqb_eq.
  - now apply negb_true_iff.
Qed.

Lemma ws_scan_stable_prefix (l rest : str) (b : bool) :
  forallb stable l = true ->
  ws_scan b (l ++ rest) = l ++ ws_scan (match l with [] => b | _ => false end) rest.
Proof.
  revert b. induction l as [|c l IH]; intros b F; [reflexivity|].
  cbn [forallb] in F. apply andb_true_iff in F as [Sc F].
  destruct (stable_facts c Sc) as (W & _).
  cbn [app ws_scan]. rewrite W, (IH false F). now destruct l.
Qed.

Lemma tight_stable_prefix (l rest : str) (a : bool) :
  forallb stable l = true ->
  tight a (l ++ rest) = tight (match l with [] => a | _ => false end) rest.
Proof.
  revert a. induction l as [|c l IH]; intros a F; [reflexivity|].
  cbn [forallb] in F. apply andb_true_iff in F as [Sc F].
  destruct (stable_facts c Sc) as (_ & E & _).
  cbn [app tight]. rewrite E, Sc, (IH false F). now destruct l.
Qed.

Lemma tight_scan_tail (a : bool) (c : codepoint) (rest : str) :
  (rest <> [] -> tight false (ws_scan false (flat_map norm_cp rest)) = true) ->
  regular_cp c = true -> Unicode.is_whitespace c = false ->
  forall b, tight a (ws_scan b (flat_map norm_cp (c :: rest))) = true.
Proof.
  intros IH R W b. unfold regular_cp in R. rewrite W in R.
  cbn [flat_map]. destruct (norm_cp c) as [|h t] eqn:E; [discriminate|].
  rewrite ws_scan_stable_prefix, tight_stable_prefix by exact R.
  destruct rest as [|c' rest']; [reflexivity|]. now apply IH.
Qed.

Lemma tight_scan (text : str) (b : bool) :
  Forall (fun c => regular_cp c = true) text -> ends_ok text = true -> text <> [] ->
  tight b (ws_scan b (flat_map norm_cp text)) = true.
Proof.
  revert b. induction text as [|c rest IH]; intros b F E N; [contradiction|].
  inversion F as [|? ? Rc Fr]; subst.
  assert (Er : rest <> [] -> ends_ok rest = true) by (destruct rest; [contradiction|auto]).
  destruct (Unicode.is_whitespace c) eqn:W.
  - assert (Nr : rest <> []) by (intros ->; simpl in E; rewrite W in E; discriminate).
    unfold regular_cp in Rc. rewrite W in Rc.
    cbn [flat_map]. destruct (norm_cp c) as [|w [|]] eqn:Ec; try discriminate.
    cbn [app ws_scan]. rewrite Rc.
    specialize (IH true Fr (Er Nr) Nr).
    destruct b; [exact IH|]. cbn [tight N.eqb Pos.eqb negb andb]. exact IH.
  - apply tight_scan_tail; auto.
Qed.

Lemma normalize_text_normal (text : str) :
  latin1_plain text = true -> normal (normalize_text text false) = true.
Proof.
  intros P. rewrite normalize_text_scan.
  destruct (strip_shape text) as (E & Inc & Hd).
  assert (F : Forall (fun c => regular_cp c = true) (Unicode.strip text)).
  { apply Forall_forall. intros c I. apply Inc in I.
    unfold latin1_plain in P. rewrite forallb_forall in P. specialize (P c I).
    apply andb_true_iff in P as [P1 P2].
    apply regular_latin1; [now apply N.ltb_lt|now apply negb_true_iff]. }
  destruct (Unicode.strip text) as [|c rest] eqn:Es; [reflexivity|].
  inversion F as [|? ? Rc Fr]; subst.
  assert (T : forall a, tight a (ws_scan false (flat_map norm_cp (c :: rest))) = true).
  { intros a. apply tight_scan_tail; auto.
    intros Nr. apply tight_scan; auto. destruct rest; [contradiction|exact E]. }
  unfold normal. destruct (ws_scan false (flat_map norm_cp (c :: rest))) eqn:Ey; [reflexivity|].
  apply T.
Qed.

Lemma tight_rstrip (text : str) (a : bool) :
  tight a text = true -> Unicode.rstrip text = text.
Proof.
  revert a. induction text as [|c rest IH]; intros a T; [reflexivity|].
  rewrite rstrip_cons. cbn [tight] in T. destruct (N.eqb_spec c 0x20) as [->|Nc].
  - apply andb_true_iff in T as [_ T]. rewrite (IH true T).
    destruct rest; [discriminate T|reflexivity].
  - apply andb_true_iff in T as [Sc T]. rewrite (IH false T).
    destruct (stable_facts c Sc) as (W & _). rewrite W. now destruct rest.
Qed.

Lemma tight_lower (text : str) (a : bool) :
  tight a text = true -> Unicode.lower text = text.
Proof.
  revert a. induction text as [|c rest IH]; intros a T; [reflexivity|].
  unfold Unicode.lower in *. cbn [tight map] in *.
  destruct (N.eqb_spec c 0x20) as [->|Nc].
  - apply andb_true_iff in T as [_ T]. now rewrite (IH true T).
  - apply andb_true_iff in T as [Sc T]. rewrite (IH false T).
    destruct (stable_facts c Sc) as (_ & _ & L & _). now rewrite L.
Qed.

Lemma tight_strip_accents (text : str) (a : bool) :
  tight a text = true -> _strip_accents text = text.
Proof.
  unfold _strip_accents, Unicode.nfkd.
  revert a. induction text as [|c rest IH]; intros a T; [reflexivity|].
  cbn [tight flat_map] in *. rewrite filter_app.
  destruct (N.eqb_spec c 0x20) as [->|Nc].
  - apply andb_true_iff in T as [_ T]. now rewrite (IH true T).
  - apply andb_true_iff in T as [Sc T]. rewrite (IH false T).
    destruct (stable_facts c Sc) as (_ & _ & _ & D & C). rewrite D.
    cbn [filter]. now rewrite C.
Qed.

Lemma tight_ws_scan (text : str) (a : bool) :
  tight a text = true -> ws_scan a text = text.
Proof.
  revert a. induction text as [|c rest IH]; intros a T; [reflexivity|].
  cbn [tight ws_scan] in *. destruct (N.eqb_spec c 0x20) as [->|Nc].
  - apply andb_true_iff in T as [A T]. apply negb_true_iff in A. subst a.
    change (Unicode.is_whitespace 32) with true. cbv iota. now rewrite (IH true T).
  - apply andb_true_iff in T as [Sc T].
    destruct (stable_facts c Sc) as (W & _). now rewrite W, (IH false T).
Qed.

Lemma normal_fixed (text : str) :
  normal text = true -> normalize_text text false = text.
Proof.
  destruct text as [|c rest]; [reflexivity|]. intros T. unfold normal in T.
  assert (Hs : Unicode.strip (c :: rest) = c :: rest).
  { unfold Unicode.strip, Unicode.lstrip.
    assert (W : Unicode.is_whitespace c = false).
    { cbn [tight] in T. destruct (N.eqb_spec c 0x20); [discriminate|].
      apply andb_true_iff in T as [Sc _]. now destruct (stable_facts c Sc). }
    cbn [drop_while]. rewrite W. now apply tight_rstrip with (a := true). }
  unfold normalize_text. rewrite Hs, (tight_lower _ _ T), (tight_strip_accents _ _ T).
  change (re_sub _WHITESPACE_RE (fun _ => [0x20%N])) with sub_whitespace.
  rewrite sub_whitespace_scan.
  cbn [tight] in T. cbn [ws_scan]. destruct (N.eqb_spec c 0x20) as [->|Nc]; [discriminate|].
  apply andb_true_iff in T as [Sc T]. destruct (stable_facts c Sc) as (W & _).
  now rewrite W, (tight_ws_scan _ _ T).
Qed.




(** ** The repository's own test, [tests/test_normalize.py] *)

Example test_normalization_simple :
  normalize_seed (lit "  Micha" ++ [0xEB%N] ++ lit "l  ") false = lit "michael"
  /\ normalize_variation (lit "AuTumn") false = lit "autumn"
  /\ normalize_seed (lit "John   Doe") false = lit "john doe".
Proof. vm_compute. repeat split. Qed.

(** Two more inputs: upper case, and runs of a repeated character. *)
Example normalize_text_samples :
  normalize_seed (lit "MICHAEL") false = lit "michael"
  /\ normalize_text (lit "aaasem  Heeeey") true = lit "asem hey".
Proof. vm_compute. repeat split. Qed.

(** ** Rules for computations *)

Section Rules.
Context {S : Type}.

Lemma hoare_ret {A} (P : S -> Prop) (a : A) (Q : A -> S -> Prop) (E : S -> Prop) :
  (forall s, P s -> Q a s) -> hoare P (ret a) Q E.
Proof. intros H s Ps. now apply H. Qed.

Lemma hoare_raise {A} (P : S -> Prop) (e : exn) (Q : A -> S -> Prop) (E : S -> Prop) :
  (forall s, P s -> E s) -> hoare P (raise e) Q E.
Proof. intros H s Ps. now apply H. Qed.

Lemma hoare_bind {A B} (P : S -> Prop) (m : M S A) (k : A -> M S B)
  (R : A -> S -> Prop) (Q : B -> S -> Prop) (E : S -> Prop) :
  hoare P m R E -> (forall a, hoare (R a) (k a) Q E) -> hoare P (bind m k) Q E.
Proof.
  intros Hm Hk s Ps. unfold bind. specialize (Hm s Ps).
  destruct (m s) as [a s'|e s']; [now apply Hk|exact Hm].
Qed.


Lemma inv_ret {A} (I : S -> Prop) (a : A) : inv I (ret a).
Proof. now apply hoare_ret. Qed.

Lemma inv_raise {A} (I : S -> Prop) (e : exn) : inv I (@raise S A e).
Proof. now apply hoare_raise. Qed.

Lemma inv_bind {A B} (I : S -> Prop) (m : M S A) (k : A -> M S B) :
  inv I m -> (forall a, inv I (k a)) -> inv I (bind m k).
Proof. intros Hm Hk. eapply hoare_bind; [exact Hm|exact Hk]. Qed.

Lemma inv_gets {A} (I : S -> Prop) (f : S -> A) : inv I (gets f).
Proof. intros s Is. exact Is. Qed.

Lemma inv_modify (I : S -> Prop) (f : S -> S) :
  (forall s, I s -> I (f s)) -> inv I (modify f).
Proof. intros H s Is. now apply H. Qed.

Lemma inv_scalar_one_or_none {A} (I : S -> Prop) (rows : list A) :
  inv I (scalar_one_or_none rows).
Proof. destruct rows as [|x [|y rows]]; intros s Is; exact Is. Qed.

Lemma inv_for_each {A} (I : S -> Prop) (l : list A) (body : A -> M S unit) :
  (forall x, In x l -> inv I (body x)) -> inv I (for_each l body).
Proof.
  induction l as [|x l IH]; intros H; [apply inv_ret|].
  cbn [for_each]. apply inv_bind; [apply H; now left|].
  intros _. apply IH. intros y Iy. apply H. now right.
Qed.

Lemma inv_md5_hex `{Platform} (I : S -> Prop) (text : str) : inv I (md5_hex text).
Proof. unfold md5_hex. destruct (Utf8.encode text); [apply inv_ret|apply inv_raise]. Qed.

Lemma inv_get_adapter `{Platform} (I : S -> Prop) (name : str) : inv I (get_adapter name).
Proof. unfold get_adapter. destruct (lookup _REGISTRY name); [apply inv_ret|apply inv_raise]. Qed.

End Rules.

Lemma inv_execute {A} (J : Session -> Prop) (q : Tables -> list A) : inv J (execute q).
Proof. apply inv_gets. Qed.

Lemma inv_on_session {A} (J : Session -> Prop) (m : M Session A) :
  inv J m -> inv (of_session J) (on_session m).
Proof.
  intros H r Jr. unfold on_session, of_session in *. specialize (H (session r) Jr).
  destruct (m (session r)); exact H.
Qed.

Lemma inv_bump (J : Session -> Prop) (c : counter) : inv (of_session J) (bump c).
Proof. intros r Jr. exact Jr. Qed.

Lemma inv_gets_metrics {A} (J : Session -> Prop) (f : Run -> A) : inv (of_session J) (gets f).
Proof. apply inv_gets. Qed.

(** Breaks a computation into its primitives; what is left are the
    state updates, to be checked against the invariant at hand. *)
Ltac inv_step :=
  match goal with
  | |- inv _ (bind _ _) => apply inv_bind; [|intro]
  | |- inv _ (ret _) => apply inv_ret
  | |- inv _ (raise _) => apply inv_raise
  | |- inv _ (gets _) => apply inv_gets
  | |- inv _ (execute _) => apply inv_execute
  | |- inv _ (scalar_one_or_none _) => apply inv_scalar_one_or_none
  | |- inv _ (md5_hex _) => apply inv_md5_hex
  | |- inv _ (get_adapter _) => apply inv_get_adapter
  | |- inv (of_session _) (on_session _) => apply inv_on_session
  | |- inv (of_session _) (bump _) => apply inv_bump
  | |- inv _ (match ?x with _ => _ end) => destruct x
  | |- inv _ (let (_, _) := ?x in _) => destruct x
  end.

Ltac inv_steps := repeat inv_step.

(** ** Lifting an invariant of the session through the ingestion code *)

Lemma inv_with_txn (J : Session -> Prop) (f : Tables -> Tables) (g : Sequences -> Sequences) :
  (forall s, J s -> J {| committed := committed s; txn := f (txn s); seqs := g (seqs s) |}) ->
  inv J (with_txn f g).
Proof. intros H. apply inv_modify. exact H. Qed.

Section RecordInvariant.
Context `{Platform}.
Variable J : Session -> Prop.
Variable dry_run : bool.
Hypothesis J_seed : forall raw norm h, inv (of_session J) (_get_or_create_seed raw norm h).
Hypothesis J_variation :
  forall seed raw norm h, inv (of_session J) (_get_or_create_variation seed raw norm h).
Hypothesis J_miner : forall ext_id, inv J (add_miner ext_id).
(** Outside dry run only: *)
Hypothesis J_observation :
  dry_run = true \/ forall a b c d e f g, inv J (add_observation a b c d e f g).

Lemma inv_get_or_create_miner (ext_id : pyval) : inv J (_get_or_create_miner ext_id).
Proof. unfold _get_or_create_miner. inv_steps; apply J_miner. Qed.

Lemma inv_ingest_record (batch : Batch.t) (src_file : option SourceFile.t) (rec : dict) :
  inv (of_session J) (ingest_record batch src_file dry_run rec).
Proof.
  unfold ingest_record. destruct J_observation as [->|J_obs]; cbn [negb]; inv_steps;
    first [apply J_seed | apply J_variation | apply inv_get_or_create_miner
          | apply J_obs].
Qed.

Lemma inv_ingest_records (batch : Batch.t) (src_file : option SourceFile.t)
  (recs : list dict) (n : nat) :
  inv (of_session J) (ingest_records batch src_file dry_run recs n).
Proof.
  revert n. induction recs as [|rec rest IH]; intros n; cbn [ingest_records].
  - apply inv_ret.
  - apply inv_bind; [apply inv_ingest_record|]. intros k. apply IH.
Qed.

Variable batch : Batch.t.
Hypothesis J_file :
  dry_run = true
  \/ ((forall b c, inv J (add_source_file (Batch.id batch) b c))
      /\ (forall a b, inv J (set_record_count a b))
      /\ inv J commit).

Lemma inv_check_resume (resume : bool) (checksum : str) :
  inv (of_session J) (check_resume batch resume checksum).
Proof. unfold check_resume. inv_steps. Qed.

Lemma inv_create_source_file (path : Path) (checksum : str) :
  inv (of_session J) (create_source_file batch dry_run path checksum).
Proof.
  unfold create_source_file. destruct J_file as [->|(J_sf & _)]; cbn [negb]; inv_steps.
  apply J_sf.
Qed.

Lemma inv_process_records (parser : adapter) (src_file : option SourceFile.t) (data : pyval) :
  inv (of_session J) (process_records parser batch dry_run src_file data).
Proof.
  unfold process_records. apply inv_bind; [apply inv_ingest_records|].
  intros n. destruct J_file as [E|(_ & J_rc & J_commit)].
  - rewrite E. cbn [negb]. inv_steps.
  - inv_steps; auto.
Qed.

Lemma inv_ingest_file (parser : adapter) (resume : bool) (path : Path) :
  inv (of_session J) (ingest_file parser batch dry_run resume path).
Proof.
  unfold ingest_file. inv_steps;
    first [apply inv_check_resume | apply inv_create_source_file
          | apply inv_process_records].
Qed.

Lemma inv_ingest_files (parser : adapter) (resume : bool) (files : list Path) :
  inv (of_session J) (for_each files (ingest_file parser batch dry_run resume)).
Proof. apply inv_for_each. intros f _. apply inv_ingest_file. Qed.

End RecordInvariant.

Section BatchInvariant.
Context `{Platform}.
Variable J : Session -> Prop.
Variable dry_run : bool.
Hypothesis J_seed : forall raw norm h, inv (of_session J) (_get_or_create_seed raw norm h).
Hypothesis J_variation :
  forall seed raw norm h, inv (of_session J) (_get_or_create_variation seed raw norm h).
Hypothesis J_miner : forall ext_id, inv J (add_miner ext_id).
Hypothesis J_observation :
  dry_run = true \/ forall a b c d e f g, inv J (add_observation a b c d e f g).
Hypothesis J_file :
  dry_run = true
  \/ ((forall a b c, inv J (add_source_file a b c))
      /\ (forall a b, inv J (set_record_count a b))
      /\ inv J commit).
Hypothesis J_batch : forall name, inv J (add_batch name).

Lemma inv_get_or_create_batch (name : str) : inv J (_get_or_create_batch name).
Proof. unfold _get_or_create_batch. inv_steps. apply J_batch. Qed.

Lemma inv_ingest_batch_body (batch_name : str) (files : list Path) (adapter_name : str)
  (resume : bool) (workers : nat) :
  inv (of_session J)
      (ingest_batch_body batch_name files adapter_name dry_run resume workers).
Proof.
  unfold ingest_batch_body. inv_steps.
  - apply inv_get_or_create_batch.
  - apply inv_ingest_files; auto.
    destruct J_file as [E|(S1 & S2 & S3)]; [now left|right; auto].
Qed.

End BatchInvariant.


(** An invariant that every flush keeps is kept by the two
    get-or-create helpers that count. *)
Section SimpleInvariant.
Variable J : Session -> Prop.
Hypothesis J_add_seed : forall a b c, inv J (add_seed a b c).
Hypothesis J_add_variation : forall a b c d, inv J (add_variation a b c d).

Lemma inv_get_or_create_seed (raw norm h : str) :
  inv (of_session J) (_get_or_create_seed raw norm h).
Proof. unfold _get_or_create_seed. inv_steps. apply J_add_seed. Qed.

Lemma inv_get_or_create_variation (seed : Seed.t) (raw norm h : str) :
  inv (of_session J) (_get_or_create_variation seed raw norm h).
Proof. unfold _get_or_create_variation. inv_steps. apply J_add_variation. Qed.
End SimpleInvariant.

(** ** What no flush changes: the committed tables *)

Ltac flush_keeps :=
  intros;
  unfold add_seed, add_variation, add_miner, add_batch, add_source_file,
    add_observation, set_record_count;
  inv_steps; apply inv_with_txn; intros s Hs; exact Hs.

Lemma committed_add_seed c0 a b c : inv (committed_is c0) (add_seed a b c).
Proof. flush_keeps. Qed.
Lemma committed_add_variation c0 a b c d : inv (committed_is c0) (add_variation a b c d).
Proof. flush_keeps. Qed.
Lemma committed_add_miner c0 a : inv (committed_is c0) (add_miner a).
Proof. flush_keeps. Qed.
Lemma committed_add_batch c0 a : inv (committed_is c0) (add_batch a).
Proof. flush_keeps. Qed.
Lemma committed_add_source_file c0 a b c : inv (committed_is c0) (add_source_file a b c).
Proof. flush_keeps. Qed.
Lemma committed_add_observation c0 a b c d e f g :
  inv (committed_is c0) (add_observation a b c d e f g).
Proof. flush_keeps. Qed.
Lemma committed_set_record_count c0 a b : inv (committed_is c0) (set_record_count a b).
Proof. flush_keeps. Qed.

Section Committed.
Context `{Platform}.
Variable c0 : Tables.

(** The record loop commits nothing, dry run or not. *)
Lemma committed_ingest_records batch src_file dry_run recs n :
  inv (of_session (committed_is c0)) (ingest_records batch src_file dry_run recs n).
Proof.
  apply inv_ingest_records.
  - intros. apply inv_get_or_create_seed. apply committed_add_seed.
  - intros. apply inv_get_or_create_variation. apply committed_add_variation.
  - apply committed_add_miner.
  - right. apply committed_add_observation.
Qed.
End Committed.

(** ** C1: one Seed per normalized text, one Variation per pair *)

Lemma NoDup_snoc {A} (l : list A) (x : A) : NoDup l -> ~ In x l -> NoDup (l ++ [x]).
Proof.
  intros Hl Hx. apply NoDup_app; [exact Hl|repeat constructor; auto|].
  intros y Iy [<-|[]]. contradiction.
Qed.


Lemma variation_filter_nil (sid : nat) (norm : str) (l : list Variation.t) :
  filter (variation_has sid norm) l = [] -> ~ In (sid, norm) (map variation_key l).
Proof.
  intros F I. apply in_map_iff in I as (v & E & Iv).
  assert (In v (filter (variation_has sid norm) l)).
  { apply filter_In; split; [exact Iv|]. unfold variation_key in E. inversion E; subst.
    unfold variation_has. now rewrite Nat.eqb_refl, str_eqb_refl. }
  rewrite F in *. contradiction.
Qed.



Ltac run_monad :=
  unfold bind, on_session, execute, gets, scalar_one_or_none, bump, modify,
    with_txn, ret, raise, of_session in *.





Section Reachable.
Context `{Platform}.


End Reachable.

(** ** Reading a computation that returned *)

Lemma bind_returned {S A B} (m : M S A) (k : A -> M S B) (s : S) (b : B) (s' : S) :
  bind m k s = Returned b s' ->
  exists a s1, m s = Returned a s1 /\ k a s1 = Returned b s'.
Proof.
  unfold bind. destruct (m s) as [a s1|e s1]; [|discriminate].
  intros E. now exists a, s1.
Qed.

Lemma on_session_returned {A} (m : M Session A) (r : Run) (a : A) (r' : Run) :
  on_session m r = Returned a r' ->
  exists s', m (session r) = Returned a s'
             /\ r' = {| session := s'; metrics := metrics r |}.
Proof.
  unfold on_session. destruct (m (session r)) as [x s'|e s']; [|discriminate].
  intros E. inversion E; subst. now exists s'.
Qed.

Lemma md5_hex_returned `{Platform} {S} (text : str) (s : S) (h : str) (s' : S) :
  md5_hex text s = Returned h s' -> s' = s.
Proof.
  unfold md5_hex. destruct (Utf8.encode text); [|discriminate].
  intros E. now inversion E.
Qed.

Lemma inv_returned {S A} (I : S -> Prop) (m : M S A) (s : S) (a : A) (s' : S) :
  inv I m -> I s -> m s = Returned a s' -> I s'.
Proof. intros H Is E. specialize (H s Is). now rewrite E in H. Qed.

Lemma filter_snoc {A} (p : A -> bool) (l : list A) (x : A) :
  filter p (l ++ [x]) = filter p l ++ (if p x then [x] else []).
Proof. rewrite filter_app. reflexivity. Qed.

(** ** The get-or-create helpers *)




(** ** An accepted record, outside dry run *)

Section Accepted.
Context `{Platform}.








End Accepted.

(** ** One file *)

Section OneFile.
Context `{Platform}.

Lemma check_resume_pass (batch : Batch.t) (resume : bool) (checksum : str) (r : Run) :
  resume = false \/ resume_rows batch checksum r = [] ->
  check_resume batch resume checksum r = Returned false r.
Proof.
  unfold check_resume, resume_rows, source_file_has. intros [->|E]; [reflexivity|].
  destruct resume; [|reflexivity]. run_monad. cbn. rewrite E. cbn. now destruct r.
Qed.

Lemma check_resume_skip (batch : Batch.t) (checksum : str) (r : Run) (row : SourceFile.t) :
  resume_rows batch checksum r = [row] ->
  check_resume batch true checksum r = Returned true (bumped c_files_skipped r).
Proof.
  unfold check_resume, resume_rows, source_file_has. intros E.
  run_monad. cbn. rewrite E. reflexivity.
Qed.

Lemma check_resume_returned (batch : Batch.t) (resume : bool) (checksum : str)
  (r : Run) (skip : bool) (r' : Run) :
  check_resume batch resume checksum r = Returned skip r' ->
  (skip = false /\ r' = r /\ (resume = false \/ resume_rows batch checksum r = []))
  \/ (skip = true /\ resume = true /\ r' = bumped c_files_skipped r
      /\ exists row, resume_rows batch checksum r = [row]).
Proof.
  destruct resume.
  - destruct (resume_rows batch checksum r) as [|row [|row' l]] eqn:E.
    + rewrite check_resume_pass by (now right). intros K. inversion K. left. auto.
    + rewrite (check_resume_skip _ _ _ E). intros K. inversion K. right.
      repeat split; auto. now exists row.
    + unfold check_resume, resume_rows, source_file_has in *. run_monad. cbn.
      rewrite E. discriminate.
  - cbn. intros K. inversion K. left. auto.
Qed.

Lemma create_source_file_returned (batch : Batch.t) (path : Path) (checksum : str) (r : Run) :
  create_source_file batch false path checksum r
  = Returned
      (Some (source_file_row (next_source_file (seqs (session r))) batch path checksum))
      {| session :=
           {| committed := committed (session r);
              txn :=
                {| seeds := seeds (txn (session r));
                   variations := variations (txn (session r));
                   miners := miners (txn (session r));
                   batches := batches (txn (session r));
                   source_files :=
                     source_files (txn (session r))
                     ++ [source_file_row (next_source_file (seqs (session r)))
                           batch path checksum];
                   observations := observations (txn (session r)) |};
              seqs :=
                {| next_seed := next_seed (seqs (session r));
                   next_variation := next_variation (seqs (session r));
                   next_miner := next_miner (seqs (session r));
                   next_batch := next_batch (seqs (session r));
                   next_source_file := S (next_source_file (seqs (session r)));
                   next_observation := next_observation (seqs (session r)) |} |};
         metrics := metrics r |}.
Proof. reflexivity. Qed.

(** The ways the body of the file loop returns. *)
Lemma ingest_file_returned (parser : adapter) (batch : Batch.t) (dry_run resume : bool)
  (path : Path) (r r' : Run) :
  ingest_file parser batch dry_run resume path r = Returned tt r' ->
  (is_file path = false /\ r' = r)
  \/ (is_file path = true /\ resume = true /\ r' = bumped c_files_skipped r
      /\ exists row, resume_rows batch (compute_checksum path) r = [row])
  \/ (is_file path = true
      /\ (resume = false \/ resume_rows batch (compute_checksum path) r = [])
      /\ ((load_json path = None /\ r' = bumped c_invalid_records r)
          \/ exists data src r1,
               load_json path = Some data
               /\ create_source_file batch dry_run path (compute_checksum path) r
                  = Returned src r1
               /\ process_records parser batch dry_run src data r1 = Returned tt r')).
Proof.
  unfold ingest_file. destruct (is_file path); cbn [negb].
  2:{ intros K. inversion K. now left. }
  intros E. right. apply bind_returned in E as (skip & r0 & Ec & E).
  apply check_resume_returned in Ec as [(-> & -> & P)|(-> & -> & -> & row & Er)].
  - right. split; [reflexivity|]. split; [exact P|].
    destruct (load_json path) as [data|].
    + right. apply bind_returned in E as (src & r1 & E1 & E2).
      now exists data, src, r1.
    + left. inversion E. auto.
  - left. inversion E. repeat split; auto. now exists row.
Qed.

(** The record loop leaves the [batches] and [source_files] tables alone. *)
Lemma ingest_records_keeps_files (batch : Batch.t) (src : option SourceFile.t)
  (dry_run : bool) (recs : list dict) (n : nat) (r : Run) (n' : nat) (r' : Run) :
  ingest_records batch src dry_run recs n r = Returned n' r' ->
  source_files (txn (session r')) = source_files (txn (session r))
  /\ batches (txn (session r')) = batches (txn (session r))
  /\ committed (session r') = committed (session r).
Proof.
  intros E.
  assert (I : inv (of_session (fun s => source_files (txn s) = source_files (txn (session r))
                                        /\ batches (txn s) = batches (txn (session r))
                                        /\ committed s = committed (session r)))
                  (ingest_records batch src dry_run recs n)).
  { apply inv_ingest_records.
    - intros. apply inv_get_or_create_seed. flush_keeps.
    - intros. apply inv_get_or_create_variation. flush_keeps.
    - flush_keeps.
    - right. flush_keeps. }
  specialize (I r (conj eq_refl (conj eq_refl eq_refl))). now rewrite E in I.
Qed.

Lemma process_records_returned (parser : adapter) (batch : Batch.t) (dry_run : bool)
  (src : option SourceFile.t) (data : pyval) (r r' : Run) :
  process_records parser batch dry_run src data r = Returned tt r' ->
  exists n r1,
    ingest_records batch src dry_run (parser data) 0 r = Returned n r1
    /\ metrics r' = incr c_files_processed (metrics r1)
    /\ seqs (session r') = seqs (session r1)
    /\ txn (session r')
       = (if dry_run then txn (session r1)
          else match src with
               | Some f =>
                   {| seeds := seeds (txn (session r1));
                      variations := variations (txn (session r1));
                      miners := miners (txn (session r1));
                      batches := batches (txn (session r1));
                      source_files :=
                        map (fun row => if Nat.eqb (SourceFile.id row) (SourceFile.id f)
                                        then with_record_count n row else row)
                            (source_files (txn (session r1)));
                      observations := observations (txn (session r1)) |}
               | None => txn (session r1)
               end)
    /\ committed (session r')
       = (if dry_run then committed (session r1) else txn (session r')).
Proof.
  unfold process_records. intros E.
  apply bind_returned in E as (n & r1 & E1 & E). exists n, r1. split; [exact E1|].
  destruct dry_run; cbn [negb] in E.
  - destruct src; cbn in E; inversion E; subst; cbn; auto.
  - destruct src; cbn in E; inversion E; subst; cbn; auto.
Qed.

End OneFile.

(** ** The resume check over a list of files *)

Lemma filter_map_same {A} (p : A -> bool) (f : A -> A) (l : list A) :
  (forall x, p (f x) = p x) -> filter p (map f l) = map f (filter p l).
Proof.
  intros E. induction l as [|x l IH]; [reflexivity|].
  cbn [map filter]. rewrite E. destruct (p x); cbn [map]; now rewrite IH.
Qed.

Lemma for_each_app {S A} (l1 l2 : list A) (body : A -> M S unit) (s : S) :
  for_each (l1 ++ l2) body s = bind (for_each l1 body) (fun _ => for_each l2 body) s.
Proof.
  revert s. induction l1 as [|x l1 IH]; intros s; [reflexivity|].
  cbn [app for_each]. unfold bind. destruct (body x s) as [[] s1|e s1]; [|reflexivity].
  specialize (IH s1). unfold bind in IH. exact IH.
Qed.

Section Resume.
Context `{Platform}.

Lemma compute_checksum_contents (path : Path) :
  compute_checksum path = sha256_hexdigest (contents path).
Proof.
  unfold compute_checksum. f_equal.
  assert (G : forall rounds unread fed,
             (List.length unread < rounds)%nat ->
             read_blocks rounds (N.to_nat 8192) unread fed = fed ++ unread).
  { induction rounds as [|k IH]; intros unread fed L; [lia|].
    cbn [read_blocks]. destruct unread as [|b rest].
    - rewrite firstn_nil. now rewrite app_nil_r.
    - destruct (firstn (N.to_nat 8192) (b :: rest)) as [|c chunk] eqn:F.
      + change (N.to_nat 8192) with (S (N.to_nat 8191)) in F. discriminate.
      + rewrite IH.
        * rewrite <- F, <- app_assoc, firstn_skipn. reflexivity.
        * pose proof (length_skipn (N.to_nat 8192) (b :: rest)) as K.
          change (N.to_nat 8192) with (S (N.to_nat 8191)) in K.
          change (N.to_nat 8192) with (S (N.to_nat 8191)).
          rewrite K. cbn [List.length] in *. lia. }
  apply (G _ (contents path) []). lia.
Qed.

Lemma ingest_file_skipped (parser : adapter) (batch : Batch.t) (dry_run : bool)
  (path : Path) (r : Run) (row : SourceFile.t) :
  is_file path = true ->
  resume_rows batch (compute_checksum path) r = [row] ->
  ingest_file parser batch dry_run true path r = Returned tt (bumped c_files_skipped r).
Proof.
  intros F E. unfold ingest_file. rewrite F. cbn [negb].
  unfold bind. now rewrite (check_resume_skip _ _ _ E).
Qed.

(** How many rows the resume check of checksum [cs] finds after a file. *)
Lemma ingest_file_rows (parser : adapter) (batch : Batch.t) (dry_run resume : bool)
  (path : Path) (r r' : Run) (cs : str) :
  ingest_file parser batch dry_run resume path r = Returned tt r' ->
  List.length (resume_rows batch cs r')
  = List.length (resume_rows batch cs r)
    + (if negb dry_run && is_file path
          && (negb resume
              || match resume_rows batch (compute_checksum path) r with
                 | [] => true | _ => false end)
          && match load_json path with Some _ => true | None => false end
          && str_eqb (compute_checksum path) cs
       then 1 else 0).
Proof.
  intros E. apply ingest_file_returned in E as [C|[C|C]].
  { destruct C as [F Er]. subst r'. rewrite F, andb_false_r. cbn. lia. }
  { destruct C as (F & Rs & Er & row & Ew). subst resume r'.
    rewrite Ew, F. cbn. rewrite andb_false_r. cbn. unfold resume_rows. cbn. lia. }
  destruct C as (F & P & [[L Er]|(data & src & r1 & L & Ec & Ep)]).
  - subst r'. rewrite L, andb_false_r. cbn. unfold resume_rows. cbn. lia.
  - rewrite F, L, andb_true_r.
    assert (Pb : negb resume
                 || match resume_rows batch (compute_checksum path) r with
                    | [] => true | _ => false end = true).
    { destruct P as [-> | ->]; [reflexivity|apply orb_true_r]. }
    rewrite Pb, !andb_true_r. clear Pb P.
    apply process_records_returned in Ep as (n & r2 & Er & _ & _ & Et & _).
    apply ingest_records_keeps_files in Er as (Sf & _ & _).
    unfold resume_rows. rewrite Et. destruct dry_run; cbn [negb andb].
    + inversion Ec; subst. rewrite Sf. lia.
    + rewrite create_source_file_returned in Ec. inversion Ec; subst; clear Ec.
      cbn [source_files txn session] in *. rewrite Sf.
      rewrite filter_map_same by (intros x; destruct (Nat.eqb _ _); reflexivity).
      rewrite length_map, filter_app, length_app. f_equal.
      cbn [filter]. unfold source_file_has, source_file_row.
      cbn [SourceFile.batch_id SourceFile.file_checksum].
      rewrite Nat.eqb_refl. cbn [andb]. now destruct (str_eqb _ cs).
Qed.

Lemma ingest_file_keeps_recorded (parser : adapter) (batch : Batch.t) (dry_run : bool)
  (path : Path) (r r' : Run) (cs : str) :
  ingest_file parser batch dry_run true path r = Returned tt r' ->
  List.length (resume_rows batch cs r) = 1 ->
  List.length (resume_rows batch cs r') = 1.
Proof.
  intros E L. rewrite (ingest_file_rows _ _ _ _ _ _ cs E), L. cbn [negb orb].
  destruct (str_eqb_spec' (compute_checksum path) cs) as [->|N].
  - destruct (resume_rows batch cs r); [discriminate|].
    destruct dry_run, (is_file path); reflexivity.
  - apply str_eqb_neq in N. rewrite N. now rewrite andb_false_r.
Qed.

Lemma ingest_file_records (parser : adapter) (batch : Batch.t) (path : Path) (r r' : Run) :
  is_file path = true -> load_json path <> None ->
  ingest_file parser batch false true path r = Returned tt r' ->
  List.length (resume_rows batch (compute_checksum path) r') = 1.
Proof.
  intros F L E. rewrite (ingest_file_rows _ _ _ _ _ _ (compute_checksum path) E).
  rewrite F, str_eqb_refl. cbn [negb andb orb].
  destruct (load_json path); [|contradiction].
  apply ingest_file_returned in E as [C|[C|C]].
  - destruct C as [F' _]. congruence.
  - destruct C as (_ & _ & _ & row & Er). now rewrite Er.
  - destruct C as (_ & [P|Er] & _); [discriminate|now rewrite Er].
Qed.

Lemma ingest_files_keep_recorded (parser : adapter) (batch : Batch.t) (dry_run : bool)
  (files : list Path) (r r' : Run) (cs : str) :
  for_each files (ingest_file parser batch dry_run true) r = Returned tt r' ->
  List.length (resume_rows batch cs r) = 1 ->
  List.length (resume_rows batch cs r') = 1.
Proof.
  revert r. induction files as [|f files IH]; intros r E L.
  - inversion E. now subst.
  - cbn [for_each] in E. apply bind_returned in E as ([] & r1 & E1 & E).
    apply (IH r1 E). eapply ingest_file_keeps_recorded; eassumption.
Qed.

(** ** C9: a later file with the same content *)

(** C9 (as amended).  In a run of [ingest_batch] with [resume] set that
    is not a dry run, when a regular file whose content loads as JSON
    has been gone through, every later regular file of the list with
    byte-identical content is skipped: it increments [files_skipped]
    and changes nothing else, neither in the session nor in the
    metrics, whatever the files in between. *)
Theorem duplicate_content_skipped :
  forall (parser : adapter) (batch : Batch.t) (pre mid : list Path) (f1 f2 : Path)
         (r0 r1 : Run),
    is_file f1 = true -> is_file f2 = true ->
    contents f2 = contents f1 ->
    load_json f1 <> None ->
    for_each (pre ++ f1 :: mid) (ingest_file parser batch false true) r0 = Returned tt r1 ->
    ingest_file parser batch false true f2 r1
    = Returned tt {| session := session r1;
                     metrics := incr c_files_skipped (metrics r1) |}.
Proof.
  intros parser batch pre mid f1 f2 r0 r1 F1 F2 C L E.
  rewrite for_each_app in E. apply bind_returned in E as ([] & ra & _ & E).
  cbn [for_each] in E. apply bind_returned in E as ([] & rb & E1 & E).
  assert (R : List.length (resume_rows batch (compute_checksum f1) rb) = 1)
    by (eapply ingest_file_records; eassumption).
  assert (R1 : List.length (resume_rows batch (compute_checksum f1) r1) = 1)
    by (eapply ingest_files_keep_recorded; eassumption).
  assert (Cs : compute_checksum f2 = compute_checksum f1)
    by (now rewrite !compute_checksum_contents, C).
  destruct (resume_rows batch (compute_checksum f1) r1) as [|row [|row' l]] eqn:Er;
    try discriminate.
  apply ingest_file_skipped with (row := row); [exact F2|now rewrite Cs].
Qed.

End Resume.

(** ** C5: when the SourceFile row reaches the database *)

Section SourceFileRow.
Context `{Platform}.



End SourceFileRow.

(** ** C10: a document of an unknown shape *)


Section Unrecognized.
Context `{Platform}.



End Unrecognized.

(** ** C2: running again over what has been ingested *)

Lemma get_or_create_batch_returned (name : str) (s : Session) (b : Batch.t) (s' : Session) :
  _get_or_create_batch name s = Returned b s' ->
  filter (batch_has name) (batches (txn s')) = [b]
  /\ source_files (txn s') = source_files (txn s)
  /\ committed s' = committed s
  /\ ((filter (batch_has name) (batches (txn s)) = [b] /\ s' = s)
      \/ (filter (batch_has name) (batches (txn s)) = []
          /\ Batch.id b = next_batch (seqs s)
          /\ batches (txn s') = batches (txn s) ++ [b]
          /\ b = {| Batch.id := next_batch (seqs s); Batch.batch_name := name |})).
Proof.
  unfold _get_or_create_batch, add_batch, batch_has. run_monad. cbn.
  destruct (filter (fun b0 : Batch.t => str_eqb (Batch.batch_name b0) name)
                   (batches (txn s))) as [|x [|y l]] eqn:F; cbn; try discriminate.
  - rewrite F. cbn. intros E. inversion E; subst; clear E. cbn.
    rewrite filter_snoc, F. cbn. rewrite str_eqb_refl. repeat split; auto.
  - intros E. inversion E; subst; clear E. repeat split; auto.
Qed.



Section Rerun.
Context `{Platform}.




Lemma ingest_file_synced (parser : adapter) (batch : Batch.t) (resume : bool)
  (path : Path) (r r' : Run) :
  ingest_file parser batch false resume path r = Returned tt r' ->
  committed (session r') = txn (session r')
  \/ session r' = session r.
Proof.
  intros E. apply ingest_file_returned in E as [C|[C|C]].
  - destruct C as [_ Er]. subst. now right.
  - destruct C as (_ & _ & Er & _). subst. now right.
  - destruct C as (_ & _ & [[_ Er]|(data & src & r1 & _ & _ & Ep)]).
    + subst. now right.
    + left. now apply process_records_returned in Ep as (n & r2 & _ & _ & _ & _ & Ec).
Qed.



End Rerun.

Section Resumability.
Context `{Platform}.



End Resumability.

(** ** The batch sequence stays ahead of the batch keys *)


Section KeysBelow.
Variable b : Batch.t.






End KeysBelow.



Section Consistent.
Context `{Platform}.




End Consistent.

(** ** C2: the second run *)

Section SecondRun.
Context `{Platform}.


End SecondRun.

(** ** C8: validation *)

Lemma truthy_str_nonempty (v : pyval) :
  truthy v && is_str v = true <-> nonempty_text v.
Proof.
  split.
  - destruct v as [| | | |s| |]; cbn; rewrite ?andb_false_r; try discriminate.
    destruct s as [|c s]; [discriminate|].
    intros _. exists (c :: s). split; [reflexivity|discriminate].
  - intros (s & -> & N). destruct s; [contradiction|reflexivity].
Qed.

Section Validation.
Context `{Platform}.

(** C8.  [validate_record] returns [(False, reason)] with a reason
    string exactly when the [seed] field or the [variation] field is
    absent or is not non-empty text, and [(True, None)] otherwise; the
    result depends on no other field of the record.  In the record loop
    a rejected record increments [invalid_records], changes nothing
    else, and the loop goes on with the next record. *)
Theorem validate_record_rejects :
  forall record : dict,
    (fst (validate_record record) = false
     <-> ~ (nonempty_text (get record (lit "seed"))
            /\ nonempty_text (get record (lit "variation"))))
    /\ (fst (validate_record record) = false ->
        exists reason, snd (validate_record record) = Some reason)
    /\ (fst (validate_record record) = true -> snd (validate_record record) = None)
    /\ (forall record' : dict,
          get record' (lit "seed") = get record (lit "seed") ->
          get record' (lit "variation") = get record (lit "variation") ->
          validate_record record' = validate_record record)
    /\ (forall (batch : Batch.t) (src_file : option SourceFile.t) (dry_run : bool)
               (rest : list dict) (record_count : nat) (r : Run),
          fst (validate_record record) = false ->
          ingest_record batch src_file dry_run record r
          = Returned 0 {| session := session r;
                          metrics := incr c_invalid_records (metrics r) |}
          /\ ingest_records batch src_file dry_run (record :: rest) record_count r
             = ingest_records batch src_file dry_run rest record_count
                 {| session := session r;
                    metrics := incr c_invalid_records (metrics r) |}).
Proof.
  intros record.
  pose proof (truthy_str_nonempty (get record (lit "seed"))) as Ts.
  pose proof (truthy_str_nonempty (get record (lit "variation"))) as Tv.
  assert (V : validate_record record
              = if truthy (get record (lit "seed")) && is_str (get record (lit "seed"))
                then if truthy (get record (lit "variation"))
                        && is_str (get record (lit "variation"))
                     then (true, None)
                     else (false, Some (lit "missing or invalid variation"))
                else (false, Some (lit "missing or invalid seed"))).
  { unfold validate_record.
    destruct (truthy (get record (lit "seed"))), (is_str (get record (lit "seed")));
      cbn [negb orb andb]; try reflexivity.
    destruct (truthy (get record (lit "variation"))),
             (is_str (get record (lit "variation"))); reflexivity. }
  split; [|split; [|split; [|split]]].
  - rewrite V.
    destruct (truthy (get record (lit "seed")) && is_str (get record (lit "seed"))) eqn:Es;
      [destruct (truthy (get record (lit "variation"))
                 && is_str (get record (lit "variation"))) eqn:Ev|]; cbn [fst].
    + split; [discriminate|]. intros N. exfalso. apply N.
      split; [now apply Ts|now apply Tv].
    + split; [|reflexivity]. intros _ [_ K]. apply Tv in K. discriminate.
    + split; [|reflexivity]. intros _ [K _]. apply Ts in K. discriminate.
  - rewrite V.
    destruct (truthy (get record (lit "seed")) && is_str (get record (lit "seed")));
      [destruct (truthy (get record (lit "variation"))
                 && is_str (get record (lit "variation")))|]; cbn; try discriminate;
      intros _; eexists; reflexivity.
  - rewrite V.
    destruct (truthy (get record (lit "seed")) && is_str (get record (lit "seed")));
      [destruct (truthy (get record (lit "variation"))
                 && is_str (get record (lit "variation")))|]; cbn; try discriminate;
      reflexivity.
  - intros record' Es Ev. unfold validate_record. now rewrite Es, Ev.
  - intros batch src_file dry_run rest record_count r Hv.
    assert (E : ingest_record batch src_file dry_run record r
                = Returned 0 {| session := session r;
                                metrics := incr c_invalid_records (metrics r) |}).
    { unfold ingest_record. destruct (validate_record record) as [valid reason].
      cbn in Hv. subst valid. reflexivity. }
    split; [exact E|]. cbn [ingest_records]. unfold bind. rewrite E.
    now rewrite Nat.add_0_r.
Qed.

End Validation.

(** ** C7: the diff query *)

Lemma existsb_str_eqb_In (x : str) (l : list (list N)) :
  existsb (str_eqb x) l = true <-> In x l.
Proof.
  rewrite existsb_exists. split.
  - intros (y & Iy & E). apply str_eqb_eq in E. now subst.
  - intros I. exists x. split; [exact I|apply str_eqb_refl].
Qed.

Lemma dict_set_normalized (d : list (str * str)) (k : str) :
  normalized_dict d ->
  dict_set d k (normalize_variation k false)
  = if existsb (str_eqb k) (map fst d) then d else d ++ [(k, normalize_variation k false)].
Proof.
  induction 1 as [|[k' v'] d Hk _ IH]; [reflexivity|].
  cbn [dict_set map fst existsb]. cbn [fst snd] in Hk. rewrite (str_eqb_sym k k').
  destruct (str_eqb k' k) eqn:E; cbn [orb].
  - apply str_eqb_eq in E. subst. reflexivity.
  - rewrite IH. now destruct (existsb (str_eqb k) (map fst d)).
Qed.

Lemma first_occurrences_ext (seen seen' : list (list N)) (l : list (list N)) :
  (forall y, In y seen <-> In y seen') ->
  first_occurrences seen l = first_occurrences seen' l.
Proof.
  revert seen seen'. induction l as [|x l IH]; intros seen seen' E; [reflexivity|].
  cbn [first_occurrences].
  assert (Ex : existsb (str_eqb x) seen = existsb (str_eqb x) seen').
  { destruct (existsb (str_eqb x) seen) eqn:A, (existsb (str_eqb x) seen') eqn:B;
      try reflexivity.
    - apply existsb_str_eqb_In, E, existsb_str_eqb_In in A. congruence.
    - apply existsb_str_eqb_In, E, existsb_str_eqb_In in B. congruence. }
  rewrite Ex. destruct (existsb (str_eqb x) seen').
  - now apply IH.
  - f_equal. apply IH. intros y. cbn. rewrite E. tauto.
Qed.

Lemma norm_map_fold (l : list (list N)) (d : list (str * str)) :
  normalized_dict d ->
  fold_left (fun d var => dict_set d var (normalize_variation var false)) l d
  = d ++ map (fun c => (c, normalize_variation c false)) (first_occurrences (map fst d) l).
Proof.
  revert d. induction l as [|x l IH]; intros d W.
  - cbn. now rewrite app_nil_r.
  - cbn [fold_left first_occurrences]. rewrite dict_set_normalized by exact W.
    destruct (existsb (str_eqb x) (map fst d)) eqn:E.
    + now apply IH.
    + rewrite IH.
      * rewrite map_app, <- app_assoc. cbn [map fst app].
        f_equal. f_equal. f_equal.
        apply first_occurrences_ext.
        intros y. rewrite in_app_iff. cbn. tauto.
      * apply Forall_app. split; [exact W|]. now constructor.
Qed.

Lemma norm_map_of_first_occurrences (candidates : list (list N)) :
  norm_map_of candidates
  = map (fun c => (c, normalize_variation c false)) (first_occurrences [] candidates).
Proof. unfold norm_map_of. rewrite norm_map_fold; [reflexivity|constructor]. Qed.

Lemma first_occurrences_In (seen l : list (list N)) (c : str) :
  In c (first_occurrences seen l) <-> In c l /\ ~ In c seen.
Proof.
  revert seen. induction l as [|x l IH]; intros seen; cbn [first_occurrences].
  - cbn. tauto.
  - destruct (existsb (str_eqb x) seen) eqn:E.
    + apply existsb_str_eqb_In in E. rewrite IH. cbn. split.
      * tauto.
      * intros [[->|I] N]; [contradiction|tauto].
    + assert (Nx : ~ In x seen).
      { intros I. apply existsb_str_eqb_In in I. congruence. }
      cbn. rewrite IH. cbn. destruct (str_eqb_spec' x c) as [->|Nc]; [tauto|].
      split.
      * intros [K|[I N]]; [contradiction|]. tauto.
      * intros [[K|I] N]; [contradiction|]. right. split; [exact I|]. tauto.
Qed.

Lemma partition_fold (known : str -> bool) (items : list (str * str))
  (acc : list (list N) * list (list N)) :
  fold_left
    (fun (acc : list (list N) * list (list N)) (item : str * str) =>
       let (raw_var, norm_var) := item in
       if known norm_var then (fst acc ++ [raw_var], snd acc)
       else (fst acc, snd acc ++ [raw_var]))
    items acc
  = (fst acc ++ map fst (filter (fun kv => known (snd kv)) items),
     snd acc ++ map fst (filter (fun kv => negb (known (snd kv))) items)).
Proof.
  revert acc. induction items as [|[raw norm] items IH]; intros [ex nw].
  - cbn. now rewrite !app_nil_r.
  - cbn [fold_left]. rewrite IH. cbn [filter snd fst].
    destruct (known norm); cbn [negb map fst snd]; now rewrite <- app_assoc.
Qed.

Lemma filter_map_pairs (p : str -> bool) (cands : list (list N)) :
  map fst (filter (fun kv : str * str => p (snd kv))
                  (map (fun c => (c, normalize_variation c false)) cands))
  = filter (fun c => p (normalize_variation c false)) cands.
Proof.
  induction cands as [|c cands IH]; [reflexivity|].
  cbn [map filter snd]. destruct (p (normalize_variation c false)); cbn [map fst]; now rewrite IH.
Qed.

(** The second query of [seed_diff] keeps only the Variations whose
    normalized form is one of the candidates'; for a candidate that
    changes nothing. *)
Lemma existing_norms_known (t : Tables) (sid : nat) (cands : list (list N)) (c : str) :
  In c cands ->
  existsb (str_eqb (normalize_variation c false))
    (map Variation.normalized_variation
       (filter (fun v =>
                  Nat.eqb (Variation.seed_id v) sid
                  && existsb (str_eqb (Variation.normalized_variation v))
                             (values (map (fun c => (c, normalize_variation c false)) cands)))
               (variations t)))
  = known_variation t sid c.
Proof.
  intros Ic. unfold known_variation, variation_has.
  induction (variations t) as [|v l IH]; [reflexivity|].
  cbn [filter existsb].
  destruct (Nat.eqb (Variation.seed_id v) sid) eqn:Es; cbn [andb]; [|exact IH].
  destruct (str_eqb (Variation.normalized_variation v) (normalize_variation c false)) eqn:En.
  - apply str_eqb_eq in En.
    assert (Ev : existsb (str_eqb (Variation.normalized_variation v))
                   (values (map (fun c => (c, normalize_variation c false)) cands)) = true).
    { apply existsb_str_eqb_In. unfold values. rewrite map_map. cbn [snd].
      rewrite En. now apply (in_map (fun c => normalize_variation c false)). }
    rewrite Ev. cbn [map existsb]. rewrite En, str_eqb_refl. reflexivity.
  - destruct (existsb (str_eqb (Variation.normalized_variation v)) _); [|exact IH].
    cbn [map existsb]. rewrite str_eqb_sym, En. exact IH.
Qed.

Lemma seed_diff_reads_only (payload : SeedDiffRequest) (s : Session) :
  final_state (seed_diff payload s) = s.
Proof.
  unfold seed_diff. run_monad. cbv beta iota zeta.
  destruct (map Seed.id _) as [|x [|y l]]; cbv beta iota zeta; try reflexivity.
  destruct (fold_left _ _ _). reflexivity.
Qed.

(** C7.  For a Seed that is stored (the lookup of the normalized seed
    finds one row), [seed_diff] returns, without changing the session,
    the candidates in two lists: [existing] holds those whose normalized
    form is the normalized form of a Variation of that Seed, [new] the
    others, each candidate once, as the caller wrote it, in the order of
    its first occurrence; every candidate is in exactly one of the two.
    In particular two candidates that normalize to "ahmad" and "zed",
    against a Seed whose Variations normalize to "ahmad" and "amed", come
    back as [existing = [first]] and [new = [second]].  The query never
    writes, whatever the request and the session. *)
Theorem seed_diff_partition :
  forall (s : Session) (payload : SeedDiffRequest) (seed_id : nat),
    map Seed.id (filter (seed_has (normalize_seed (seed payload) false)) (seeds (txn s)))
    = [seed_id] ->
    seed_diff payload s
    = Returned
        {| existing := filter (known_variation (txn s) seed_id)
                              (first_occurrences [] (request_variations payload));
           new := filter (fun c => negb (known_variation (txn s) seed_id c))
                         (first_occurrences [] (request_variations payload)) |}
        s
    /\ (forall c,
          In c (request_variations payload)
          <-> In c (filter (known_variation (txn s) seed_id)
                           (first_occurrences [] (request_variations payload)))
              \/ In c (filter (fun c => negb (known_variation (txn s) seed_id c))
                              (first_occurrences [] (request_variations payload))))
    /\ (forall c,
          In c (filter (known_variation (txn s) seed_id)
                       (first_occurrences [] (request_variations payload))) ->
          In c (filter (fun c => negb (known_variation (txn s) seed_id c))
                       (first_occurrences [] (request_variations payload))) ->
          False)
    /\ (forall c1 c2 : str,
          request_variations payload = [c1; c2] ->
          normalize_variation c1 false = lit "ahmad" ->
          normalize_variation c2 false = lit "zed" ->
          (forall n, In n (map Variation.normalized_variation
                               (filter (fun v => Nat.eqb (Variation.seed_id v) seed_id)
                                       (variations (txn s))))
                     <-> n = lit "ahmad" \/ n = lit "amed") ->
          seed_diff payload s = Returned {| existing := [c1]; new := [c2] |} s)
    /\ (forall (payload' : SeedDiffRequest) (s' : Session),
          final_state (seed_diff payload' s') = s').
Proof.
  intros s payload seed_id Hs.
  assert (R : seed_diff payload s
              = Returned
                  {| existing := filter (known_variation (txn s) seed_id)
                                        (first_occurrences [] (request_variations payload));
                     new := filter (fun c => negb (known_variation (txn s) seed_id c))
                                   (first_occurrences [] (request_variations payload)) |}
                  s).
  { unfold seed_diff. run_monad. unfold seed_has in Hs. cbv beta iota zeta.
    rewrite Hs. cbv beta iota zeta.
    rewrite norm_map_of_first_occurrences, partition_fold. cbn [fst snd app].
    set (norms := map Variation.normalized_variation _).
    rewrite (filter_map_pairs (fun n => existsb (str_eqb n) norms)),
      (filter_map_pairs (fun n => negb (existsb (str_eqb n) norms))).
    subst norms. f_equal. f_equal.
    - apply filter_ext_in. intros c Ic. now apply existing_norms_known.
    - apply filter_ext_in. intros c Ic. f_equal. now apply existing_norms_known. }
  split; [exact R|]. split; [|split; [|split]].
  - intros c. rewrite !filter_In, !first_occurrences_In. cbn [In].
    destruct (known_variation (txn s) seed_id c); cbn; tauto.
  - intros c I1 I2. apply filter_In in I1 as [_ K1]. apply filter_In in I2 as [_ K2].
    rewrite K1 in K2. discriminate.
  - intros c1 c2 Ereq N1 N2 Hv. rewrite R, Ereq.
    assert (K : forall c, known_variation (txn s) seed_id c = true
                          <-> normalize_variation c false = lit "ahmad"
                              \/ normalize_variation c false = lit "amed").
    { intros c. rewrite <- Hv. unfold known_variation, variation_has.
      rewrite existsb_exists, in_map_iff. split.
      - intros (v & Iv & E). apply andb_true_iff in E as [E1 E2].
        apply str_eqb_eq in E2. exists v. split; [exact E2|].
        apply filter_In. now split.
      - intros (v & E & Iv). apply filter_In in Iv as [Iv E1]. exists v.
        split; [exact Iv|]. rewrite E1, E. cbn. apply str_eqb_refl. }
    assert (K1 : known_variation (txn s) seed_id c1 = true) by (apply K; now left).
    assert (K2 : known_variation (txn s) seed_id c2 = false).
    { destruct (known_variation (txn s) seed_id c2) eqn:E; [|reflexivity].
      apply K in E. rewrite N2 in E. destruct E as [E|E]; vm_compute in E; discriminate. }
    assert (D : str_eqb c2 c1 = false).
    { apply str_eqb_neq. intros ->. rewrite N1 in N2. vm_compute in N2. discriminate. }
    cbn [first_occurrences existsb]. rewrite D. cbn [orb filter].
    now rewrite K1, K2.
  - intros. apply seed_diff_reads_only.
Qed.

(** ** C4: dry runs *)

Lemma inv_on_session_metrics {A} (K : Metrics -> Prop) (m : M Session A) :
  inv (fun r => K (metrics r)) (on_session m).
Proof.
  intros r Kr. unfold on_session. destruct (m (session r)); exact Kr.
Qed.

Lemma inv_bump_metrics (K : Metrics -> Prop) (c : counter) :
  (forall m, K m -> K (incr c m)) -> inv (fun r => K (metrics r)) (bump c).
Proof. intros H r Kr. now apply H. Qed.

Lemma counted_get_or_create_seed (k : nat) (raw norm h : str) :
  inv (fun r => observations_inserted (metrics r) = k) (_get_or_create_seed raw norm h).
Proof.
  unfold _get_or_create_seed. apply inv_bind.
  - apply (inv_on_session_metrics (fun m => observations_inserted m = k)).
  - intros [sd|]; (apply inv_bind;
      [apply (inv_bump_metrics (fun m => observations_inserted m = k));
       intros m Hm; cbn; lia|intros _]).
    + apply inv_ret.
    + apply (inv_on_session_metrics (fun m => observations_inserted m = k)).
Qed.

Lemma counted_get_or_create_variation (k : nat) (seed : Seed.t) (raw norm h : str) :
  inv (fun r => observations_inserted (metrics r) = k)
      (_get_or_create_variation seed raw norm h).
Proof.
  unfold _get_or_create_variation. apply inv_bind.
  - apply (inv_on_session_metrics (fun m => observations_inserted m = k)).
  - intros [v|]; (apply inv_bind;
      [apply (inv_bump_metrics (fun m => observations_inserted m = k));
       intros m Hm; cbn; lia|intros _]).
    + apply inv_ret.
    + apply (inv_on_session_metrics (fun m => observations_inserted m = k)).
Qed.

Lemma counted_seed_returned (raw norm h : str) (r : Run) (sd : Seed.t) (r1 : Run) :
  _get_or_create_seed raw norm h r = Returned sd r1 ->
  observations_inserted (metrics r1) = observations_inserted (metrics r).
Proof.
  intros E.
  pose proof (@counted_get_or_create_seed (observations_inserted (metrics r))
                raw norm h r eq_refl) as K.
  now rewrite E in K.
Qed.

Lemma counted_variation_returned (seed : Seed.t) (raw norm h : str) (r : Run)
  (v : Variation.t) (r1 : Run) :
  _get_or_create_variation seed raw norm h r = Returned v r1 ->
  observations_inserted (metrics r1) = observations_inserted (metrics r).
Proof.
  intros E.
  pose proof (@counted_get_or_create_variation (observations_inserted (metrics r))
                seed raw norm h r eq_refl) as K.
  now rewrite E in K.
Qed.

Section DryRun.
Context `{Platform}.

Lemma ingest_record_counts (batch : Batch.t) (src : option SourceFile.t) (dry_run : bool)
  (rec : dict) (r : Run) (n : nat) (r' : Run) :
  ingest_record batch src dry_run rec r = Returned n r' ->
  n = (if fst (validate_record rec) then 1 else 0)
  /\ observations_inserted (metrics r') = observations_inserted (metrics r) + n.
Proof.
  unfold ingest_record. destruct (validate_record rec) as [valid reason].
  destruct valid; cbn [negb fst]; cbv zeta.
  2:{ intros E. inversion E; subst. cbn. split; [reflexivity|lia]. }
  intros E.
  apply bind_returned in E as (seed_hash & r1 & E1 & E).
  apply md5_hex_returned in E1. subst r1.
  apply bind_returned in E as (var_hash & r1 & E1 & E).
  apply md5_hex_returned in E1. subst r1.
  apply bind_returned in E as (sd & r1 & Es & E).
  apply bind_returned in E as (var & r2 & Ev & E).
  apply bind_returned in E as (miner & r3 & Em & E).
  apply bind_returned in E as ([] & r4 & Eo & E).
  apply bind_returned in E as ([] & r5 & Eb & E).
  inversion E; subst; clear E. inversion Eb; subst; clear Eb. cbn [metrics].
  apply counted_seed_returned in Es. apply counted_variation_returned in Ev.
  assert (Km : metrics r3 = metrics r2).
  { destruct (truthy (get rec (lit "miner_ext_id"))).
    - apply on_session_returned in Em as (s' & _ & ->). reflexivity.
    - now inversion Em. }
  assert (Ko : metrics r4 = metrics r3).
  { destruct dry_run; cbn [negb] in Eo.
    - now inversion Eo.
    - apply on_session_returned in Eo as (s' & _ & ->). reflexivity. }
  split; [reflexivity|]. rewrite Ko, Km. cbn. lia.
Qed.

Lemma ingest_records_counts (batch : Batch.t) (src : option SourceFile.t) (dry_run : bool)
  (recs : list dict) (n0 : nat) (r : Run) (n : nat) (r' : Run) :
  ingest_records batch src dry_run recs n0 r = Returned n r' ->
  n = n0 + accepted recs
  /\ observations_inserted (metrics r')
     = observations_inserted (metrics r) + accepted recs.
Proof.
  revert n0 r. induction recs as [|rec recs IH]; intros n0 r E.
  - inversion E; subst. unfold accepted. cbn. split; lia.
  - cbn [ingest_records] in E. apply bind_returned in E as (k & r1 & E1 & E).
    apply ingest_record_counts in E1 as [-> K1]. apply IH in E as [-> K].
    unfold accepted in *. cbn [filter].
    destruct (fst (validate_record rec)); cbn [List.length]; split; lia.
Qed.

Lemma dry_file_counts (parser : adapter) (batch : Batch.t) (resume : bool)
  (path : Path) (r r' : Run) :
  ingest_file parser batch true resume path r = Returned tt r' ->
  observations_inserted (metrics r')
  = observations_inserted (metrics r)
    + dry_accepts parser batch resume (source_files (txn (session r))) path
  /\ source_files (txn (session r')) = source_files (txn (session r)).
Proof.
  intros E. unfold dry_accepts. apply ingest_file_returned in E as [C|[C|C]].
  - destruct C as [F ->]. rewrite F. cbn. split; [lia|reflexivity].
  - destruct C as (F & -> & -> & row & Er). unfold resume_rows in Er. rewrite F, Er.
    cbn. split; [lia|reflexivity].
  - destruct C as (F & P & C). rewrite F. cbn [andb].
    assert (Pb : negb resume
                 || match filter (source_file_has (Batch.id batch) (compute_checksum path))
                                 (source_files (txn (session r))) with
                    | [] => true | _ => false end = true).
    { destruct P as [-> | P]; [reflexivity|]. unfold resume_rows in P. rewrite P.
      apply orb_true_r. }
    rewrite Pb. destruct C as [[L ->]|(data & src & r1 & L & Ec & Ep)]; rewrite L.
    + cbn. split; [lia|reflexivity].
    + inversion Ec; subst src r1; clear Ec.
      apply process_records_returned in Ep as (n & r2 & Er & Em & _ & Et & _).
      pose proof (ingest_records_keeps_files _ _ _ _ _ _ Er) as (Sf & _ & _).
      apply ingest_records_counts in Er as [_ K].
      rewrite Em, Et, Sf. cbn. split; [lia|reflexivity].
Qed.

Lemma dry_files_count (parser : adapter) (batch : Batch.t) (resume : bool)
  (files : list Path) (r r' : Run) :
  for_each files (ingest_file parser batch true resume) r = Returned tt r' ->
  observations_inserted (metrics r')
  = observations_inserted (metrics r)
    + list_sum (map (dry_accepts parser batch resume (source_files (txn (session r))))
                    files).
Proof.
  revert r. induction files as [|f files IH]; intros r E.
  - inversion E; subst. cbn. lia.
  - cbn [for_each] in E. apply bind_returned in E as ([] & r1 & E1 & E).
    apply dry_file_counts in E1 as [K1 S1]. apply IH in E. rewrite S1 in E.
    cbn [map]. change (list_sum (?x :: ?l)) with (x + list_sum l). lia.
Qed.

Ltac dry_keeps :=
  intros;
  unfold add_seed, add_variation, add_miner, add_batch;
  inv_steps; apply inv_with_txn; intros s Hs; exact Hs.

Lemma dry_run_state (t : Tables) batch_name files adapter_name resume workers :
  inv (of_session (dry_state t))
      (ingest_batch_body batch_name files adapter_name true resume workers).
Proof.
  apply inv_ingest_batch_body.
  - intros. apply inv_get_or_create_seed. dry_keeps.
  - intros. apply inv_get_or_create_variation. dry_keeps.
  - dry_keeps.
  - now left.
  - now left.
  - dry_keeps.
Qed.

(** C4 (as amended).  A run of [ingest_batch] with [dry_run] set, however
    it ends, leaves every stored table (Seed, Variation, Miner, Batch,
    SourceFile, Observation) as it was: it commits nothing, and not even
    the open transaction gets a SourceFile or Observation row.  (It does
    flush the Seed, Variation, Miner and Batch rows it would create into
    that transaction, where its later lookups find them; they are rolled
    back when the session closes.)  The Metrics it returns count in
    [observations_inserted] every record that passes validation in a
    regular file that loads and that the resume check, reading the
    stored SourceFile rows, does not skip. *)
Theorem dry_run_commits_nothing :
  forall (db : Database) (batch_name : str) (files : list Path) (adapter_name : str)
         (resume : bool) (workers : nat),
    stored (snd (ingest_batch db batch_name files adapter_name true resume workers))
    = stored db
    /\ (forall r : Run,
          r = final_state
                (ingest_batch_body batch_name files adapter_name true resume workers
                   {| session := open_session db; metrics := Metrics_init |}) ->
          committed (session r) = stored db
          /\ source_files (txn (session r)) = source_files (stored db)
          /\ observations (txn (session r)) = observations (stored db))
    /\ (forall m : Metrics,
          fst (ingest_batch db batch_name files adapter_name true resume workers) = inr m ->
          observations_inserted m
          = list_sum (map (dry_accepts parse (batch_of db batch_name) resume
                                       (source_files (stored db)))
                          files)).
Proof.
  intros db batch_name files adapter_name resume workers.
  pose proof (@dry_run_state (stored db) batch_name files adapter_name resume workers
                {| session := open_session db; metrics := Metrics_init |}
                (conj eq_refl (conj eq_refl eq_refl))) as D.
  unfold ingest_batch.
  destruct (ingest_batch_body batch_name files adapter_name true resume workers
              {| session := open_session db; metrics := Metrics_init |})
    as [m r|e r] eqn:E; cbn [snd fst close_session stored final_state].
  - split; [apply D|]. split; [intros ? ->; exact D|].
    intros m' Em. inversion Em; subst m'; clear Em.
    unfold ingest_batch_body in E.
    apply bind_returned in E as (parser & r0 & Ea & E).
    assert (parser = parse /\ r0 = {| session := open_session db; metrics := Metrics_init |})
      as [-> ->].
    { unfold get_adapter, _REGISTRY in Ea. cbn [lookup] in Ea.
      destruct (str_eqb _ adapter_name); inversion Ea. auto. }
    apply bind_returned in E as (b & rb & Eb & E).
    apply bind_returned in E as ([] & re & Ef & E). inversion E; subst m r; clear E.
    apply on_session_returned in Eb as (sb & Eb & ->).
    apply get_or_create_batch_returned in Eb as (_ & Sf & _ & New).
    apply dry_files_count in Ef. cbn [session metrics txn open_session] in *.
    rewrite Ef, Sf. cbn [Metrics_init observations_inserted]. cbn [Nat.add].
    f_equal. f_equal. f_equal. unfold batch_of.
    destruct New as [[Fo _]|(Fo & _ & _ & ->)]; rewrite Fo; reflexivity.
  - split; [apply D|]. split; [intros ? ->; exact D|]. discriminate.
Qed.

End DryRun.

(** ** More about the normaliser *)

Lemma drop_while_all {A} (p : A -> bool) (l : list A) :
  forallb p l = true -> drop_while p l = [].
Proof.
  induction l as [|x l IH]; [reflexivity|]. cbn [forallb drop_while].
  intros F. apply andb_true_iff in F as [-> F]. now apply IH.
Qed.

Lemma drop_while_app_all {A} (p : A -> bool) (a b : list A) :
  forallb p a = true -> drop_while p (a ++ b) = drop_while p b.
Proof.
  induction a as [|x a IH]; [reflexivity|]. cbn [forallb app drop_while].
  intros F. apply andb_true_iff in F as [-> F]. now apply IH.
Qed.

Lemma drop_while_app_some {A} (p : A -> bool) (a b : list A) :
  drop_while p a <> [] -> drop_while p (a ++ b) = drop_while p a ++ b.
Proof.
  induction a as [|x a IH]; [intros N; now contradiction N|].
  cbn [app drop_while]. destruct (p x); [exact IH|reflexivity].
Qed.

Lemma drop_while_nil_all {A} (p : A -> bool) (l : list A) :
  drop_while p l = [] -> forallb p l = true.
Proof.
  induction l as [|x l IH]; [reflexivity|]. cbn [forallb drop_while].
  destruct (p x); [exact IH|discriminate].
Qed.

Lemma forallb_rev {A} (p : A -> bool) (l : list A) :
  forallb p l = true -> forallb p (rev l) = true.
Proof.
  intros F. apply forallb_forall. intros x Ix. apply in_rev in Ix.
  revert x Ix. now apply forallb_forall.
Qed.

Lemma rstrip_app_whitespace (text post : str) :
  forallb Unicode.is_whitespace post = true ->
  Unicode.rstrip (text ++ post) = Unicode.rstrip text.
Proof.
  intros F. unfold Unicode.rstrip. rewrite rev_app_distr.
  rewrite drop_while_app_all by now apply forallb_rev. reflexivity.
Qed.

Lemma strip_outer_whitespace (pre text post : str) :
  forallb Unicode.is_whitespace pre = true ->
  forallb Unicode.is_whitespace post = true ->
  Unicode.strip (pre ++ text ++ post) = Unicode.strip text.
Proof.
  intros Fpre Fpost. unfold Unicode.strip, Unicode.lstrip.
  rewrite drop_while_app_all by exact Fpre.
  destruct (drop_while Unicode.is_whitespace text) as [|h t] eqn:D.
  - rewrite drop_while_app_all by now apply drop_while_nil_all.
    rewrite drop_while_all by exact Fpost. reflexivity.
  - rewrite drop_while_app_some by (rewrite D; discriminate).
    rewrite D. now apply rstrip_app_whitespace.
Qed.

(** X1.  Whitespace around a text does not count: for every text, and
    every run of whitespace put before it and after it, [normalize_text]
    (and so [normalize_seed] and [normalize_variation]) returns what it
    returns for the text alone, with [collapse_repeats] on or off. *)
Theorem normalize_text_outer_whitespace :
  forall (pre text post : str) (collapse_repeats : bool),
    forallb Unicode.is_whitespace pre = true ->
    forallb Unicode.is_whitespace post = true ->
    normalize_text (pre ++ text ++ post) collapse_repeats
    = normalize_text text collapse_repeats
    /\ normalize_seed (pre ++ text ++ post) collapse_repeats
       = normalize_seed text collapse_repeats
    /\ normalize_variation (pre ++ text ++ post) collapse_repeats
       = normalize_variation text collapse_repeats.
Proof.
  intros pre text post cr Fpre Fpost.
  assert (E : normalize_text (pre ++ text ++ post) cr = normalize_text text cr).
  { unfold normalize_text. now rewrite strip_outer_whitespace. }
  unfold normalize_seed, normalize_variation. now rewrite E.
Qed.

(** ** Case *)

Lemma latin1_lower_facts (c : codepoint) :
  (c < 0x100)%N ->
  Unicode.is_whitespace (Unicode.lower_cp c) = Unicode.is_whitespace c
  /\ Unicode.lower_cp (Unicode.lower_cp c) = Unicode.lower_cp c.
Proof.
  intros Hc.
  assert (T : forallb (fun c => Bool.eqb (Unicode.is_whitespace (Unicode.lower_cp c))
                                         (Unicode.is_whitespace c)
                                && N.eqb (Unicode.lower_cp (Unicode.lower_cp c))
                                         (Unicode.lower_cp c))
                      (map N.of_nat (seq 0 256)) = true) by (vm_compute; reflexivity).
  rewrite forallb_forall in T.
  assert (I : In c (map N.of_nat (seq 0 256))).
  { apply in_map_iff. exists (N.to_nat c). split; [apply N2Nat.id|].
    apply in_seq. lia. }
  specialize (T c I). apply andb_true_iff in T as [T1 T2].
  split; [now apply Bool.eqb_prop|now apply N.eqb_eq].
Qed.

Lemma drop_while_map {A B} (f : A -> B) (p : B -> bool) (q : A -> bool) (l : list A) :
  (forall x, In x l -> p (f x) = q x) ->
  drop_while p (map f l) = map f (drop_while q l).
Proof.
  induction l as [|x l IH]; intros H; [reflexivity|].
  cbn [map drop_while]. rewrite (H x) by now left.
  destruct (q x); [|reflexivity]. apply IH. intros y Iy. apply H. now right.
Qed.

Lemma strip_lower (text : str) :
  latin1 text = true ->
  Unicode.strip (Unicode.lower text) = Unicode.lower (Unicode.strip text).
Proof.
  intros L. unfold latin1 in L. rewrite forallb_forall in L.
  assert (W : forall c, In c text ->
                Unicode.is_whitespace (Unicode.lower_cp c) = Unicode.is_whitespace c).
  { intros c Ic. apply latin1_lower_facts. apply N.ltb_lt. now apply L. }
  unfold Unicode.strip, Unicode.lstrip, Unicode.rstrip, Unicode.lower.
  rewrite (drop_while_map Unicode.lower_cp Unicode.is_whitespace Unicode.is_whitespace)
    by exact W.
  rewrite <- map_rev.
  rewrite (drop_while_map Unicode.lower_cp Unicode.is_whitespace Unicode.is_whitespace).
  - now rewrite map_rev.
  - intros c Ic. apply W. apply in_rev in Ic. eapply drop_while_incl. exact Ic.
Qed.

Lemma lower_lower (text : str) :
  latin1 text = true -> Unicode.lower (Unicode.lower text) = Unicode.lower text.
Proof.
  intros L. unfold latin1 in L. rewrite forallb_forall in L.
  unfold Unicode.lower. rewrite map_map. apply map_ext_in.
  intros c Ic. apply latin1_lower_facts. apply N.ltb_lt. now apply L.
Qed.

Lemma latin1_strip (text : str) : latin1 text = true -> latin1 (Unicode.strip text) = true.
Proof.
  unfold latin1. rewrite !forallb_forall. intros L c Ic. apply L.
  now apply (proj1 (proj2 (strip_shape text))).
Qed.

Lemma normalize_text_lower (text : str) (collapse_repeats : bool) :
  latin1 text = true ->
  normalize_text (Unicode.lower text) collapse_repeats
  = normalize_text text collapse_repeats.
Proof.
  intros L. unfold normalize_text.
  rewrite strip_lower by exact L.
  rewrite lower_lower by now apply latin1_strip. reflexivity.
Qed.

(** X2.  Case does not count: two texts of Basic Latin and Latin-1
    Supplement code points that [str.lower()] makes equal have the same
    normal form, with [collapse_repeats] on or off. *)
Theorem normalize_text_ignores_case :
  forall (a b : str) (collapse_repeats : bool),
    latin1 a = true -> latin1 b = true ->
    Unicode.lower a = Unicode.lower b ->
    normalize_text a collapse_repeats = normalize_text b collapse_repeats.
Proof.
  intros a b cr La Lb E.
  rewrite <- (@normalize_text_lower a cr La), <- (@normalize_text_lower b cr Lb).
  now rewrite E.
Qed.

(** ** The whitespace of a normal form *)

Lemma single_spaced_tail (c : codepoint) (rest : str) :
  single_spaced (c :: rest) = true -> single_spaced rest = true.
Proof.
  cbn [single_spaced]. intros H. apply andb_true_iff in H as [_ H]. exact H.
Qed.

Lemma single_spaced_drop_while (p : codepoint -> bool) (text : str) :
  single_spaced text = true -> single_spaced (drop_while p text) = true.
Proof.
  induction text as [|c rest IH]; [reflexivity|]. intros H.
  cbn [drop_while]. destruct (p c); [|exact H].
  apply IH. eapply single_spaced_tail. exact H.
Qed.

Lemma single_spaced_cons (c : codepoint) (rest : str) :
  (c = 0x20%N \/ Unicode.is_whitespace c = false) ->
  (c = 0x20%N -> match rest with d :: _ => d <> 0x20%N | [] => True end) ->
  single_spaced rest = true ->
  single_spaced (c :: rest) = true.
Proof.
  intros Hc Hd Hr. cbn [single_spaced]. rewrite Hr, andb_true_r.
  apply andb_true_iff. split.
  - destruct Hc as [-> | ->]; [reflexivity|apply orb_true_r].
  - destruct rest as [|d rest]; [reflexivity|].
    destruct (N.eqb c 0x20) eqn:E; [|reflexivity].
    apply N.eqb_eq in E. specialize (Hd E). cbn [andb].
    apply negb_true_iff. now apply N.eqb_neq.
Qed.

Lemma ws_scan_single_spaced (text : str) (in_run : bool) :
  single_spaced (ws_scan in_run text) = true
  /\ (in_run = true ->
      match ws_scan in_run text with d :: _ => d <> 0x20%N | [] => True end).
Proof.
  revert in_run. induction text as [|c rest IH]; intros in_run; [now split|].
  cbn [ws_scan]. destruct (Unicode.is_whitespace c) eqn:W.
  - destruct in_run.
    + destruct (IH true) as [S1 S2]. split; [exact S1|intros _; now apply S2].
    + destruct (IH true) as [S1 S2]. split; [|discriminate].
      apply single_spaced_cons; [now left|intros _; now apply S2|exact S1].
  - destruct (IH false) as [S1 _]. split.
    + apply single_spaced_cons; [now right| |exact S1].
      intros ->. discriminate.
    + intros _ ->. discriminate.
Qed.

Lemma sub_repeats_head (text : str) :
  match sub_repeats text, text with
  | h :: _, h' :: _ => h = h'
  | [], [] => True
  | _, _ => False
  end.
Proof.
  destruct text as [|c rest]; [exact I|].
  rewrite sub_repeats_cons. now destruct (_ && _).
Qed.

Lemma sub_repeats_single_spaced (text : str) :
  single_spaced text = true -> single_spaced (sub_repeats text) = true.
Proof.
  remember (List.length text) as n eqn:Hn. revert text Hn.
  induction n as [n IH] using lt_wf_ind. intros text Hn S.
  destruct text as [|c rest]; [reflexivity|].
  assert (Sr : single_spaced rest = true) by (eapply single_spaced_tail; exact S).
  assert (Hc : c = 0x20%N \/ Unicode.is_whitespace c = false).
  { cbn [single_spaced] in S. apply andb_true_iff in S as [S _].
    apply andb_true_iff in S as [S _]. apply orb_true_iff in S as [S|S].
    - left. now apply N.eqb_eq.
    - right. now apply negb_true_iff. }
  rewrite sub_repeats_cons. destruct (_ && _).
  - set (rest' := drop_while (N.eqb c) rest).
    assert (Sr' : single_spaced (sub_repeats rest') = true).
    { apply (IH (List.length rest')); [|reflexivity|now apply single_spaced_drop_while].
      subst n. cbn [List.length]. apply Nat.lt_succ_r, drop_while_length. }
    apply single_spaced_cons; [exact Hc| |exact Sr'].
    intros ->. pose proof (sub_repeats_head rest') as Hh.
    pose proof (drop_while_head (N.eqb 0x20) rest) as Hd. fold rest' in Hd.
    destruct (sub_repeats rest') as [|d t]; [exact I|].
    destruct rest' as [|d' t']; [contradiction|]. subst d'.
    intros ->. discriminate.
  - assert (Sr' : single_spaced (sub_repeats rest) = true).
    { apply (IH (List.length rest)); [subst n; cbn; lia|reflexivity|exact Sr]. }
    apply single_spaced_cons; [exact Hc| |exact Sr'].
    intros ->. pose proof (sub_repeats_head rest) as Hh.
    destruct (sub_repeats rest) as [|d t]; [exact I|].
    destruct rest as [|d' t']; [contradiction|]. subst d'.
    cbn [single_spaced] in S. apply andb_true_iff in S as [S _].
    apply andb_true_iff in S as [_ S]. cbn in S. apply negb_true_iff in S.
    now apply N.eqb_neq.
Qed.

Lemma single_spaced_no_pair (l1 l2 : str) :
  single_spaced (l1 ++ [0x20%N; 0x20%N] ++ l2) = false.
Proof.
  induction l1 as [|c l1 IH]; [reflexivity|].
  cbn [app single_spaced]. cbn [app] in IH. rewrite IH. apply andb_false_r.
Qed.

Lemma single_spaced_chars (text : str) :
  single_spaced text = true ->
  Forall (fun c => c = 0x20%N \/ Unicode.is_whitespace c = false) text.
Proof.
  induction text as [|c rest IH]; intros S; constructor.
  - cbn [single_spaced] in S. apply andb_true_iff in S as [S _].
    apply andb_true_iff in S as [S _]. apply orb_true_iff in S as [S|S].
    + left. now apply N.eqb_eq.
    + right. now apply negb_true_iff.
  - apply IH. eapply single_spaced_tail. exact S.
Qed.

Lemma normalize_text_single_spaced (text : str) (collapse_repeats : bool) :
  single_spaced (normalize_text text collapse_repeats) = true.
Proof.
  unfold normalize_text.
  change (re_sub _WHITESPACE_RE (fun _ => [0x20%N])) with sub_whitespace.
  change (re_sub _REPEATS_RE _collapse) with sub_repeats.
  assert (S : forall t, single_spaced (sub_whitespace t) = true).
  { intros t. rewrite sub_whitespace_scan. apply ws_scan_single_spaced. }
  destruct collapse_repeats; [apply sub_repeats_single_spaced|]; apply S.
Qed.

(** X3.  In every normal form the only whitespace is the ASCII space,
    and no space follows a space: whatever the input (tabs, line feeds,
    no-break spaces, any mix), with [collapse_repeats] on or off. *)
Theorem normalize_text_whitespace :
  forall (text : str) (collapse_repeats : bool),
    Forall (fun c => c = 0x20%N \/ Unicode.is_whitespace c = false)
           (normalize_text text collapse_repeats)
    /\ forall l1 l2 : str,
         normalize_text text collapse_repeats <> l1 ++ [0x20%N; 0x20%N] ++ l2.
Proof.
  intros text cr. pose proof (normalize_text_single_spaced text cr) as S. split.
  - now apply single_spaced_chars.
  - intros l1 l2 E. rewrite E, single_spaced_no_pair in S. discriminate.
Qed.

(** ** Repeats *)

Lemma leading_sub_repeats (c : codepoint) (text : str) :
  List.length (take_while (N.eqb c) (sub_repeats text))
  <= List.length (take_while (N.eqb c) text).
Proof.
  remember (List.length text) as n eqn:Hn. revert text Hn.
  induction n as [n IH] using lt_wf_ind. intros text Hn.
  destruct text as [|x rest]; [reflexivity|].
  rewrite sub_repeats_cons.
  destruct (_ && _); cbn [take_while]; (destruct (N.eqb c x) eqn:E; [|reflexivity]);
    apply N.eqb_eq in E; subst x; cbn [List.length]; apply le_n_S.
  - etransitivity.
    + apply (IH (List.length (drop_while (N.eqb c) rest))); [|reflexivity].
      subst n. cbn [List.length]. apply Nat.lt_succ_r, drop_while_length.
    + pose proof (drop_while_head (N.eqb c) rest) as Hd.
      destruct (drop_while (N.eqb c) rest) as [|d t]; [apply Nat.le_0_l|].
      cbn [take_while]. rewrite Hd. apply Nat.le_0_l.
  - apply (IH (List.length rest)); [subst n; cbn; lia|reflexivity].
Qed.

Lemma sub_repeats_no_triple (text : str) :
  Forall (fun c => c <> 0x0A%N) text -> no_triple (sub_repeats text) = true.
Proof.
  remember (List.length text) as n eqn:Hn. revert text Hn.
  induction n as [n IH] using lt_wf_ind. intros text Hn F.
  destruct text as [|c rest]; [reflexivity|].
  inversion F as [|? ? Hc Fr]; subst.
  rewrite sub_repeats_cons.
  destruct (N.eqb c 0x0A) eqn:E; [apply N.eqb_eq in E; contradiction|]. cbn [negb andb].
  destruct (2 <=? List.length (take_while (N.eqb c) rest))%nat eqn:L; cbn [no_triple].
  - apply andb_true_iff. split.
    + apply Nat.leb_le. etransitivity; [apply leading_sub_repeats|].
      pose proof (drop_while_head (N.eqb c) rest) as Hd.
      destruct (drop_while (N.eqb c) rest) as [|d t]; [apply Nat.le_0_l|].
      cbn [take_while]. rewrite Hd. apply Nat.le_0_l.
    + apply (IH (List.length (drop_while (N.eqb c) rest))); [|reflexivity|].
      * cbn [List.length]. apply Nat.lt_succ_r, drop_while_length.
      * rewrite Forall_forall in *. intros x Ix. apply Fr.
        eapply drop_while_incl. exact Ix.
  - apply andb_true_iff. split.
    + apply Nat.leb_le. etransitivity; [apply leading_sub_repeats|].
      apply Nat.leb_gt in L. lia.
    + apply (IH (List.length rest)); [cbn; lia|reflexivity|exact Fr].
Qed.

Lemma no_triple_spec (l1 l2 : str) (c : codepoint) :
  no_triple (l1 ++ [c; c; c] ++ l2) = false.
Proof.
  induction l1 as [|x l1 IH].
  - cbn [app no_triple take_while]. rewrite !N.eqb_refl. reflexivity.
  - cbn [app no_triple]. cbn [app] in IH. rewrite IH. apply andb_false_r.
Qed.

(** X4.  With [collapse_repeats] set, no normal form holds a code point
    three times in a row, whatever the input. *)
Theorem normalize_text_collapses_repeats :
  forall (text : str) (l1 l2 : str) (c : codepoint),
    normalize_text text true <> l1 ++ [c; c; c] ++ l2.
Proof.
  intros text l1 l2 c E.
  assert (T : no_triple (normalize_text text true) = true).
  { unfold normalize_text.
    change (re_sub _WHITESPACE_RE (fun _ => [0x20%N])) with sub_whitespace.
    change (re_sub _REPEATS_RE _collapse) with sub_repeats.
    apply sub_repeats_no_triple, sub_whitespace_no_line_feed. }
  rewrite E, no_triple_spec in T. discriminate.
Qed.

Lemma no_triple_fixed (text : str) : no_triple text = true -> sub_repeats text = text.
Proof.
  induction text as [|c rest IH]; [reflexivity|].
  cbn [no_triple]. intros T. apply andb_true_iff in T as [L T].
  rewrite sub_repeats_cons.
  assert (L' : (2 <=? List.length (take_while (N.eqb c) rest))%nat = false).
  { apply Nat.leb_gt. apply Nat.leb_le in L. lia. }
  rewrite L', andb_false_r. now rewrite IH.
Qed.

Lemma tight_drop_copies (c : codepoint) (rest : str) :
  N.eqb c 0x20 = false ->
  tight false rest = true -> tight false (drop_while (N.eqb c) rest) = true.
Proof.
  intros Hc. induction rest as [|d r IH]; [reflexivity|].
  intros T. cbn [drop_while]. destruct (N.eqb c d) eqn:E; [|exact T].
  apply N.eqb_eq in E. subst d. cbn [tight] in T. rewrite Hc in T.
  apply andb_true_iff in T as [_ T]. now apply IH.
Qed.

Lemma tight_sub_repeats (text : str) (a : bool) :
  tight a text = true -> tight a (sub_repeats text) = true.
Proof.
  remember (List.length text) as n eqn:Hn. revert text a Hn.
  induction n as [n IH] using lt_wf_ind. intros text a Hn T.
  destruct text as [|c rest]; [exact T|].
  assert (K : forall rest', List.length rest' <= List.length rest ->
                tight (N.eqb c 0x20) rest' = true ->
                tight a (c :: sub_repeats rest') = true).
  { intros rest' Hl T'. cbn [tight] in *.
    assert (R : tight (N.eqb c 0x20) (sub_repeats rest') = true).
    { apply (IH (List.length rest')); [subst n; cbn; lia|reflexivity|exact T']. }
    destruct (N.eqb c 0x20).
    - apply andb_true_iff in T as [-> _]. exact R.
    - apply andb_true_iff in T as [-> _]. exact R. }
  assert (Tr : tight (N.eqb c 0x20) rest = true).
  { cbn [tight] in T. destruct (N.eqb c 0x20); now apply andb_true_iff in T as [_ T]. }
  rewrite sub_repeats_cons. destruct (_ && _).
  - apply K; [apply drop_while_length|].
    destruct (N.eqb c 0x20) eqn:Hc.
    + apply N.eqb_eq in Hc. subst c.
      destruct rest as [|d r]; [discriminate|].
      cbn [drop_while]. destruct (N.eqb 0x20 d) eqn:E; [|exact Tr].
      apply N.eqb_eq in E. subst d. cbn in Tr. discriminate.
    + now apply tight_drop_copies.
  - apply K; [apply Nat.le_refl|exact Tr].
Qed.

Lemma normal_sub_repeats (text : str) :
  normal text = true -> normal (sub_repeats text) = true.
Proof.
  intros Nt. pose proof (sub_repeats_head text) as Hh.
  destruct text as [|c rest]; [reflexivity|].
  pose proof (@tight_sub_repeats (c :: rest) true Nt) as T.
  destruct (sub_repeats (c :: rest)); [contradiction|exact T].
Qed.

(** X5.  With [collapse_repeats] set, too, [normalize_text] is idempotent
    on text of Basic Latin and Latin-1 Supplement code points that holds
    none of the spacing accents U+00A8, U+00AF, U+00B4, U+00B8. *)
Theorem normalize_collapsing_idempotent_latin1 :
  forall x : str,
    latin1_plain x = true ->
    normalize_text (normalize_text x true) true = normalize_text x true.
Proof.
  intros x P.
  assert (S : forall t, normalize_text t true = sub_repeats (normalize_text t false))
    by reflexivity.
  rewrite (S (normalize_text x true)), (S x).
  rewrite normal_fixed by now apply normal_sub_repeats, normalize_text_normal.
  apply no_triple_fixed, sub_repeats_no_triple.
  unfold normalize_text.
  change (re_sub _WHITESPACE_RE (fun _ => [0x20%N])) with sub_whitespace.
  apply sub_whitespace_no_line_feed.
Qed.

(** ** Text that normalises to nothing *)

Lemma strip_whitespace_only (text : str) :
  forallb Unicode.is_whitespace text = true -> Unicode.strip text = [].
Proof.
  intros F. unfold Unicode.strip, Unicode.lstrip. now rewrite drop_while_all.
Qed.

(** X6.  A seed that is non-empty but holds only whitespace passes
    [validate_record] (given a variation that is non-empty text), and
    its normal form is the empty string: every such seed is filed under
    the same normalized key. *)
Theorem whitespace_seed_is_accepted :
  forall (record : dict) (seed_text : str) (collapse_repeats : bool),
    get record (lit "seed") = PStr seed_text ->
    seed_text <> [] ->
    forallb Unicode.is_whitespace seed_text = true ->
    nonempty_text (get record (lit "variation")) ->
    validate_record record = (true, None)
    /\ normalize_seed seed_text collapse_repeats = [].
Proof.
  intros record s cr Gs Ns Ws (v & Gv & Nv). split.
  - unfold validate_record. rewrite Gs, Gv.
    destruct s; [contradiction|]. destruct v; [contradiction|]. reflexivity.
  - unfold normalize_seed, normalize_text. rewrite strip_whitespace_only by exact Ws.
    now destruct cr.
Qed.

(** ** Reading files *)

Section Checksum.
Context `{Platform}.

Lemma firstn_nil_inv {A} (n : nat) (l : list A) : 0 < n -> firstn n l = [] -> l = [].
Proof. destruct n; [lia|]. destruct l; [reflexivity|discriminate]. Qed.

Lemma read_blocks_all (rounds block_size : nat) (unread fed : list byte) :
  0 < block_size -> List.length unread < rounds ->
  read_blocks rounds block_size unread fed = fed ++ unread.
Proof.
  intros Hb. revert unread fed. induction rounds as [|rounds IH]; intros unread fed Hl; [lia|].
  cbn [read_blocks]. destruct (firstn block_size unread) as [|b chunk] eqn:F.
  - apply firstn_nil_inv in F; [|exact Hb]. subst. now rewrite app_nil_r.
  - rewrite IH.
    + rewrite <- F, <- app_assoc. f_equal. apply firstn_skipn.
    + rewrite length_skipn.
      destruct unread; [rewrite firstn_nil in F; discriminate|].
      cbn [List.length] in *. lia.
Qed.

Lemma read_blocks_zero (rounds : nat) (unread fed : list byte) :
  read_blocks rounds 0 unread fed = fed.
Proof. destruct rounds; reflexivity. Qed.

(** X7.  The chunked loop of [compute_checksum] feeds the hash object
    exactly the bytes of the file, whatever the positive block size and
    however many more reads are allowed than the file has bytes; a block
    size of 0 reads nothing.  So the checksum is the SHA-256 of the
    content, and two files with the same content have the same checksum
    whatever their paths. *)
Theorem compute_checksum_reads_everything :
  (forall (rounds block_size : nat) (bytes : list byte),
      0 < block_size -> List.length bytes < rounds ->
      read_blocks rounds block_size bytes [] = bytes)
  /\ (forall (rounds : nat) (bytes : list byte), read_blocks rounds 0 bytes [] = [])
  /\ (forall path : Path, compute_checksum path = sha256_hexdigest (contents path))
  /\ (forall p q : Path, contents p = contents q -> compute_checksum p = compute_checksum q).
Proof.
  split; [|split; [|split]].
  - intros. now apply read_blocks_all.
  - intros. apply read_blocks_zero.
  - intros path. apply compute_checksum_contents.
  - intros p q E. unfold compute_checksum. now rewrite E.
Qed.

End Checksum.

(** ** Hashing text *)

Lemma encode_cp_surrogate (c : codepoint) :
  surrogate c = true -> Utf8.encode_cp c = None.
Proof.
  unfold surrogate, Utf8.encode_cp. intros S. rewrite S.
  unfold Unicode.between in S. apply andb_true_iff in S as [L U].
  apply N.leb_le in L. apply N.leb_le in U.
  assert (A : (c <? 0x80)%N = false) by (apply N.ltb_ge; lia).
  assert (B : (c <? 0x800)%N = false) by (apply N.ltb_ge; lia).
  assert (C : (c <? 0x10000)%N = true) by (apply N.ltb_lt; lia).
  now rewrite A, B, C.
Qed.

Lemma encode_cp_valid (c : codepoint) :
  (c < 0x110000)%N -> surrogate c = false -> exists b, Utf8.encode_cp c = Some b.
Proof.
  unfold surrogate, Utf8.encode_cp. intros V S. rewrite S.
  destruct (c <? 0x80)%N; [eauto|]. destruct (c <? 0x800)%N; [eauto|].
  destruct (c <? 0x10000)%N; [eauto|].
  apply N.ltb_lt in V. rewrite V. eauto.
Qed.

Lemma encode_surrogate (text : str) :
  existsb surrogate text = true -> Utf8.encode text = None.
Proof.
  induction text as [|c rest IH]; [discriminate|]. cbn [existsb Utf8.encode].
  intros E. apply orb_true_iff in E as [E|E].
  - now rewrite encode_cp_surrogate.
  - rewrite IH by exact E. now destruct (Utf8.encode_cp c).
Qed.

Lemma encode_valid (text : str) :
  Forall (fun c => (c < 0x110000)%N) text -> existsb surrogate text = false ->
  exists bytes, Utf8.encode text = Some bytes.
Proof.
  induction text as [|c rest IH]; intros V S; [now exists []|].
  inversion V as [|? ? Vc Vr]; subst. cbn [existsb] in S.
  apply orb_false_iff in S as [Sc Sr].
  destruct (encode_cp_valid Vc Sc) as [b Eb]. destruct (IH Vr Sr) as [bs Ebs].
  cbn [Utf8.encode]. rewrite Eb, Ebs. eauto.
Qed.

Section Hashing.
Context `{Platform}.

(** X8.  [md5_hex] never changes the state it runs in.  It raises
    [UnicodeEncodeError] when the text holds a surrogate code point
    (U+D800..U+DFFF), and on every other text of a Python [str] (code
    points below U+110000) it returns the MD5 digest of the UTF-8
    encoding. *)
Theorem md5_hex_raises_on_surrogates :
  forall (S : Type) (text : str) (s : S),
    (existsb surrogate text = true -> md5_hex text s = Raised UnicodeEncodeError s)
    /\ (Forall (fun c => (c < 0x110000)%N) text -> existsb surrogate text = false ->
        exists bytes, Utf8.encode text = Some bytes
                      /\ md5_hex text s = Returned (md5_hexdigest bytes) s)
    /\ final_state (md5_hex text s) = s.
Proof.
  intros S text s. unfold md5_hex. split; [|split].
  - intros E. now rewrite encode_surrogate.
  - intros V E. destruct (encode_valid V E) as [bytes Eb]. exists bytes.
    now rewrite Eb.
  - now destruct (Utf8.encode text).
Qed.

(** X9.  A record that passes validation but whose normalized seed or
    normalized variation holds a surrogate code point is not ingested:
    [ingest_record] raises [UnicodeEncodeError] before anything is
    looked up, written or counted, dry run or not. *)
Theorem ingest_record_unencodable :
  forall (batch : Batch.t) (src_file : option SourceFile.t) (dry_run : bool)
         (rec : dict) (r : Run),
    fst (validate_record rec) = true ->
    existsb surrogate (normalize_seed (str_of (get rec (lit "seed"))) false) = true
    \/ existsb surrogate
         (normalize_variation (str_of (get rec (lit "variation"))) false) = true ->
    ingest_record batch src_file dry_run rec r = Raised UnicodeEncodeError r.
Proof.
  intros batch src dry rec r V E. unfold ingest_record.
  destruct (validate_record rec) as [valid reason]. cbn [fst] in V. subst valid.
  cbn [negb]. unfold bind at 1.
  set (ns := normalize_seed _ _) in *. set (nv := normalize_variation _ _) in *.
  unfold md5_hex at 1.
  destruct (Utf8.encode ns) as [bs|] eqn:Es; [|reflexivity].
  destruct E as [E|E]; [rewrite encode_surrogate in Es by exact E; discriminate|].
  cbn. unfold bind at 1. unfold md5_hex at 1.
  now rewrite encode_surrogate.
Qed.

End Hashing.

(** ** Validation *)

(** X10.  The reason [validate_record] gives: "missing or invalid seed"
    whenever the seed is absent or not non-empty text, whatever the
    variation; "missing or invalid variation" when the seed is fine and
    the variation is absent or not non-empty text; none when both are
    fine. *)
Theorem validate_record_reason :
  forall record : dict,
    (~ nonempty_text (get record (lit "seed")) ->
     validate_record record = (false, Some (lit "missing or invalid seed")))
    /\ (nonempty_text (get record (lit "seed")) ->
        ~ nonempty_text (get record (lit "variation")) ->
        validate_record record = (false, Some (lit "missing or invalid variation")))
    /\ (nonempty_text (get record (lit "seed")) ->
        nonempty_text (get record (lit "variation")) ->
        validate_record record = (true, None)).
Proof.
  intros record. unfold validate_record.
  assert (T : forall v, nonempty_text v <-> (truthy v && is_str v) = true).
  { intros v. split.
    - intros (s & -> & Ns). destruct s; [contradiction|reflexivity].
    - destruct v; try discriminate; try (cbn; rewrite andb_false_r; discriminate).
      destruct s; [discriminate|]. intros _. eexists. split; [reflexivity|discriminate]. }
  assert (D : forall v, (negb (truthy v) || negb (is_str v)) = negb (truthy v && is_str v)).
  { intros v. now rewrite negb_andb. }
  rewrite !D. split; [|split].
  - intros N. destruct (truthy _ && is_str _) eqn:E; [|reflexivity].
    exfalso. apply N, T, E.
  - intros S N. apply T in S. rewrite S. cbn [negb].
    destruct (truthy (get record (lit "variation")) && is_str _) eqn:E; [|reflexivity].
    exfalso. apply N, T, E.
  - intros S V. apply T in S. apply T in V. now rewrite S, V.
Qed.

(** ** The adapter *)

Section Adapter.
Context `{Platform}.

Lemma get_canonical_record (seed : str) (variation : pyval) (miner_id : option str) :
  get (canonical_record seed variation miner_id) (lit "seed") = PStr seed
  /\ get (canonical_record seed variation miner_id) (lit "variation") = variation
  /\ get (canonical_record seed variation miner_id) (lit "miner_ext_id")
     = match miner_id with Some m => PStr m | None => PNone end
  /\ get (canonical_record seed variation miner_id) (lit "score") = PNone
  /\ get (canonical_record seed variation miner_id) (lit "raw") = PNone.
Proof. repeat split. Qed.

Lemma parse_yields (obj : pyval) (rec : dict) :
  In rec (parse obj) ->
  exists (seed : str) (variation : pyval) (resp : dict),
    rec = canonical_record seed variation (_get_miner_id resp)
    /\ truthy variation = true.
Proof.
  unfold parse. destruct obj as [| | | | |l|obj]; try contradiction.
  destruct (get obj (lit "responses")) as [| | | | |l|responses]; try contradiction.
  intros I. apply in_flat_map in I as (resp & _ & I).
  destruct resp as [| | | | |l|resp]; try contradiction.
  destruct (get_or resp (lit "variations") (PDict [])) as [| | | | |l|vm];
    try contradiction.
  apply in_flat_map in I as ([seed variations] & _ & I).
  destruct variations as [| | | | |variations|d]; try contradiction.
  apply in_flat_map in I as (variation & _ & I).
  destruct (truthy variation) eqn:T; [|contradiction].
  destruct I as [<-|[]]. now exists seed, variation, resp.
Qed.

(** X11.  Every record [parse] yields has the five keys of a canonical
    record: [seed] is text (a key of a [variations] object), [variation]
    is truthy, [miner_ext_id] is text or [None], [score] and [raw] are
    [None].  So [validate_record] rejects a record of [parse] exactly
    when its seed is the empty string or its variation is not text (a
    number, [true], a list or an object in the document). *)
Theorem parse_yields_canonical_records :
  forall (obj : pyval) (rec : dict),
    In rec (parse obj) ->
    exists (seed : str) (variation : pyval) (miner_id : option str),
      rec = canonical_record seed variation miner_id
      /\ get rec (lit "seed") = PStr seed
      /\ get rec (lit "variation") = variation
      /\ truthy variation = true
      /\ get rec (lit "miner_ext_id")
         = match miner_id with Some m => PStr m | None => PNone end
      /\ get rec (lit "score") = PNone
      /\ get rec (lit "raw") = PNone
      /\ (fst (validate_record rec) = false <-> seed = [] \/ is_str variation = false).
Proof.
  intros obj rec I. destruct (parse_yields obj rec I) as (seed & variation & resp & -> & T).
  exists seed, variation, (_get_miner_id resp).
  destruct (get_canonical_record seed variation (_get_miner_id resp))
    as (G1 & G2 & G3 & G4 & G5).
  repeat match goal with |- _ /\ _ => split end; try assumption; try reflexivity.
  split.
  - unfold validate_record. rewrite G1, G2, T. cbn [negb orb is_str truthy].
    destruct seed as [|c seed]; [intros _; now left|].
    cbn [negb]. destruct (is_str variation); [discriminate|]. intros _. now right.
  - unfold validate_record. rewrite G1, G2, T. cbn [negb orb is_str truthy].
    intros [->| ->]; [reflexivity|]. now destruct seed.
Qed.

(** X12.  The miner of a response: [hotkey] when it is truthy, whatever
    [uid] is; otherwise [uid] unless it is absent or [null] (a [uid] of
    0, [false] or the empty string still counts); otherwise none.  The
    identifier is [str()] of the value, the value itself when it is
    text. *)
Theorem get_miner_id_precedence :
  forall resp : dict,
    (truthy (get resp (lit "hotkey")) = true ->
     _get_miner_id resp = Some (py_str (get resp (lit "hotkey"))))
    /\ (truthy (get resp (lit "hotkey")) = false ->
        get resp (lit "uid") <> PNone ->
        _get_miner_id resp = Some (py_str (get resp (lit "uid"))))
    /\ (_get_miner_id resp = None
        <-> truthy (get resp (lit "hotkey")) = false /\ get resp (lit "uid") = PNone)
    /\ (forall s, get resp (lit "hotkey") = PStr s -> s <> [] ->
                  _get_miner_id resp = Some s).
Proof.
  intros resp. unfold _get_miner_id.
  repeat match goal with |- _ /\ _ => split end.
  - intros ->. reflexivity.
  - intros -> N. destruct (get resp (lit "uid")); try reflexivity. contradiction.
  - split.
    + destruct (truthy (get resp (lit "hotkey"))); [discriminate|].
      destruct (get resp (lit "uid")); try discriminate. now split.
    + intros [-> ->]. reflexivity.
  - intros s -> Ns. destruct s; [contradiction|reflexivity].
Qed.

(** ** The registry *)

Lemma get_adapter_names_value : get_adapter_names = [lit "generic_responses_v1"].
Proof. reflexivity. Qed.

Lemma lookup_registry (name : str) :
  lookup _REGISTRY name
  = if str_eqb (lit "generic_responses_v1") name then Some parse else None.
Proof. reflexivity. Qed.

(** X13.  [get_adapter] returns an adapter exactly for the names
    [get_adapter_names] lists, which are "generic_responses_v1" alone,
    and the adapter is [parse]; for any other name it raises [KeyError]
    with the message "Unknown adapter: <name>", and [ingest_batch] then
    raises it too and leaves the database as it was, sequences included. *)
Theorem get_adapter_knows_registered_names :
  forall name : str,
    (In name get_adapter_names
     <-> forall (S : Type) (s : S), get_adapter name s = Returned parse s)
    /\ (~ In name get_adapter_names ->
        (forall (S : Type) (s : S),
            get_adapter name s = Raised (KeyError (lit "Unknown adapter: " ++ name)) s)
        /\ forall (db : Database) (batch_name : str) (files : list Path)
                  (dry_run resume : bool) (workers : nat),
             ingest_batch db batch_name files name dry_run resume workers
             = (inl (KeyError (lit "Unknown adapter: " ++ name)), db)).
Proof.
  intros name. rewrite get_adapter_names_value.
  assert (L := lookup_registry name).
  destruct (str_eqb (lit "generic_responses_v1") name) eqn:E.
  - apply str_eqb_eq in E. split.
    + split; [|intros _; now left]. intros _ S s. unfold get_adapter. now rewrite L.
    + intros N. exfalso. apply N. now left.
  - apply str_eqb_neq in E. split.
    + split; [intros [I|[]]; contradiction|].
      intros G. specialize (G unit tt). unfold get_adapter in G. rewrite L in G.
      discriminate.
    + intros _. split.
      * intros S s. unfold get_adapter. now rewrite L.
      * intros db bn files dry resume workers. unfold ingest_batch, ingest_batch_body.
        unfold bind at 1. unfold get_adapter. rewrite L.
        unfold raise, close_session, open_session. cbn. now destruct db.
Qed.

End Adapter.

(** ** What a run keeps when it returns *)

Section Kept.
Context {S T : Type}.
Variable f : S -> T.

Lemma kept_ret {A} (a : A) : kept_on_return f (ret a).
Proof. intros s a' s' E. now inversion E. Qed.

Lemma kept_raise {A} (e : exn) : kept_on_return f (@raise S A e).
Proof. intros s a' s' E. discriminate. Qed.

Lemma kept_bind {A B} (m : M S A) (k : A -> M S B) :
  kept_on_return f m -> (forall a, kept_on_return f (k a)) ->
  kept_on_return f (bind m k).
Proof.
  intros Hm Hk s b s' E. apply bind_returned in E as (a & s1 & E1 & E2).
  rewrite (Hk a s1 b s' E2). exact (Hm s a s1 E1).
Qed.

Lemma kept_gets {A} (g : S -> A) : kept_on_return f (gets g).
Proof. intros s a s' E. now inversion E. Qed.

Lemma kept_for_each {A} (l : list A) (body : A -> M S unit) :
  (forall x, In x l -> kept_on_return f (body x)) ->
  kept_on_return f (for_each l body).
Proof.
  induction l as [|x l IH]; intros H; [apply kept_ret|].
  cbn [for_each]. apply kept_bind; [apply H; now left|].
  intros _. apply IH. intros y Iy. apply H. now right.
Qed.

Lemma kept_md5_hex `{Platform} (text : str) : kept_on_return f (md5_hex text).
Proof. intros s a s' E. apply md5_hex_returned in E. now subst. Qed.

End Kept.

(** ** Every outcome of the get-or-create helpers *)

Lemma get_or_create_seed_outcome (raw norm h : str) (r : Run) :
  match filter (seed_has norm) (seeds (txn (session r))) with
  | [] =>
      match filter (fun x => str_eqb (Seed.seed_text x) raw) (seeds (txn (session r))) with
      | [] =>
          let row := {| Seed.id := next_seed (seqs (session r)); Seed.seed_text := raw;
                        Seed.normalized_seed := norm; Seed.seed_hash := h |} in
          _get_or_create_seed raw norm h r
          = Returned row (in_session (flushed_seed row (session r)) (bumped c_seeds_new r))
      | _ :: _ =>
          _get_or_create_seed raw norm h r = Raised IntegrityError (bumped c_seeds_new r)
      end
  | [sd] => _get_or_create_seed raw norm h r = Returned sd (bumped c_seeds_existing r)
  | _ :: _ :: _ => _get_or_create_seed raw norm h r = Raised MultipleResultsFound r
  end.
Proof.
  unfold _get_or_create_seed, add_seed, seed_has. run_monad. cbn.
  destruct (filter (fun s : Seed.t => str_eqb (Seed.normalized_seed s) norm)
                   (seeds (txn (session r)))) as [|x [|y l]]; cbn.
  - destruct (filter (fun x : Seed.t => str_eqb (Seed.seed_text x) raw)
                     (seeds (txn (session r)))); reflexivity.
  - reflexivity.
  - now destruct r.
Qed.

Lemma get_or_create_variation_outcome (seed : Seed.t) (raw norm h : str) (r : Run) :
  match filter (variation_has (Seed.id seed) norm) (variations (txn (session r))) with
  | [] =>
      let row := {| Variation.id := next_variation (seqs (session r));
                    Variation.seed_id := Seed.id seed;
                    Variation.variation_text := raw;
                    Variation.normalized_variation := norm;
                    Variation.variation_hash := h |} in
      _get_or_create_variation seed raw norm h r
      = Returned row
          (in_session (flushed_variation row (session r)) (bumped c_variations_new r))
  | [v] =>
      _get_or_create_variation seed raw norm h r
      = Returned v (bumped c_variations_existing r)
  | _ :: _ :: _ =>
      _get_or_create_variation seed raw norm h r = Raised MultipleResultsFound r
  end.
Proof.
  unfold _get_or_create_variation, add_variation, variation_has. run_monad. cbn.
  destruct (filter (fun v : Variation.t =>
                      Nat.eqb (Variation.seed_id v) (Seed.id seed)
                      && str_eqb (Variation.normalized_variation v) norm)
                   (variations (txn (session r)))) as [|x [|y l]] eqn:F; cbn.
  - rewrite F. reflexivity.
  - reflexivity.
  - now destruct r.
Qed.

Lemma get_or_create_miner_outcome (ext_id : pyval) (s : Session) :
  match ext_id with
  | PStr (c :: e) =>
      match filter (fun m => str_eqb (Miner.miner_external_id m) (c :: e)) (miners (txn s)) with
      | [] =>
          let row := {| Miner.id := next_miner (seqs s);
                        Miner.miner_external_id := c :: e |} in
          _get_or_create_miner ext_id s = Returned (Some row) (flushed_miner row s)
      | [m] => _get_or_create_miner ext_id s = Returned (Some m) s
      | _ :: _ :: _ => _get_or_create_miner ext_id s = Raised MultipleResultsFound s
      end
  | _ =>
      if truthy ext_id then _get_or_create_miner ext_id s = Raised ProgrammingError s
      else _get_or_create_miner ext_id s = Returned None s
  end.
Proof.
  unfold _get_or_create_miner, add_miner. run_monad.
  destruct ext_id as [| | | |e| |]; cbn [truthy negb];
    try (match goal with |- context [if ?b then _ else _] => destruct b end; reflexivity);
    try reflexivity.
  destruct e as [|c e]; [reflexivity|]. cbn.
  destruct (filter (fun m : Miner.t => str_eqb (Miner.miner_external_id m) (c :: e))
                   (miners (txn s))) as [|x [|y l]] eqn:F; cbn.
  - rewrite F. reflexivity.
  - reflexivity.
  - reflexivity.
Qed.

Lemma get_or_create_batch_outcome (name : str) (s : Session) :
  match filter (batch_has name) (batches (txn s)) with
  | [] =>
      let row := {| Batch.id := next_batch (seqs s); Batch.batch_name := name |} in
      _get_or_create_batch name s = Returned row (flushed_batch row s)
  | [b] => _get_or_create_batch name s = Returned b s
  | _ :: _ :: _ => _get_or_create_batch name s = Raised MultipleResultsFound s
  end.
Proof.
  unfold _get_or_create_batch, add_batch, batch_has. run_monad. cbn.
  destruct (filter (fun b : Batch.t => str_eqb (Batch.batch_name b) name)
                   (batches (txn s))) as [|x [|y l]] eqn:F; cbn.
  - rewrite F. reflexivity.
  - reflexivity.
  - reflexivity.
Qed.

Lemma add_observation_outcome (a b : nat) (c d e : option nat) (f : pyval)
  (g : option str) (s : Session) :
  add_observation a b c d e f g s
  = Returned tt
      (flushed_observation
         {| Observation.id := next_observation (seqs s); Observation.seed_id := a;
            Observation.variation_id := b; Observation.miner_id := c;
            Observation.batch_id := d; Observation.source_file_id := e;
            Observation.score := f; Observation.raw_payload := g |} s).
Proof. reflexivity. Qed.

(** ** A record that was gone through *)

Section RecordSteps.
Context `{Platform}.

Lemma ingest_record_returned (batch : Batch.t) (src_file : option SourceFile.t)
  (dry_run : bool) (rec : dict) (r : Run) (n : nat) (r' : Run) :
  ingest_record batch src_file dry_run rec r = Returned n r' ->
  (fst (validate_record rec) = false /\ n = 0 /\ r' = bumped c_invalid_records r)
  \/ (fst (validate_record rec) = true /\ n = 1
      /\ let raw_seed := str_of (get rec (lit "seed")) in
         let raw_variation := str_of (get rec (lit "variation")) in
         let norm_seed := normalize_seed raw_seed false in
         let norm_variation := normalize_variation raw_variation false in
         exists seed_hash var_hash sd r1 var r2 miner s3,
           md5_hex norm_seed r = Returned seed_hash r
           /\ md5_hex norm_variation r = Returned var_hash r
           /\ _get_or_create_seed raw_seed norm_seed seed_hash r = Returned sd r1
           /\ _get_or_create_variation sd raw_variation norm_variation var_hash r1
              = Returned var r2
           /\ (if truthy (get rec (lit "miner_ext_id"))
               then _get_or_create_miner (get rec (lit "miner_ext_id")) (session r2)
                    = Returned miner s3
               else miner = None /\ s3 = session r2)
           /\ r' = bumped c_observations_inserted
                     (in_session
                        (if dry_run then s3
                         else flushed_observation
                                (observation_row (next_observation (seqs s3)) sd var miner
                                                 batch src_file rec) s3)
                        r2)).
Proof.
  unfold ingest_record. destruct (validate_record rec) as [valid reason].
  destruct valid; cbn [negb fst]; cbv zeta.
  2:{ intros E. inversion E; subst. now left. }
  intros E. right. split; [reflexivity|].
  apply bind_returned in E as (seed_hash & r0 & E1 & E).
  pose proof (md5_hex_returned _ _ E1) as ->.
  apply bind_returned in E as (var_hash & r0 & E2 & E).
  pose proof (md5_hex_returned _ _ E2) as ->.
  apply bind_returned in E as (sd & r1 & Es & E).
  apply bind_returned in E as (var & r2 & Ev & E).
  apply bind_returned in E as (miner & r3 & Em & E).
  apply bind_returned in E as ([] & r4 & Eo & E).
  apply bind_returned in E as ([] & r5 & Eb & E).
  inversion E; subst; clear E. inversion Eb; subst; clear Eb.
  split; [reflexivity|].
  assert (M : exists s3, r3 = in_session s3 r2
                /\ if truthy (get rec (lit "miner_ext_id"))
                   then _get_or_create_miner (get rec (lit "miner_ext_id")) (session r2)
                        = Returned miner s3
                   else miner = None /\ s3 = session r2).
  { destruct (truthy (get rec (lit "miner_ext_id"))).
    - apply on_session_returned in Em as (s' & Em & ->). now exists s'.
    - inversion Em; subst. exists (session r3). now destruct r3. }
  destruct M as (s3 & -> & M).
  exists seed_hash, var_hash, sd, r1, var, r2, miner, s3.
  repeat match goal with |- _ /\ _ => split end; try assumption.
  destruct dry_run; cbn [negb] in Eo.
  - inversion Eo; subst. reflexivity.
  - apply on_session_returned in Eo as (s' & Eo & ->).
    cbn [session in_session] in Eo. rewrite add_observation_outcome in Eo.
    inversion Eo; subst. reflexivity.
Qed.

End RecordSteps.

Lemma seed_step (raw norm h : str) (r : Run) (sd : Seed.t) (r1 : Run) :
  _get_or_create_seed raw norm h r = Returned sd r1 ->
  (filter (seed_has norm) (seeds (txn (session r))) = [sd]
   /\ r1 = bumped c_seeds_existing r)
  \/ (filter (seed_has norm) (seeds (txn (session r))) = []
      /\ filter (fun x => str_eqb (Seed.seed_text x) raw) (seeds (txn (session r))) = []
      /\ sd = {| Seed.id := next_seed (seqs (session r)); Seed.seed_text := raw;
                 Seed.normalized_seed := norm; Seed.seed_hash := h |}
      /\ r1 = in_session (flushed_seed sd (session r)) (bumped c_seeds_new r)).
Proof.
  intros E. pose proof (get_or_create_seed_outcome raw norm h r) as O.
  destruct (filter (seed_has norm) (seeds (txn (session r)))) as [|x [|y l]].
  - destruct (filter (fun x => str_eqb (Seed.seed_text x) raw) (seeds (txn (session r))));
      rewrite O in E; [|discriminate].
    inversion E; subst. right. repeat split; reflexivity.
  - rewrite O in E. inversion E; subst. now left.
  - rewrite O in E. discriminate.
Qed.

Lemma variation_step (seed : Seed.t) (raw norm h : str) (r : Run) (v : Variation.t)
  (r1 : Run) :
  _get_or_create_variation seed raw norm h r = Returned v r1 ->
  (filter (variation_has (Seed.id seed) norm) (variations (txn (session r))) = [v]
   /\ r1 = bumped c_variations_existing r)
  \/ (filter (variation_has (Seed.id seed) norm) (variations (txn (session r))) = []
      /\ v = {| Variation.id := next_variation (seqs (session r));
                Variation.seed_id := Seed.id seed;
                Variation.variation_text := raw;
                Variation.normalized_variation := norm;
                Variation.variation_hash := h |}
      /\ r1 = in_session (flushed_variation v (session r)) (bumped c_variations_new r)).
Proof.
  intros E. pose proof (get_or_create_variation_outcome seed raw norm h r) as O.
  destruct (filter (variation_has (Seed.id seed) norm) (variations (txn (session r))))
    as [|x [|y l]]; rewrite O in E; [| |discriminate].
  - inversion E; subst. right. repeat split; reflexivity.
  - inversion E; subst. now left.
Qed.

Lemma miner_step (ext_id : pyval) (s : Session) (miner : option Miner.t) (s' : Session) :
  truthy ext_id = true ->
  _get_or_create_miner ext_id s = Returned miner s' ->
  exists e m,
    ext_id = PStr e /\ e <> [] /\ miner = Some m /\ Miner.miner_external_id m = e
    /\ ((filter (fun x => str_eqb (Miner.miner_external_id x) e) (miners (txn s)) = [m]
         /\ s' = s)
        \/ (filter (fun x => str_eqb (Miner.miner_external_id x) e) (miners (txn s)) = []
            /\ m = {| Miner.id := next_miner (seqs s); Miner.miner_external_id := e |}
            /\ s' = flushed_miner m s)).
Proof.
  intros T E. pose proof (get_or_create_miner_outcome ext_id s) as O.
  destruct ext_id as [| | | |e| |]; try (rewrite T in O; rewrite O in E; discriminate).
  destruct e as [|c e]; [discriminate|].
  destruct (filter (fun m => str_eqb (Miner.miner_external_id m) (c :: e)) (miners (txn s)))
    as [|x [|y l]] eqn:F; rewrite O in E; [| |discriminate].
  - inversion E; subst. eexists. eexists.
    split; [reflexivity|]. split; [discriminate|]. split; [reflexivity|].
    split; [reflexivity|]. right. split; [exact F|]. split; reflexivity.
  - inversion E; subst. exists (c :: e), x.
    split; [reflexivity|]. split; [discriminate|]. split; [reflexivity|].
    split; [|left; split; [exact F|reflexivity]].
    assert (I : In x (filter (fun m => str_eqb (Miner.miner_external_id m) (c :: e))
                             (miners (txn s')))) by (rewrite F; now left).
    apply filter_In in I as [_ I]. now apply str_eqb_eq in I.
Qed.

(** ** The books of a run *)

Ltac books :=
  unfold ledger, bumped, in_session, flushed_seed, flushed_variation, flushed_miner,
    flushed_observation;
  cbn; rewrite ?length_app; cbn [List.length];
  repeat (f_equal; try lia).

Section Books.
Context `{Platform}.

Lemma ledger_ingest_record (batch : Batch.t) (src_file : option SourceFile.t)
  (dry_run : bool) (rec : dict) :
  kept_on_return (ledger dry_run) (ingest_record batch src_file dry_run rec).
Proof.
  intros r n r' E. apply ingest_record_returned in E as [(_ & _ & ->)|(_ & _ & E)].
  - destruct dry_run; books.
  - cbv zeta in E.
    destruct E as (hs & hv & sd & r1 & var & r2 & miner & s3 & _ & _ & Es & Ev & Em & ->).
    assert (M : ledger dry_run
                  (bumped c_observations_inserted
                     (in_session
                        (if dry_run then s3
                         else flushed_observation
                                (observation_row (next_observation (seqs s3)) sd var miner
                                                 batch src_file rec) s3) r2))
                = ledger dry_run
                    (bumped c_observations_inserted
                       (in_session
                          (if dry_run then session r2
                           else flushed_observation
                                  (observation_row (next_observation (seqs (session r2)))
                                                   sd var miner batch src_file rec)
                                  (session r2)) r2))).
    { destruct (truthy (get rec (lit "miner_ext_id"))) eqn:T.
      - apply miner_step in Em; [|exact T].
        destruct Em as (e & m & _ & _ & _ & _ & [[_ ->]|(_ & _ & ->)]); [reflexivity|].
        destruct dry_run; books.
      - destruct Em as [_ ->]. reflexivity. }
    rewrite M. clear M Em.
    apply seed_step in Es as [[_ ->]|(_ & _ & _ & ->)];
      apply variation_step in Ev as [[_ ->]|(_ & _ & ->)];
      destruct dry_run; books.
Qed.

End Books.

Section FileBooks.
Context `{Platform}.

Lemma ledger_ingest_records (batch : Batch.t) (src_file : option SourceFile.t)
  (dry_run : bool) (recs : list dict) (n : nat) :
  kept_on_return (ledger dry_run) (ingest_records batch src_file dry_run recs n).
Proof.
  revert n. induction recs as [|rec recs IH]; intros n; cbn [ingest_records].
  - apply kept_ret.
  - apply kept_bind; [apply ledger_ingest_record|]. intros k. apply IH.
Qed.

Lemma ledger_ingest_file (parser : adapter) (batch : Batch.t) (dry_run resume : bool)
  (path : Path) :
  kept_on_return (ledger dry_run) (ingest_file parser batch dry_run resume path).
Proof.
  intros r [] r' E. apply ingest_file_returned in E as [C|[C|C]].
  - destruct C as [_ ->]. reflexivity.
  - destruct C as (_ & _ & -> & _). destruct dry_run; books.
  - destruct C as (_ & _ & [[_ ->]|(data & src & r1 & _ & Ec & Ep)]).
    + destruct dry_run; books.
    + apply process_records_returned in Ep as (n & r2 & Er & Em & _ & Et & _).
      apply ledger_ingest_records in Er.
      unfold ledger in *. rewrite Em, Et. clear Em Et.
      destruct dry_run.
      * unfold create_source_file in Ec. cbn in Ec. inversion Ec; subst.
        injection Er as E1 E2 E3 E4 E5 E6. cbn. repeat (f_equal; try lia).
      * rewrite create_source_file_returned in Ec. inversion Ec; subst. clear Ec.
        cbn in Er. rewrite length_app in Er. cbn [List.length] in Er.
        injection Er as E1 E2 E3 E4 E5 E6.
        cbn. rewrite ?length_map. repeat (f_equal; try lia).
Qed.

Lemma ledger_ingest_files (parser : adapter) (batch : Batch.t) (dry_run resume : bool)
  (files : list Path) :
  kept_on_return (ledger dry_run)
                 (for_each files (ingest_file parser batch dry_run resume)).
Proof. apply kept_for_each. intros f _. apply ledger_ingest_file. Qed.

Lemma ledger_get_or_create_batch (dry_run : bool) (name : str) (r : Run) (b : Batch.t)
  (r' : Run) :
  on_session (_get_or_create_batch name) r = Returned b r' ->
  ledger dry_run r' = ledger dry_run r
  /\ committed (session r') = committed (session r)
  /\ seeds (txn (session r')) = seeds (txn (session r))
  /\ variations (txn (session r')) = variations (txn (session r))
  /\ miners (txn (session r')) = miners (txn (session r))
  /\ source_files (txn (session r')) = source_files (txn (session r))
  /\ observations (txn (session r')) = observations (txn (session r)).
Proof.
  intros E. apply on_session_returned in E as (s' & E & ->).
  pose proof (get_or_create_batch_outcome name (session r)) as O.
  destruct (filter (batch_has name) (batches (txn (session r)))) as [|x [|y l]];
    rewrite O in E; [| |discriminate]; inversion E; subst; now repeat split.
Qed.

Lemma ingest_file_synced_rows (parser : adapter) (batch : Batch.t) (resume : bool)
  (path : Path) (r r' : Run) :
  ingest_file parser batch false resume path r = Returned tt r' ->
  synced_rows (session r) -> synced_rows (session r').
Proof.
  intros E S. apply ingest_file_synced in E as [E| ->]; [|exact S].
  unfold synced_rows. rewrite E. now repeat split.
Qed.

Lemma ingest_files_synced_rows (parser : adapter) (batch : Batch.t) (resume : bool)
  (files : list Path) (r r' : Run) :
  for_each files (ingest_file parser batch false resume) r = Returned tt r' ->
  synced_rows (session r) -> synced_rows (session r').
Proof.
  revert r. induction files as [|f files IH]; intros r E S.
  - inversion E. now subst.
  - cbn [for_each] in E. apply bind_returned in E as ([] & r1 & E1 & E).
    apply (IH r1 E). eapply ingest_file_synced_rows; eassumption.
Qed.

(** What a run of [ingest_batch] that returned went through. *)
Lemma ingest_batch_returned (db : Database) (batch_name : str) (files : list Path)
  (adapter_name : str) (dry_run resume : bool) (workers : nat) (m : Metrics)
  (db' : Database) :
  ingest_batch db batch_name files adapter_name dry_run resume workers = (inr m, db') ->
  exists parser batch r1 r2,
    lookup _REGISTRY adapter_name = Some parser
    /\ on_session (_get_or_create_batch batch_name)
         {| session := open_session db; metrics := Metrics_init |}
       = Returned batch r1
    /\ for_each files (ingest_file parser batch dry_run resume) r1 = Returned tt r2
    /\ m = metrics r2
    /\ db' = close_session (session r2).
Proof.
  unfold ingest_batch.
  destruct (ingest_batch_body _ _ _ _ _ _ _) as [m' r|e r] eqn:B; [|discriminate].
  intros E. inversion E; subst; clear E.
  unfold ingest_batch_body in B.
  apply bind_returned in B as (parser & r0 & Ea & B).
  unfold get_adapter in Ea. destruct (lookup _REGISTRY adapter_name) as [a|] eqn:L;
    [|discriminate]. inversion Ea; subst; clear Ea.
  apply bind_returned in B as (batch & r1 & Eb & B).
  apply bind_returned in B as ([] & r2 & Ef & B).
  inversion B; subst; clear B.
  exists parser, batch, r1, r. now repeat split.
Qed.

(** X14.  The Metrics of a run that returns balance: every accepted
    record was looked up once as a seed and once as a variation, so
    [seeds_new + seeds_existing] and [variations_new +
    variations_existing] both equal [observations_inserted], dry run or
    not. *)
Theorem metrics_balance :
  forall (db : Database) (batch_name : str) (files : list Path) (adapter_name : str)
         (dry_run resume : bool) (workers : nat) (m : Metrics),
    fst (ingest_batch db batch_name files adapter_name dry_run resume workers) = inr m ->
    seeds_new m + seeds_existing m = observations_inserted m
    /\ variations_new m + variations_existing m = observations_inserted m.
Proof.
  intros db bn files an dry resume workers m E.
  destruct (ingest_batch db bn files an dry resume workers) as [res db'] eqn:B.
  cbn [fst] in E. subst res.
  apply ingest_batch_returned in B as (parser & batch & r1 & r2 & _ & Eb & Ef & -> & _).
  apply (ledger_get_or_create_batch dry) in Eb as (L1 & _).
  apply ledger_ingest_files in Ef. rewrite L1 in Ef. unfold ledger in Ef.
  injection Ef as _ _ _ _ E5 E6. cbn in E5, E6. lia.
Qed.

(** X15.  The Metrics of a run that returns and is no dry run count what
    the run stored: the Seed table has [seeds_new] more rows than before,
    the Variation table [variations_new] more, the Observation table
    [observations_inserted] more and the SourceFile table
    [files_processed] more. *)
Theorem metrics_count_stored_rows :
  forall (db : Database) (batch_name : str) (files : list Path) (adapter_name : str)
         (resume : bool) (workers : nat) (m : Metrics) (db' : Database),
    ingest_batch db batch_name files adapter_name false resume workers = (inr m, db') ->
    List.length (seeds (stored db')) = List.length (seeds (stored db)) + seeds_new m
    /\ List.length (variations (stored db'))
       = List.length (variations (stored db)) + variations_new m
    /\ List.length (observations (stored db'))
       = List.length (observations (stored db)) + observations_inserted m
    /\ List.length (source_files (stored db'))
       = List.length (source_files (stored db)) + files_processed m.
Proof.
  intros db bn files an resume workers m db' B.
  apply ingest_batch_returned in B as (parser & batch & r1 & r2 & _ & Eb & Ef & -> & ->).
  apply (ledger_get_or_create_batch false) in Eb
    as (L1 & C1 & S1 & S2 & S3 & S4 & S5).
  assert (Sy : synced_rows (session r2)).
  { eapply ingest_files_synced_rows; [exact Ef|]. unfold synced_rows.
    rewrite C1, S1, S2, S3, S4, S5. now repeat split. }
  destruct Sy as (Y1 & Y2 & _ & Y4 & Y5).
  apply ledger_ingest_files in Ef. rewrite L1 in Ef. unfold ledger in Ef.
  injection Ef as E1 E2 E3 E4 _ _. cbn in E1, E2, E3, E4.
  cbn [close_session stored]. rewrite Y1, Y2, Y4, Y5. lia.
Qed.

End FileBooks.

(** ** The record count of a file *)

Section RecordCount.
Context `{Platform}.

Lemma ingest_file_processed (parser : adapter) (batch : Batch.t) (dry_run resume : bool)
  (path : Path) (data : pyval) (r : Run) :
  is_file path = true ->
  load_json path = Some data ->
  resume = false \/ resume_rows batch (compute_checksum path) r = [] ->
  ingest_file parser batch dry_run resume path r
  = bind (create_source_file batch dry_run path (compute_checksum path))
         (fun src_file => process_records parser batch dry_run src_file data) r.
Proof.
  intros F L P. unfold ingest_file. rewrite F. cbn [negb]. unfold bind at 1.
  rewrite check_resume_pass by exact P. now rewrite L.
Qed.

(** X16.  The [record_count] of a SourceFile row is the number of the
    file's records that passed validation, not the number the adapter
    yielded: when a regular file that loads and is not skipped has been
    gone through outside dry run, its row is committed with that count,
    and [observations_inserted] has grown by the same number. *)
Theorem record_count_is_accepted_records :
  forall (parser : adapter) (batch : Batch.t) (resume : bool) (path : Path)
         (data : pyval) (r r' : Run),
    is_file path = true ->
    load_json path = Some data ->
    resume = false \/ resume_rows batch (compute_checksum path) r = [] ->
    ingest_file parser batch false resume path r = Returned tt r' ->
    In (with_record_count (accepted (parser data))
          (source_file_row (next_source_file (seqs (session r))) batch path
                           (compute_checksum path)))
       (source_files (committed (session r')))
    /\ observations_inserted (metrics r')
       = observations_inserted (metrics r) + accepted (parser data)
    /\ accepted (parser data) <= List.length (parser data).
Proof.
  intros parser batch resume path data r r' F L P E.
  rewrite (@ingest_file_processed parser batch false resume path data r F L P) in E.
  apply bind_returned in E as (src & r1 & Ec & E).
  rewrite create_source_file_returned in Ec. inversion Ec; subst src r1; clear Ec.
  apply process_records_returned in E as (n & r2 & Er & Em & _ & Et & Ec).
  pose proof (ingest_records_counts _ _ _ _ _ _ Er) as [-> Ko].
  apply ingest_records_keeps_files in Er as (Sf & _ & _).
  cbn [source_files txn session] in Sf. split; [|split].
  - rewrite Ec, Et. cbn [source_files]. rewrite Sf. apply in_map_iff.
    exists (source_file_row (next_source_file (seqs (session r))) batch path
                            (compute_checksum path)).
    split; [|apply in_or_app; right; now left].
    cbn [source_file_row SourceFile.id]. now rewrite Nat.eqb_refl.
  - rewrite Em. cbn [metrics] in Ko. cbn. lia.
  - unfold accepted. apply filter_length_le.
Qed.

End RecordCount.

(** ** A run that processes no file *)

Section NoFile.
Context `{Platform}.

Lemma committed_unprocessed_file (c0 : Tables) (parser : adapter) (batch : Batch.t)
  (dry_run resume : bool) (path : Path) :
  is_file path = false \/ load_json path = None ->
  inv (of_session (committed_is c0)) (ingest_file parser batch dry_run resume path).
Proof.
  intros U. unfold ingest_file.
  destruct (is_file path); cbn [negb]; [|apply inv_ret].
  destruct U as [U|U]; [discriminate|]. rewrite U.
  unfold check_resume. inv_steps.
Qed.

Lemma unprocessed_file_returned (parser : adapter) (batch : Batch.t)
  (dry_run resume : bool) (path : Path) (r r' : Run) :
  is_file path = false \/ load_json path = None ->
  ingest_file parser batch dry_run resume path r = Returned tt r' ->
  session r' = session r
  /\ ((is_file path = false /\ metrics r' = metrics r)
      \/ (is_file path = true
          /\ (metrics r' = incr c_files_skipped (metrics r)
              \/ metrics r' = incr c_invalid_records (metrics r)))).
Proof.
  intros U E. apply ingest_file_returned in E as [C|[C|C]].
  - destruct C as [F ->]. split; [reflexivity|now left].
  - destruct C as (F & _ & -> & _). split; [reflexivity|]. right. split; [exact F|now left].
  - destruct C as (F & _ & [[_ ->]|(data & src & r1 & L & _)]).
    + split; [reflexivity|]. right. split; [exact F|now right].
    + destruct U as [U|U]; congruence.
Qed.

Lemma unprocessed_files_returned (parser : adapter) (batch : Batch.t)
  (dry_run resume : bool) (files : list Path) (r r' : Run) :
  (forall f, In f files -> is_file f = false \/ load_json f = None) ->
  for_each files (ingest_file parser batch dry_run resume) r = Returned tt r' ->
  session r' = session r
  /\ seeds_new (metrics r') = seeds_new (metrics r)
  /\ seeds_existing (metrics r') = seeds_existing (metrics r)
  /\ variations_new (metrics r') = variations_new (metrics r)
  /\ variations_existing (metrics r') = variations_existing (metrics r)
  /\ observations_inserted (metrics r') = observations_inserted (metrics r)
  /\ files_processed (metrics r') = files_processed (metrics r)
  /\ files_skipped (metrics r') + invalid_records (metrics r')
     = files_skipped (metrics r) + invalid_records (metrics r)
       + List.length (filter is_file files).
Proof.
  revert r. induction files as [|f files IH]; intros r U E.
  - inversion E; subst. cbn. repeat split; lia.
  - cbn [for_each] in E. apply bind_returned in E as ([] & r1 & E1 & E).
    apply IH in E; [|intros g Ig; apply U; now right].
    apply unprocessed_file_returned in E1; [|apply U; now left].
    destruct E as (S & A1 & A2 & A3 & A4 & A5 & A6 & A7).
    destruct E1 as (S1 & [[F M]|[F [M|M]]]);
      rewrite S, S1, A1, A2, A3, A4, A5, A6, A7, M; cbn [filter]; rewrite F;
      cbn; repeat split; lia.
Qed.

(** X17.  A run in which no file is processed stores nothing, not even
    the Batch row it created: when every path is no regular file or
    holds content that does not load as JSON, the stored tables are left
    as they were, however the run ends and dry run or not; and if it
    returns, every regular file was counted once, in [invalid_records]
    or in [files_skipped], and every other counter is 0.  The empty list
    of files is a case of it. *)
Theorem unprocessed_batch_stores_nothing :
  forall (db : Database) (batch_name : str) (files : list Path) (adapter_name : str)
         (dry_run resume : bool) (workers : nat),
    (forall f, In f files -> is_file f = false \/ load_json f = None) ->
    stored (snd (ingest_batch db batch_name files adapter_name dry_run resume workers))
    = stored db
    /\ forall m : Metrics,
         fst (ingest_batch db batch_name files adapter_name dry_run resume workers) = inr m ->
         seeds_new m = 0 /\ seeds_existing m = 0 /\ variations_new m = 0
         /\ variations_existing m = 0 /\ observations_inserted m = 0
         /\ files_processed m = 0
         /\ files_skipped m + invalid_records m = List.length (filter is_file files).
Proof.
  intros db bn files an dry resume workers U. split.
  - assert (I : inv (of_session (committed_is (stored db)))
                    (ingest_batch_body bn files an dry resume workers)).
    { unfold ingest_batch_body. inv_steps.
      - unfold _get_or_create_batch. inv_steps. apply committed_add_batch.
      - apply inv_for_each. intros f If. apply committed_unprocessed_file. now apply U. }
    specialize (I {| session := open_session db; metrics := Metrics_init |} eq_refl).
    unfold ingest_batch.
    destruct (ingest_batch_body bn files an dry resume workers _); exact I.
  - intros m E.
    destruct (ingest_batch db bn files an dry resume workers) as [res db'] eqn:B.
    cbn [fst] in E. subst res.
    apply ingest_batch_returned in B as (parser & batch & r1 & r2 & _ & Eb & Ef & -> & _).
    apply on_session_returned in Eb as (s' & _ & ->).
    apply unprocessed_files_returned in Ef; [|exact U].
    cbn [metrics in_session Metrics_init seeds_new seeds_existing variations_new
         variations_existing observations_inserted files_processed files_skipped
         invalid_records] in Ef.
    destruct Ef as (_ & A1 & A2 & A3 & A4 & A5 & A6 & A7). repeat split; lia.
Qed.

End NoFile.

(** ** Rules for computations that may raise *)

Section TripleRules.
Context {S : Type}.

Lemma triple_ret {A} (P : S -> Prop) (a : A) (Q : A -> S -> Prop) (E : exn -> S -> Prop) :
  (forall s, P s -> Q a s) -> triple P (ret a) Q E.
Proof. intros H s Ps. now apply H. Qed.

Lemma triple_raise {A} (P : S -> Prop) (e : exn) (Q : A -> S -> Prop)
  (E : exn -> S -> Prop) :
  (forall s, P s -> E e s) -> triple P (@raise S A e) Q E.
Proof. intros H s Ps. now apply H. Qed.

Lemma triple_bind {A B} (P : S -> Prop) (m : M S A) (k : A -> M S B)
  (R : A -> S -> Prop) (Q : B -> S -> Prop) (E : exn -> S -> Prop) :
  triple P m R E -> (forall a, triple (R a) (k a) Q E) -> triple P (bind m k) Q E.
Proof.
  intros Hm Hk s Ps. unfold bind. specialize (Hm s Ps).
  destruct (m s) as [a s'|e s']; [now apply Hk|exact Hm].
Qed.

Lemma triple_conseq {A} (P P' : S -> Prop) (m : M S A) (Q Q' : A -> S -> Prop)
  (E E' : exn -> S -> Prop) :
  triple P' m Q' E' -> (forall s, P s -> P' s) -> (forall a s, Q' a s -> Q a s) ->
  (forall e s, E' e s -> E e s) -> triple P m Q E.
Proof.
  intros H HP HQ HE s Ps. specialize (H s (HP s Ps)).
  destruct (m s); auto.
Qed.

Lemma triple_for_each {A} (I : S -> Prop) (E : exn -> S -> Prop) (l : list A)
  (body : A -> M S unit) :
  (forall x, In x l -> triple I (body x) (fun _ => I) E) ->
  triple I (for_each l body) (fun _ => I) E.
Proof.
  induction l as [|x l IH]; intros H; [now apply triple_ret|].
  cbn [for_each]. apply triple_bind with (R := fun _ => I); [apply H; now left|].
  intros u. apply IH. intros y Iy. apply H. now right.
Qed.

End TripleRules.

Lemma bind_eq_returned {S A B} (m : M S A) (k : A -> M S B) (s : S) (a : A) (s1 : S) :
  m s = Returned a s1 -> bind m k s = k a s1.
Proof. intros E. unfold bind. now rewrite E. Qed.

Lemma bind_eq_raised {S A B} (m : M S A) (k : A -> M S B) (s : S) (e : exn) (s1 : S) :
  m s = Raised e s1 -> bind m k s = Raised e s1.
Proof. intros E. unfold bind. now rewrite E. Qed.

(** ** Keys that are unique *)

Lemma unique_key_filter {A} (key : A -> str) (l : list A) (k : str) :
  NoDup (map key l) ->
  match filter (fun y => str_eqb (key y) k) l with
  | _ :: _ :: _ => False
  | _ => True
  end.
Proof.
  induction l as [|x l IH]; intros U; [exact I|].
  cbn [map] in U. inversion U as [|? ? Nx Ul]; subst. specialize (IH Ul).
  cbn [filter]. destruct (str_eqb (key x) k) eqn:E; [|exact IH].
  apply str_eqb_eq in E.
  destruct (filter (fun y => str_eqb (key y) k) l) as [|y rest] eqn:F; [exact I|].
  apply Nx.
  assert (Iy : In y (filter (fun y => str_eqb (key y) k) l)) by (rewrite F; now left).
  apply filter_In in Iy as [Iy Ky]. apply str_eqb_eq in Ky.
  rewrite E, <- Ky. now apply in_map.
Qed.

Lemma unique_variation_key_filter (l : list Variation.t) (sid : nat) (norm : str) :
  NoDup (map variation_key l) ->
  match filter (variation_has sid norm) l with
  | _ :: _ :: _ => False
  | _ => True
  end.
Proof.
  induction l as [|x l IH]; intros U; [exact I|].
  cbn [map] in U. inversion U as [|? ? Nx Ul]; subst. specialize (IH Ul).
  cbn [filter]. destruct (variation_has sid norm x) eqn:E; [|exact IH].
  destruct (filter (variation_has sid norm) l) as [|y rest] eqn:F; [exact I|].
  apply Nx.
  assert (Iy : In y (filter (variation_has sid norm) l)) by (rewrite F; now left).
  apply filter_In in Iy as [Iy Ky].
  unfold variation_has in E, Ky.
  apply andb_true_iff in E as [E1 E2]. apply andb_true_iff in Ky as [K1 K2].
  apply Nat.eqb_eq in E1. apply Nat.eqb_eq in K1.
  apply str_eqb_eq in E2. apply str_eqb_eq in K2.
  replace (variation_key x) with (variation_key y);
    [now apply in_map|unfold variation_key; congruence].
Qed.

Lemma filter_nil_not_in {A} (key : A -> str) (l : list A) (k : str) :
  filter (fun y => str_eqb (key y) k) l = [] -> ~ In k (map key l).
Proof.
  intros F I. apply in_map_iff in I as (y & <- & Iy).
  assert (In y (filter (fun z => str_eqb (key z) (key y)) l))
    by (apply filter_In; split; [exact Iy|apply str_eqb_refl]).
  rewrite F in *. contradiction.
Qed.

(** ** Rows that fit together, and tables that grow *)

Section Sound.
Context `{Platform}.

Lemma variation_sound_grows (t t' : Tables) (v : Variation.t) :
  incl (map Seed.id (seeds t)) (map Seed.id (seeds t')) ->
  variation_sound t v -> variation_sound t' v.
Proof. intros I [Hh Hs]. split; [exact Hh|now apply I]. Qed.

Lemma observation_sound_grows (t t' : Tables) (o : Observation.t) :
  incl (map Seed.id (seeds t)) (map Seed.id (seeds t')) ->
  incl (map (fun v => (Variation.id v, Variation.seed_id v)) (variations t))
       (map (fun v => (Variation.id v, Variation.seed_id v)) (variations t')) ->
  incl (map Miner.id (miners t)) (map Miner.id (miners t')) ->
  incl (map Batch.id (batches t)) (map Batch.id (batches t')) ->
  incl (map file_key (source_files t)) (map file_key (source_files t')) ->
  observation_sound t o -> observation_sound t' o.
Proof.
  intros I1 I2 I3 I4 I5 (O1 & O2 & O3 & (b & f & Ob & Of & Ib & If) & O5 & O6).
  split; [now apply I1|]. split; [now apply I2|].
  split; [intros m Hm; now apply I3, O3|].
  split; [|now split].
  exists b, f. repeat split; auto.
Qed.

Lemma incl_map_app {A B} (g : A -> B) (l : list A) (x : A) :
  incl (map g l) (map g (l ++ [x])).
Proof. rewrite map_app. now apply incl_appl, incl_refl. Qed.

Lemma Forall_snoc {A} (P : A -> Prop) (l : list A) (x : A) :
  Forall P l -> P x -> Forall P (l ++ [x]).
Proof. intros Hl Hx. apply Forall_app. split; [exact Hl|now constructor]. Qed.

Lemma NoDup_map_snoc {A B} (g : A -> B) (l : list A) (x : A) :
  NoDup (map g l) -> ~ In (g x) (map g l) -> NoDup (map g (l ++ [x])).
Proof. intros U N. rewrite map_app. cbn [map]. now apply NoDup_snoc. Qed.

Ltac grow :=
  repeat match goal with
         | |- incl ?l ?l => apply incl_refl
         | |- incl (map _ ?l) (map _ (?l ++ [_])) => apply incl_map_app
         end.

Lemma sound_add_seed (t : Tables) (row : Seed.t) :
  sound_tables t -> seed_sound row -> ~ In (seed_key row) (map seed_key (seeds t)) ->
  sound_tables {| seeds := seeds t ++ [row]; variations := variations t;
                  miners := miners t; batches := batches t;
                  source_files := source_files t; observations := observations t |}.
Proof.
  intros (S1 & S2 & S3 & S4 & S5 & U1 & U2 & U3 & U4) Hr Nr.
  unfold sound_tables. cbn [seeds variations miners batches source_files observations].
  repeat match goal with |- _ /\ _ => split end; try assumption.
  - now apply Forall_snoc.
  - eapply Forall_impl; [|exact S2]. intros v. apply variation_sound_grows. cbn. grow.
  - eapply Forall_impl; [|exact S3]. intros o. apply observation_sound_grows; cbn; grow.
  - now apply NoDup_map_snoc.
Qed.

Lemma sound_add_variation (t : Tables) (row : Variation.t) :
  sound_tables t -> variation_sound t row ->
  ~ In (variation_key row) (map variation_key (variations t)) ->
  sound_tables {| seeds := seeds t; variations := variations t ++ [row];
                  miners := miners t; batches := batches t;
                  source_files := source_files t; observations := observations t |}.
Proof.
  intros (S1 & S2 & S3 & S4 & S5 & U1 & U2 & U3 & U4) Hr Nr.
  unfold sound_tables. cbn [seeds variations miners batches source_files observations].
  repeat match goal with |- _ /\ _ => split end; try assumption.
  - apply Forall_snoc; [|exact Hr]. exact S2.
  - eapply Forall_impl; [|exact S3]. intros o. apply observation_sound_grows; cbn; grow.
  - now apply NoDup_map_snoc.
Qed.

Lemma sound_add_miner (t : Tables) (row : Miner.t) :
  sound_tables t -> Miner.miner_external_id row <> [] ->
  ~ In (Miner.miner_external_id row) (map Miner.miner_external_id (miners t)) ->
  sound_tables {| seeds := seeds t; variations := variations t;
                  miners := miners t ++ [row]; batches := batches t;
                  source_files := source_files t; observations := observations t |}.
Proof.
  intros (S1 & S2 & S3 & S4 & S5 & U1 & U2 & U3 & U4) Hr Nr.
  unfold sound_tables. cbn [seeds variations miners batches source_files observations].
  repeat match goal with |- _ /\ _ => split end; try assumption.
  - eapply Forall_impl; [|exact S3]. intros o. apply observation_sound_grows; cbn; grow.
  - now apply Forall_snoc.
  - now apply NoDup_map_snoc.
Qed.

Lemma sound_add_batch (t : Tables) (row : Batch.t) :
  sound_tables t ->
  ~ In (Batch.batch_name row) (map Batch.batch_name (batches t)) ->
  sound_tables {| seeds := seeds t; variations := variations t;
                  miners := miners t; batches := batches t ++ [row];
                  source_files := source_files t; observations := observations t |}.
Proof.
  intros (S1 & S2 & S3 & S4 & S5 & U1 & U2 & U3 & U4) Nr.
  unfold sound_tables. cbn [seeds variations miners batches source_files observations].
  repeat match goal with |- _ /\ _ => split end; try assumption.
  - eapply Forall_impl; [|exact S3]. intros o. apply observation_sound_grows; cbn; grow.
  - eapply Forall_impl; [|exact S4]. intros f. cbn beta. apply incl_map_app.
  - now apply NoDup_map_snoc.
Qed.

Lemma sound_add_source_file (t : Tables) (row : SourceFile.t) :
  sound_tables t -> In (SourceFile.batch_id row) (map Batch.id (batches t)) ->
  sound_tables {| seeds := seeds t; variations := variations t;
                  miners := miners t; batches := batches t;
                  source_files := source_files t ++ [row];
                  observations := observations t |}.
Proof.
  intros (S1 & S2 & S3 & S4 & S5 & U1 & U2 & U3 & U4) Hr.
  unfold sound_tables. cbn [seeds variations miners batches source_files observations].
  repeat match goal with |- _ /\ _ => split end; try assumption.
  - eapply Forall_impl; [|exact S3]. intros o. apply observation_sound_grows; cbn; grow.
  - now apply Forall_snoc.
Qed.

Lemma sound_add_observation (t : Tables) (row : Observation.t) :
  sound_tables t -> observation_sound t row ->
  sound_tables {| seeds := seeds t; variations := variations t;
                  miners := miners t; batches := batches t;
                  source_files := source_files t;
                  observations := observations t ++ [row] |}.
Proof.
  intros (S1 & S2 & S3 & S4 & S5 & U1 & U2 & U3 & U4) Hr.
  unfold sound_tables. cbn [seeds variations miners batches source_files observations].
  repeat match goal with |- _ /\ _ => split end; try assumption.
  apply Forall_snoc; [exact S3|exact Hr].
Qed.

Lemma file_key_counted (id n : nat) (l : list SourceFile.t) :
  map file_key (map (fun row => if Nat.eqb (SourceFile.id row) id
                                then with_record_count n row else row) l)
  = map file_key l.
Proof.
  rewrite map_map. apply map_ext. intros f.
  now destruct (Nat.eqb (SourceFile.id f) id).
Qed.

Lemma sound_set_record_count (t : Tables) (id n : nat) :
  sound_tables t ->
  sound_tables {| seeds := seeds t; variations := variations t;
                  miners := miners t; batches := batches t;
                  source_files :=
                    map (fun row => if Nat.eqb (SourceFile.id row) id
                                    then with_record_count n row else row)
                        (source_files t);
                  observations := observations t |}.
Proof.
  intros (S1 & S2 & S3 & S4 & S5 & U1 & U2 & U3 & U4).
  unfold sound_tables. cbn [seeds variations miners batches source_files observations].
  repeat match goal with |- _ /\ _ => split end; try assumption.
  - eapply Forall_impl; [|exact S3]. intros o.
    apply observation_sound_grows; cbn; try apply incl_refl.
    rewrite file_key_counted. apply incl_refl.
  - apply Forall_forall. intros f If. apply in_map_iff in If as (g & <- & Ig).
    rewrite Forall_forall in S4. specialize (S4 g Ig).
    now destruct (Nat.eqb (SourceFile.id g) id).
Qed.

End Sound.

(** ** The steps of a record keep the rows sound *)

Section SoundSteps.
Context `{Platform}.

Lemma md5_hex_outcome {S} (text : str) (s : S) :
  md5_hex text s
  = match Utf8.encode text with
    | Some bytes => Returned (md5_hexdigest bytes) s
    | None => Raised UnicodeEncodeError s
    end.
Proof. unfold md5_hex. now destruct (Utf8.encode text). Qed.

Lemma md5_hex_hashed {S} (raw : str) (s : S) (h : str) (s' : S) :
  md5_hex (normalize_text raw false) s = Returned h s' ->
  hashed raw (normalize_text raw false) h.
Proof.
  rewrite md5_hex_outcome. destruct (Utf8.encode _) as [bytes|] eqn:E; [|discriminate].
  intros R. inversion R; subst. split; [reflexivity|]. now exists bytes.
Qed.

Lemma seed_never_clashes (t : Tables) (raw norm h : str) :
  sound_tables t -> hashed raw norm h ->
  filter (seed_has norm) (seeds t) = [] ->
  filter (fun x => str_eqb (Seed.seed_text x) raw) (seeds t) = [].
Proof.
  intros (S1 & _) [Hn _] F.
  destruct (filter (fun x => str_eqb (Seed.seed_text x) raw) (seeds t)) as [|x l] eqn:G;
    [reflexivity|].
  assert (Ix : In x (filter (fun x => str_eqb (Seed.seed_text x) raw) (seeds t)))
    by (rewrite G; now left).
  apply filter_In in Ix as [Ix Kx]. apply str_eqb_eq in Kx.
  rewrite Forall_forall in S1. destruct (S1 x Ix) as [Nx _].
  assert (In x (filter (seed_has norm) (seeds t))).
  { apply filter_In. split; [exact Ix|]. unfold seed_has. apply str_eqb_eq. congruence. }
  rewrite F in *. contradiction.
Qed.

Lemma sound_seed_outcome (raw norm h : str) (r : Run) :
  sound_session (session r) -> hashed raw norm h ->
  exists sd r1,
    _get_or_create_seed raw norm h r = Returned sd r1
    /\ sound_session (session r1)
    /\ In (Seed.id sd) (map Seed.id (seeds (txn (session r1))))
    /\ variations (txn (session r1)) = variations (txn (session r))
    /\ miners (txn (session r1)) = miners (txn (session r))
    /\ batches (txn (session r1)) = batches (txn (session r))
    /\ source_files (txn (session r1)) = source_files (txn (session r)).
Proof.
  intros [Jc Jt] Hh. pose proof (get_or_create_seed_outcome raw norm h r) as O.
  pose proof (seed_never_clashes Jt Hh) as Nc.
  destruct Jt as (S1 & S2 & S3 & S4 & S5 & U1 & U2 & U3 & U4).
  pose proof (unique_key_filter Seed.normalized_seed (seeds (txn (session r))) norm U1)
    as Uf.
  change (fun y : Seed.t => str_eqb (Seed.normalized_seed y) norm) with (seed_has norm)
    in Uf.
  destruct (filter (seed_has norm) (seeds (txn (session r)))) as [|x [|y l]] eqn:F;
    [|clear Nc|contradiction].
  - rewrite (Nc eq_refl) in O. cbv zeta in O. eexists. eexists. split; [exact O|].
    cbn [session in_session flushed_seed txn committed seeds variations miners batches
         source_files].
    split; [|split; [|now repeat split]].
    + split; [exact Jc|]. apply sound_add_seed.
      * now repeat split.
      * exact Hh.
      * cbn [seed_key Seed.normalized_seed].
        apply (filter_nil_not_in Seed.normalized_seed). exact F.
    + rewrite map_app. apply in_or_app. right. now left.
  - exists x, (bumped c_seeds_existing r). split; [exact O|].
    cbn [session bumped]. split; [|split; [|now repeat split]].
    + split; [exact Jc|]. now repeat split.
    + apply in_map.
      assert (Ix : In x (filter (seed_has norm) (seeds (txn (session r)))))
        by (rewrite F; now left).
      now apply filter_In in Ix as [Ix _].
Qed.

Lemma sound_variation_outcome (sd : Seed.t) (raw norm h : str) (r : Run) :
  sound_session (session r) -> hashed raw norm h ->
  In (Seed.id sd) (map Seed.id (seeds (txn (session r)))) ->
  exists v r1,
    _get_or_create_variation sd raw norm h r = Returned v r1
    /\ sound_session (session r1)
    /\ In (Variation.id v, Seed.id sd)
          (map (fun v => (Variation.id v, Variation.seed_id v))
               (variations (txn (session r1))))
    /\ seeds (txn (session r1)) = seeds (txn (session r))
    /\ miners (txn (session r1)) = miners (txn (session r))
    /\ batches (txn (session r1)) = batches (txn (session r))
    /\ source_files (txn (session r1)) = source_files (txn (session r)).
Proof.
  intros [Jc Jt] Hh Is. pose proof (get_or_create_variation_outcome sd raw norm h r) as O.
  destruct Jt as (S1 & S2 & S3 & S4 & S5 & U1 & U2 & U3 & U4).
  pose proof (unique_variation_key_filter (variations (txn (session r))) (Seed.id sd)
                norm U2) as Uf.
  destruct (filter (variation_has (Seed.id sd) norm) (variations (txn (session r))))
    as [|x [|y l]] eqn:F; [| |contradiction].
  - cbv zeta in O. eexists. eexists. split; [exact O|].
    cbn [session in_session flushed_variation txn committed seeds variations miners
         batches source_files].
    split; [|split; [|now repeat split]].
    + split; [exact Jc|]. apply sound_add_variation.
      * now repeat split.
      * split; [exact Hh|exact Is].
      * cbn [variation_key Variation.seed_id Variation.normalized_variation].
        now apply variation_filter_nil.
    + rewrite map_app. apply in_or_app. right. now left.
  - exists x, (bumped c_variations_existing r). split; [exact O|].
    cbn [session bumped]. split; [|split; [|now repeat split]].
    + split; [exact Jc|]. now repeat split.
    + assert (Ix : In x (filter (variation_has (Seed.id sd) norm)
                                (variations (txn (session r)))))
        by (rewrite F; now left).
      apply filter_In in Ix as [Ix Kx]. unfold variation_has in Kx.
      apply andb_true_iff in Kx as [Kx _]. apply Nat.eqb_eq in Kx. rewrite <- Kx.
      now apply (in_map (fun v => (Variation.id v, Variation.seed_id v))).
Qed.

Lemma sound_miner_outcome (ext_id : pyval) (s : Session) :
  sound_session s ->
  ext_id = PNone \/ (exists m, ext_id = PStr m) ->
  exists miner s1,
    _get_or_create_miner ext_id s = Returned miner s1
    /\ sound_session s1
    /\ (forall m, option_map Miner.id miner = Some m ->
                  In m (map Miner.id (miners (txn s1))))
    /\ seeds (txn s1) = seeds (txn s)
    /\ variations (txn s1) = variations (txn s)
    /\ batches (txn s1) = batches (txn s)
    /\ source_files (txn s1) = source_files (txn s).
Proof.
  intros [Jc Jt] C. pose proof (get_or_create_miner_outcome ext_id s) as O.
  destruct C as [->|[e ->]].
  - cbn [truthy] in O. exists None, s. split; [exact O|]. split; [now split|].
      split; [intros m Em; discriminate|]. now repeat split.
  - destruct e as [|c e].
    + cbn [truthy] in O. exists None, s. split; [exact O|]. split; [now split|].
      split; [intros m Em; discriminate|]. now repeat split.
    + destruct Jt as (S1 & S2 & S3 & S4 & S5 & U1 & U2 & U3 & U4).
      pose proof (unique_key_filter Miner.miner_external_id (miners (txn s)) (c :: e) U3)
        as Uf.
      destruct (filter (fun m => str_eqb (Miner.miner_external_id m) (c :: e))
                       (miners (txn s))) as [|x [|y l]] eqn:F; [| |contradiction].
      * cbv zeta in O. eexists. eexists. split; [exact O|].
        cbn [flushed_miner txn committed seeds variations miners batches source_files].
        split; [|split; [|now repeat split]].
        -- split; [exact Jc|]. apply sound_add_miner.
           ++ now repeat split.
           ++ discriminate.
           ++ cbn [Miner.miner_external_id].
              apply (filter_nil_not_in Miner.miner_external_id). exact F.
        -- intros m Em. cbn in Em. inversion Em; subst.
           rewrite map_app. apply in_or_app. right. now left.
      * exists (Some x), s. split; [exact O|].
        split; [|split; [|now repeat split]].
        -- split; [exact Jc|]. now repeat split.
        -- intros m Em. cbn in Em. inversion Em; subst. apply in_map.
           assert (Ix : In x (filter (fun m => str_eqb (Miner.miner_external_id m) (c :: e))
                                     (miners (txn s)))) by (rewrite F; now left).
           now apply filter_In in Ix as [Ix _].
Qed.

End SoundSteps.

Lemma on_session_eq_returned {A} (m : M Session A) (r : Run) (a : A) (s : Session) :
  m (session r) = Returned a s -> on_session m r = Returned a (in_session s r).
Proof. intros E. unfold on_session. now rewrite E. Qed.

Section SoundRecord.
Context `{Platform}.

(** A record that is gone through in a sound session: the session stays
    sound, and nothing but the hashing can raise. *)
Lemma sound_ingest_record (batch : Batch.t) (src_file : option SourceFile.t)
  (dry_run : bool) (rec : dict) (r : Run) :
  canonical rec ->
  sound_session (session r) -> under batch src_file dry_run (session r) ->
  match ingest_record batch src_file dry_run rec r with
  | Returned n r' =>
      sound_session (session r') /\ under batch src_file dry_run (session r')
  | Raised e r' => e = UnicodeEncodeError /\ r' = r
  end.
Proof.
  intros (Cm & Cs & Cr) J U. unfold ingest_record.
  destruct (validate_record rec) as [valid reason]. destruct valid; cbn [negb].
  2:{ change ((bump c_invalid_records ;;; ret 0) r)
        with (Returned (S := Run) 0 (bumped c_invalid_records r)).
      split; [exact J|exact U]. }
  cbv zeta.
  set (raw_seed := str_of (get rec (lit "seed"))).
  set (raw_variation := str_of (get rec (lit "variation"))).
  unfold normalize_seed, normalize_variation.
  unfold bind at 1.
  destruct (md5_hex (normalize_text raw_seed false) r) as [hs r0|e r0] eqn:E1.
  2:{ rewrite md5_hex_outcome in E1. destruct (Utf8.encode _); [discriminate|].
      now inversion E1. }
  pose proof (md5_hex_hashed _ _ E1) as H1. apply md5_hex_returned in E1. subst r0.
  unfold bind at 1.
  destruct (md5_hex (normalize_text raw_variation false) r) as [hv r0|e r0] eqn:E2.
  2:{ rewrite md5_hex_outcome in E2. destruct (Utf8.encode _); [discriminate|].
      now inversion E2. }
  pose proof (md5_hex_hashed _ _ E2) as H2. apply md5_hex_returned in E2. subst r0.
  destruct (sound_seed_outcome r J H1) as (sd & r1 & Os & J1 & Is & F1v & F1m & F1b & F1f).
  erewrite bind_eq_returned by exact Os.
  destruct (sound_variation_outcome sd r1 J1 H2 Is)
    as (var & r2 & Ov & J2 & Iv & F2s & F2m & F2b & F2f).
  erewrite bind_eq_returned by exact Ov.
  set (ext := get rec (lit "miner_ext_id")) in *.
  assert (M : exists miner s3,
             (if truthy ext then on_session (_get_or_create_miner ext) else ret None) r2
             = Returned miner (in_session s3 r2)
             /\ sound_session s3
             /\ (forall m, option_map Miner.id miner = Some m ->
                           In m (map Miner.id (miners (txn s3))))
             /\ seeds (txn s3) = seeds (txn (session r2))
             /\ variations (txn s3) = variations (txn (session r2))
             /\ batches (txn s3) = batches (txn (session r2))
             /\ source_files (txn s3) = source_files (txn (session r2))).
  { destruct (truthy ext).
    - destruct (sound_miner_outcome J2 Cm) as (miner & s3 & Om & Rest).
      exists miner, s3. split; [now apply on_session_eq_returned|exact Rest].
    - exists None, (session r2). split; [now destruct r2|].
      split; [exact J2|]. split; [discriminate|]. now repeat split. }
  destruct M as (miner & s3 & Om & J3 & Im & F3s & F3v & F3b & F3f).
  erewrite bind_eq_returned by exact Om.
  assert (U3 : under batch src_file dry_run s3).
  { destruct U as [Ub Uf]. unfold under. rewrite F3b, F2b, F1b, F3f, F2f, F1f.
    split; [exact Ub|exact Uf]. }
  assert (Is3 : In (Seed.id sd) (map Seed.id (seeds (txn s3)))).
  { now rewrite F3s, F2s. }
  assert (Iv3 : In (Variation.id var, Seed.id sd)
                   (map (fun v => (Variation.id v, Variation.seed_id v))
                        (variations (txn s3)))).
  { now rewrite F3v. }
  destruct dry_run; cbn [negb].
  - change ((ret tt ;;; bump c_observations_inserted ;;; ret 1) (in_session s3 r2))
      with (Returned (S := Run) 1 (bumped c_observations_inserted (in_session s3 r2))).
    split; [exact J3|exact U3].
  - erewrite bind_eq_returned
      by (apply on_session_eq_returned, add_observation_outcome).
    match goal with
    | |- match (bump _ ;;; ret 1) ?x with _ => _ end =>
        change ((bump c_observations_inserted ;;; ret 1) x)
          with (Returned (S := Run) 1 (bumped c_observations_inserted x))
    end.
    cbn [session bumped in_session flushed_observation txn committed batches
         source_files].
    split; [|exact U3].
    destruct J3 as [J3c J3t]. split; [exact J3c|]. apply sound_add_observation; [exact J3t|].
    destruct U3 as [Ub Uf]. destruct (Uf eq_refl) as (f & -> & If).
    unfold observation_sound.
    cbn [Observation.seed_id Observation.variation_id Observation.miner_id
         Observation.batch_id Observation.source_file_id Observation.score
         Observation.raw_payload option_map].
    split; [exact Is3|]. split; [exact Iv3|]. split; [exact Im|].
    split; [|split; [exact Cs|now rewrite Cr]].
    exists (Batch.id batch), (SourceFile.id f). now repeat split.
Qed.

Lemma triple_ingest_record (batch : Batch.t) (src_file : option SourceFile.t)
  (dry_run : bool) (rec : dict) :
  canonical rec ->
  triple (sound_under batch src_file dry_run)
         (ingest_record batch src_file dry_run rec)
         (fun _ => sound_under batch src_file dry_run)
         (fun e r => sound_under batch src_file dry_run r /\ e = UnicodeEncodeError).
Proof.
  intros C r [J U]. pose proof (sound_ingest_record r C J U) as S.
  destruct (ingest_record batch src_file dry_run rec r) as [n r'|e r'].
  - exact S.
  - destruct S as [-> ->]. split; [split; assumption|reflexivity].
Qed.

Lemma triple_ingest_records (batch : Batch.t) (src_file : option SourceFile.t)
  (dry_run : bool) (recs : list dict) (n : nat) :
  Forall canonical recs ->
  triple (sound_under batch src_file dry_run)
         (ingest_records batch src_file dry_run recs n)
         (fun _ => sound_under batch src_file dry_run)
         (fun e r => sound_under batch src_file dry_run r /\ e = UnicodeEncodeError).
Proof.
  revert n. induction recs as [|rec recs IH]; intros n C; cbn [ingest_records].
  - now apply triple_ret.
  - inversion C; subst.
    apply triple_bind with (R := fun _ => sound_under batch src_file dry_run).
    + now apply triple_ingest_record.
    + intros k. now apply IH.
Qed.

End SoundRecord.

(** ** The steps of a file keep the rows sound *)

Section SoundFile.
Context `{Platform}.

Lemma bind_raised {S A B} (m : M S A) (k : A -> M S B) (s : S) (e : exn) (s' : S) :
  bind m k s = Raised e s' ->
  m s = Raised e s' \/ exists a s1, m s = Returned a s1 /\ k a s1 = Raised e s'.
Proof.
  unfold bind. destruct (m s) as [a s1|e1 s1]; intros E.
  - right. now exists a, s1.
  - left. now inversion E.
Qed.

Lemma check_resume_raised (batch : Batch.t) (resume : bool) (checksum : str)
  (r : Run) (e : exn) (r' : Run) :
  check_resume batch resume checksum r = Raised e r' ->
  resume = true /\ e = MultipleResultsFound /\ r' = r.
Proof.
  unfold check_resume. destruct resume; [|discriminate]. run_monad. cbn.
  destruct (filter _ (source_files (txn (session r)))) as [|x [|y l]]; cbn;
    try discriminate.
  intros E. inversion E; subst. split; [reflexivity|]. split; [reflexivity|].
  now destruct r.
Qed.

Lemma process_records_raised_in_records (parser : adapter) (batch : Batch.t)
  (dry_run : bool) (src : option SourceFile.t) (data : pyval) (r : Run) (e : exn)
  (r' : Run) :
  process_records parser batch dry_run src data r = Raised e r' ->
  ingest_records batch src dry_run (parser data) 0 r = Raised e r'.
Proof.
  unfold process_records. intros E.
  apply bind_raised in E as [E|(n & r1 & _ & E)]; [exact E|]. exfalso.
  destruct src as [f|]; destruct dry_run; cbn in E; discriminate.
Qed.

Lemma ingest_file_raised (parser : adapter) (batch : Batch.t) (dry_run resume : bool)
  (path : Path) (r : Run) (e : exn) (r' : Run) :
  ingest_file parser batch dry_run resume path r = Raised e r' ->
  (resume = true /\ e = MultipleResultsFound /\ r' = r)
  \/ exists data src r1,
       load_json path = Some data
       /\ create_source_file batch dry_run path (compute_checksum path) r
          = Returned src r1
       /\ ingest_records batch src dry_run (parser data) 0 r1 = Raised e r'.
Proof.
  unfold ingest_file. destruct (is_file path); cbn [negb]; [|discriminate].
  intros E. apply bind_raised in E as [E|(skip & r1 & Ec & E)].
  - left. now apply check_resume_raised in E.
  - destruct skip; [discriminate|].
    apply check_resume_returned in Ec as [(_ & -> & _)|(D & _)]; [|discriminate].
    destruct (load_json path) as [data|]; [|discriminate].
    apply bind_raised in E as [E|(src & r2 & Ec & E)].
    + exfalso. unfold create_source_file in E. destruct dry_run; cbn in E; discriminate.
    + right. exists data, src, r2. split; [reflexivity|]. split; [exact Ec|].
      now apply process_records_raised_in_records in E.
Qed.

Lemma sound_create_source_file (batch : Batch.t) (dry_run : bool) (path : Path)
  (checksum : str) (r : Run) (src : option SourceFile.t) (r1 : Run) :
  sound_in batch r ->
  create_source_file batch dry_run path checksum r = Returned src r1 ->
  sound_under batch src dry_run r1.
Proof.
  intros [[Jc Jt] Ib] E. destruct dry_run.
  - unfold create_source_file in E. cbn in E. inversion E; subst.
    split; [now split|]. split; [exact Ib|discriminate].
  - rewrite create_source_file_returned in E. inversion E; subst. clear E.
    split; cbn [session txn committed batches source_files].
    + split; [exact Jc|].
      apply (sound_add_source_file
               (source_file_row (next_source_file (seqs (session r))) batch path checksum)
               Jt).
      exact Ib.
    + split; [exact Ib|]. intros _. eexists. split; [reflexivity|].
      cbn [session txn source_files]. rewrite map_app. apply in_or_app. right. now left.
Qed.

Lemma sound_ingest_file (parser : adapter) (batch : Batch.t) (dry_run resume : bool)
  (path : Path) :
  canonical_adapter parser ->
  triple (sound_in batch) (ingest_file parser batch dry_run resume path)
         (fun _ => sound_in batch)
         (fun e r => sound_in batch r
                     /\ (e = UnicodeEncodeError
                         \/ (resume = true /\ e = MultipleResultsFound))).
Proof.
  intros C r J.
  destruct (ingest_file parser batch dry_run resume path r) as [[] r'|e r'] eqn:E.
  - apply ingest_file_returned in E as [K|[K|K]].
    + destruct K as [_ ->]. exact J.
    + destruct K as (_ & _ & -> & _). exact J.
    + destruct K as (_ & _ & [[_ ->]|(data & src & r1 & _ & Ec & Ep)]); [exact J|].
      pose proof (sound_create_source_file _ _ _ J Ec) as J1.
      apply process_records_returned in Ep as (n & r2 & Er & _ & _ & Et & Ecm).
      pose proof (@triple_ingest_records _ batch src dry_run (parser data) 0 (C data) r1 J1)
        as T.
      rewrite Er in T. destruct T as [[Jc Jt] [Ub Uf]].
      assert (St : sound_tables (txn (session r'))
                   /\ batches (txn (session r')) = batches (txn (session r2))).
      { rewrite Et. destruct dry_run; [now split|].
        destruct src as [f|]; [|now split].
        split; [now apply sound_set_record_count|reflexivity]. }
      destruct St as [St Sb]. split.
      * split; [|exact St]. rewrite Ecm. destruct dry_run; [exact Jc|exact St].
      * now rewrite Sb.
  - apply ingest_file_raised in E as [(-> & -> & ->)|(data & src & r1 & _ & Ec & Er)].
    + split; [exact J|]. right. now split.
    + pose proof (sound_create_source_file _ _ _ J Ec) as J1.
      pose proof (@triple_ingest_records _ batch src dry_run (parser data) 0 (C data) r1 J1)
        as T.
      rewrite Er in T. destruct T as [[Js [Ub _]] ->].
      split; [now split|]. now left.
Qed.

Lemma canonical_parse : canonical_adapter parse.
Proof.
  intros data. apply Forall_forall. intros rec I.
  apply parse_yields in I as (seed & variation & resp & -> & _).
  unfold canonical.
  destruct (get_canonical_record seed variation (_get_miner_id resp))
    as (_ & _ & -> & -> & ->).
  split; [|now split]. destruct (_get_miner_id resp) as [m|]; [right; now exists m|now left].
Qed.

Lemma sound_get_or_create_batch (name : str) (s : Session) :
  sound_session s ->
  exists b s1,
    _get_or_create_batch name s = Returned b s1
    /\ sound_session s1
    /\ In (Batch.id b) (map Batch.id (batches (txn s1))).
Proof.
  intros [Jc Jt]. pose proof (get_or_create_batch_outcome name s) as O.
  destruct Jt as (S1 & S2 & S3 & S4 & S5 & U1 & U2 & U3 & U4).
  pose proof (unique_key_filter Batch.batch_name (batches (txn s)) name U4) as Uf.
  change (fun y : Batch.t => str_eqb (Batch.batch_name y) name) with (batch_has name)
    in Uf.
  destruct (filter (batch_has name) (batches (txn s))) as [|x [|y l]] eqn:F;
    [| |contradiction].
  - cbv zeta in O. eexists. eexists. split; [exact O|].
    cbn [flushed_batch txn committed batches]. split.
    + split; [exact Jc|]. apply sound_add_batch; [now repeat split|].
      cbn [Batch.batch_name]. apply (filter_nil_not_in Batch.batch_name). exact F.
    + rewrite map_app. apply in_or_app. right. now left.
  - exists x, s. split; [exact O|]. split; [split; [exact Jc|now repeat split]|].
    apply in_map.
    assert (Ix : In x (filter (batch_has name) (batches (txn s)))) by (rewrite F; now left).
    now apply filter_In in Ix as [Ix _].
Qed.

Lemma sound_ingest_batch_body (batch_name : str) (files : list Path)
  (adapter_name : str) (dry_run resume : bool) (workers : nat) :
  triple (fun r => sound_session (session r))
         (ingest_batch_body batch_name files adapter_name dry_run resume workers)
         (fun _ r => sound_session (session r))
         (fun e r => sound_session (session r) /\ expected adapter_name resume e).
Proof.
  intros r J. unfold ingest_batch_body. unfold bind at 1. unfold get_adapter.
  rewrite lookup_registry.
  destruct (str_eqb (lit "generic_responses_v1") adapter_name).
  2:{ split; [exact J|]. now left. }
  change (ret parse r) with (Returned (S := Run) parse r). cbv beta iota.
  destruct (sound_get_or_create_batch batch_name J) as (b & s1 & Ob & J1 & Ib).
  erewrite bind_eq_returned by (apply on_session_eq_returned; exact Ob).
  pose proof (@triple_for_each Run Path (sound_in b)
                (fun e r => sound_in b r
                            /\ (e = UnicodeEncodeError
                                \/ (resume = true /\ e = MultipleResultsFound)))
                files (ingest_file parse b dry_run resume)
                (fun f _ => @sound_ingest_file parse b dry_run resume f canonical_parse)
                (in_session s1 r) (conj J1 Ib)) as T.
  unfold bind at 1.
  destruct (for_each files (ingest_file parse b dry_run resume) (in_session s1 r))
    as [[] r2|e r2].
  - exact (proj1 T).
  - destruct T as [[J2 _] [-> |[-> ->]]]; (split; [exact J2|]); unfold expected; auto.
Qed.

Lemma sound_ingest_batch (db : Database) (batch_name : str) (files : list Path)
  (adapter_name : str) (dry_run resume : bool) (workers : nat) :
  sound_tables (stored db) ->
  sound_tables
    (stored (snd (ingest_batch db batch_name files adapter_name dry_run resume workers)))
  /\ forall e, fst (ingest_batch db batch_name files adapter_name dry_run resume workers)
               = inl e ->
               expected adapter_name resume e.
Proof.
  intros S.
  pose proof (@sound_ingest_batch_body batch_name files adapter_name dry_run resume
                workers {| session := open_session db; metrics := Metrics_init |}
                (conj S S)) as T.
  unfold ingest_batch.
  destruct (ingest_batch_body batch_name files adapter_name dry_run resume workers _)
    as [m r|e r]; cbn [fst snd close_session stored].
  - split; [exact (proj1 T)|discriminate].
  - destruct T as [[Jc _] X]. split; [exact Jc|]. intros e' E. now inversion E; subst.
Qed.

Lemma sound_empty : sound_tables empty_tables.
Proof. unfold sound_tables. cbn. repeat split; constructor. Qed.

Lemma reachable_sound (db : Database) : reachable db -> sound_tables (stored db).
Proof.
  induction 1 as [|db bn files an dry resume workers R IH]; [apply sound_empty|].
  now apply sound_ingest_batch.
Qed.

End SoundFile.

(** ** What every database the program builds is like *)

Section Reached.
Context `{Platform}.

(** X18.  In every database that calls of [ingest_batch] build from the
    empty one, the key columns fit the text: the [normalized_seed] of a
    Seed row is the normal form of its [seed_text] and its [seed_hash]
    the MD5 digest of the UTF-8 encoding of that normal form, and the
    same holds of [normalized_variation] and [variation_hash] in a
    Variation row. *)
Theorem stored_keys_fit_text :
  forall db : Database,
    reachable db ->
    (forall s, In s (seeds (stored db)) ->
               Seed.normalized_seed s = normalize_seed (Seed.seed_text s) false
               /\ exists bytes,
                    Utf8.encode (Seed.normalized_seed s) = Some bytes
                    /\ Seed.seed_hash s = md5_hexdigest bytes)
    /\ (forall v, In v (variations (stored db)) ->
                  Variation.normalized_variation v
                  = normalize_variation (Variation.variation_text v) false
                  /\ exists bytes,
                       Utf8.encode (Variation.normalized_variation v) = Some bytes
                       /\ Variation.variation_hash v = md5_hexdigest bytes).
Proof.
  intros db R. destruct (reachable_sound R) as (S1 & S2 & _).
  rewrite Forall_forall in S1, S2. split.
  - intros s Is. exact (S1 s Is).
  - intros v Iv. exact (proj1 (S2 v Iv)).
Qed.

(** X19.  In every database that calls of [ingest_batch] build from the
    empty one, no reference dangles: an Observation row names a Seed row
    and a Variation row that exist, and the Variation is one of that
    Seed; the Miner row it names, if any, exists; it names a Batch row
    and a SourceFile row that exist, and the SourceFile is one of that
    Batch.  Every Variation row names a Seed row that exists and every
    SourceFile row a Batch row that exists. *)
Theorem stored_references_exist :
  forall db : Database,
    reachable db ->
    (forall o, In o (observations (stored db)) ->
       (exists s v,
           In s (seeds (stored db)) /\ In v (variations (stored db))
           /\ Observation.seed_id o = Seed.id s
           /\ Observation.variation_id o = Variation.id v
           /\ Variation.seed_id v = Seed.id s)
       /\ (forall m, Observation.miner_id o = Some m ->
                     exists row, In row (miners (stored db)) /\ Miner.id row = m)
       /\ (exists b f,
              In b (batches (stored db)) /\ In f (source_files (stored db))
              /\ Observation.batch_id o = Some (Batch.id b)
              /\ Observation.source_file_id o = Some (SourceFile.id f)
              /\ SourceFile.batch_id f = Batch.id b))
    /\ (forall v, In v (variations (stored db)) ->
                  exists s, In s (seeds (stored db)) /\ Variation.seed_id v = Seed.id s)
    /\ (forall f, In f (source_files (stored db)) ->
                  exists b, In b (batches (stored db))
                            /\ SourceFile.batch_id f = Batch.id b).
Proof.
  intros db R. destruct (reachable_sound R) as (_ & S2 & S3 & S4 & _).
  rewrite Forall_forall in S2, S3, S4. split; [|split].
  - intros o Io.
    destruct (S3 o Io) as (O1 & O2 & O3 & (b & f & Ob & Of & Ib & If) & _).
    apply in_map_iff in O1 as (s & Es & Is).
    apply in_map_iff in O2 as (v & Ev & Iv). inversion Ev as [[Ev1 Ev2]].
    apply in_map_iff in Ib as (brow & Eb & Ib).
    apply in_map_iff in If as (frow & Ef & If). inversion Ef as [[Ef1 Ef2]].
    split; [|split].
    + exists s, v. repeat split; auto; congruence.
    + intros m Em. apply O3 in Em. apply in_map_iff in Em as (row & Er & Ir).
      now exists row.
    + exists brow, frow. repeat split; auto; congruence.
  - intros v Iv. destruct (S2 v Iv) as [_ Is].
    apply in_map_iff in Is as (s & Es & Is). now exists s.
  - intros f If. specialize (S4 f If). cbn beta in S4.
    apply in_map_iff in S4 as (b & Eb & Ib). now exists b.
Qed.

(** X20.  No Observation row the program stores carries a score or a
    raw payload: the one registered adapter yields neither, so in every
    database that calls of [ingest_batch] build from the empty one the
    two columns are empty in every row, while [batch_id] and
    [source_file_id] are set in every row. *)
Theorem stored_observations_have_no_payload :
  forall (db : Database) (o : Observation.t),
    reachable db ->
    In o (observations (stored db)) ->
    Observation.score o = PNone
    /\ Observation.raw_payload o = None
    /\ Observation.batch_id o <> None
    /\ Observation.source_file_id o <> None.
Proof.
  intros db o R Io. destruct (reachable_sound R) as (_ & _ & S3 & _).
  rewrite Forall_forall in S3.
  destruct (S3 o Io) as (_ & _ & _ & (b & f & Ob & Of & _) & Os & Or).
  repeat split; try assumption; congruence.
Qed.


End Reached.

(** ** Tables only grow *)

Lemma extends_refl (t : Tables) : extends t t.
Proof. repeat split; exists []; now rewrite app_nil_r. Qed.

Lemma prefix_snoc {A} (l0 l : list A) (x : A) :
  (exists rows, l = l0 ++ rows) -> exists rows, l ++ [x] = l0 ++ rows.
Proof. intros [rows ->]. exists (rows ++ [x]). now rewrite app_assoc. Qed.

Ltac growing_keeps :=
  intros;
  unfold add_seed, add_variation, add_miner, add_batch, add_source_file, add_observation;
  inv_steps; apply inv_with_txn;
  intros s (C & (X1 & X2 & X3 & X4 & X5 & X6) & B);
  split; [exact C|]; split;
  [ unfold extends; repeat match goal with |- _ /\ _ => split end;
    cbn [txn seeds variations miners batches source_files observations];
    try assumption; now apply prefix_snoc
  | cbn [seqs next_source_file]; lia ].

Section Growing.
Variables t0 c0 : Tables.
Variable bound : nat.

Lemma growing_add_seed a b c : inv (growing t0 c0 bound) (add_seed a b c).
Proof. growing_keeps. Qed.
Lemma growing_add_variation a b c d : inv (growing t0 c0 bound) (add_variation a b c d).
Proof. growing_keeps. Qed.
Lemma growing_add_miner a : inv (growing t0 c0 bound) (add_miner a).
Proof. growing_keeps. Qed.
Lemma growing_add_observation a b c d e f g :
  inv (growing t0 c0 bound) (add_observation a b c d e f g).
Proof. growing_keeps. Qed.

Lemma growing_ingest_records `{Platform} batch src_file dry_run recs n :
  inv (of_session (growing t0 c0 bound))
      (ingest_records batch src_file dry_run recs n).
Proof.
  apply inv_ingest_records.
  - intros. apply inv_get_or_create_seed. apply growing_add_seed.
  - intros. apply inv_get_or_create_variation. apply growing_add_variation.
  - apply growing_add_miner.
  - right. apply growing_add_observation.
Qed.

End Growing.

(** ** The SourceFile sequence stays ahead of the keys *)

Lemma file_ids_below_le (n n' : nat) (t : Tables) :
  n <= n' -> file_ids_below n t -> file_ids_below n' t.
Proof. intros L F. eapply Forall_impl; [|exact F]. cbn. intros; lia. Qed.

Ltac file_ids_keep :=
  intros;
  unfold add_seed, add_variation, add_miner, add_batch, add_observation;
  inv_steps; apply inv_with_txn; intros s Hs; exact Hs.

Lemma file_ids_add_seed a b c : inv file_ids_session (add_seed a b c).
Proof. file_ids_keep. Qed.
Lemma file_ids_add_variation a b c d : inv file_ids_session (add_variation a b c d).
Proof. file_ids_keep. Qed.
Lemma file_ids_add_miner a : inv file_ids_session (add_miner a).
Proof. file_ids_keep. Qed.
Lemma file_ids_add_batch a : inv file_ids_session (add_batch a).
Proof. file_ids_keep. Qed.
Lemma file_ids_add_observation a b c d e f g :
  inv file_ids_session (add_observation a b c d e f g).
Proof. file_ids_keep. Qed.

Lemma file_ids_add_source_file a b c : inv file_ids_session (add_source_file a b c).
Proof.
  intros s [Hc Ht]. unfold add_source_file. run_monad. cbn. split; cbn.
  - apply file_ids_below_le with (n := next_source_file (seqs s)); [lia|exact Hc].
  - unfold file_ids_below. cbn. apply Forall_app. split.
    + eapply Forall_impl; [|exact Ht]. cbn. intros; lia.
    + constructor; [cbn; lia|constructor].
Qed.

Lemma file_ids_set_record_count a b : inv file_ids_session (set_record_count a b).
Proof.
  unfold set_record_count. apply inv_with_txn.
  intros s [Hc Ht]. split; [exact Hc|]. unfold file_ids_below. cbn.
  apply Forall_map. eapply Forall_impl; [|exact Ht].
  intros f Hf. now destruct (Nat.eqb _ _).
Qed.

Lemma file_ids_commit : inv file_ids_session commit.
Proof. unfold commit. apply inv_modify. intros s [Hc Ht]. split; exact Ht. Qed.

Section FileIds.
Context `{Platform}.

Lemma file_ids_ingest_batch (db : Database) name files adapter_name dry_run resume workers :
  file_ids_below (next_source_file (sequences db)) (stored db) ->
  file_ids_below
    (next_source_file
       (sequences (snd (ingest_batch db name files adapter_name dry_run resume workers))))
    (stored (snd (ingest_batch db name files adapter_name dry_run resume workers))).
Proof.
  intros F.
  assert (I : inv (of_session file_ids_session)
                  (ingest_batch_body name files adapter_name dry_run resume workers)).
  { apply inv_ingest_batch_body.
    - intros. apply inv_get_or_create_seed. apply file_ids_add_seed.
    - intros. apply inv_get_or_create_variation. apply file_ids_add_variation.
    - apply file_ids_add_miner.
    - right. apply file_ids_add_observation.
    - right. split; [|split].
      + apply file_ids_add_source_file.
      + apply file_ids_set_record_count.
      + apply file_ids_commit.
    - apply file_ids_add_batch. }
  specialize (I {| session := open_session db; metrics := Metrics_init |} (conj F F)).
  unfold ingest_batch.
  destruct (ingest_batch_body _ _ _ _ _ _ _) as [m r|e r]; cbn [snd]; exact (proj1 I).
Qed.

Lemma reachable_file_ids (db : Database) :
  reachable db -> file_ids_below (next_source_file (sequences db)) (stored db).
Proof.
  induction 1 as [|db ? ? ? ? ? ? _ IH]; [constructor|].
  now apply file_ids_ingest_batch.
Qed.

End FileIds.

(** ** A file adds rows and changes none *)

Section Appends.
Context `{Platform}.
Variable t0 : Tables.
Variable bound : nat.
Hypothesis t0_below : file_ids_below bound t0.

Lemma counted_keeps_old (id n : nat) (rows : list SourceFile.t) :
  bound <= id ->
  map (fun row => if Nat.eqb (SourceFile.id row) id then with_record_count n row else row)
      (source_files t0 ++ rows)
  = source_files t0
    ++ map (fun row => if Nat.eqb (SourceFile.id row) id
                       then with_record_count n row else row) rows.
Proof.
  intros L. rewrite map_app. f_equal.
  rewrite <- (map_id (source_files t0)) at 2. apply map_ext_in.
  intros f If. unfold file_ids_below in t0_below. rewrite Forall_forall in t0_below.
  specialize (t0_below f If). cbn beta in t0_below.
  destruct (Nat.eqb (SourceFile.id f) id) eqn:E; [|reflexivity].
  apply Nat.eqb_eq in E. lia.
Qed.

Lemma grown_ingest_file (parser : adapter) (batch : Batch.t) (dry_run resume : bool)
  (path : Path) :
  triple (fun r => grown t0 bound (session r))
         (ingest_file parser batch dry_run resume path)
         (fun _ r => grown t0 bound (session r))
         (fun _ r => extends t0 (committed (session r))).
Proof.
  intros r G.
  destruct (ingest_file parser batch dry_run resume path r) as [[] r'|e r'] eqn:E.
  - apply ingest_file_returned in E as [K|[K|K]].
    + destruct K as [_ ->]. exact G.
    + destruct K as (_ & _ & -> & _). exact G.
    + destruct K as (_ & _ & [[_ ->]|(data & src & r1 & _ & Ec & Ep)]); [exact G|].
      destruct G as (Gc & Gt & Gb).
      apply process_records_returned in Ep as (n & r2 & Er & _ & Es & Et & Ecm).
      destruct dry_run.
      * unfold create_source_file in Ec. cbn in Ec. inversion Ec; subst src r1. clear Ec.
        pose proof (@growing_ingest_records t0 (committed (session r)) bound _ batch None
                      true (parser data) 0 r (conj eq_refl (conj Gt Gb))) as I.
        rewrite Er in I. destruct I as (Ic & It & Ib).
        split; [|split].
        -- rewrite Ecm. unfold of_session in Ic. now rewrite Ic.
        -- now rewrite Et.
        -- now rewrite Es.
      * rewrite create_source_file_returned in Ec. inversion Ec; subst src r1. clear Ec.
        match type of Er with
        | ingest_records _ _ _ _ _ ?r1 = _ =>
            pose proof (@growing_ingest_records t0 (committed (session r)) bound _ batch
                          (Some (source_file_row (next_source_file (seqs (session r)))
                                                 batch path (compute_checksum path)))
                          false (parser data) 0 r1) as I
        end.
        match type of I with
        | ?P -> _ =>
            assert (Pre : P);
            [ split; [reflexivity|]; split;
              [ destruct Gt as (X1 & X2 & X3 & X4 & X5 & X6);
                unfold extends;
                cbn [session txn seeds variations miners batches source_files
                     observations];
                repeat match goal with |- _ /\ _ => split end; try assumption;
                now apply prefix_snoc
              | cbn [session seqs next_source_file]; lia ]
            | specialize (I Pre) ]
        end.
        rewrite Er in I. destruct I as (_ & It & Ib).
        assert (Xt : extends t0 (txn (session r'))).
        { rewrite Et. destruct It as (X1 & X2 & X3 & X4 & [rows X5] & X6).
          unfold extends.
          cbn [seeds variations miners batches source_files observations].
          repeat match goal with |- _ /\ _ => split end; try assumption.
          rewrite X5, counted_keeps_old by (cbn [source_file_row SourceFile.id]; lia).
          now eexists. }
        split; [|split].
        -- now rewrite Ecm.
        -- exact Xt.
        -- now rewrite Es.
  - destruct G as (Gc & _ & _).
    assert (C : committed (session r') = committed (session r)).
    { apply ingest_file_raised in E as [(_ & _ & ->)|(data & src & r1 & _ & Ec & Er)];
        [reflexivity|].
      pose proof (@committed_ingest_records _ (committed (session r1)) batch src dry_run
                    (parser data) 0 r1 eq_refl) as I.
      rewrite Er in I. unfold of_session, committed_is in I. rewrite I.
      destruct dry_run.
      - unfold create_source_file in Ec. cbn in Ec. now inversion Ec.
      - rewrite create_source_file_returned in Ec. now inversion Ec. }
    now rewrite C.
Qed.

End Appends.

Section AppendOnly.
Context `{Platform}.

Lemma grown_get_or_create_batch (t0 : Tables) (bound : nat) (name : str) :
  triple (grown t0 bound) (_get_or_create_batch name)
         (fun _ => grown t0 bound) (fun _ s => extends t0 (committed s)).
Proof.
  intros s (Gc & Gt & Gb). pose proof (get_or_create_batch_outcome name s) as O.
  destruct (filter (batch_has name) (batches (txn s))) as [|x [|y l]];
    rewrite O; [|exact (conj Gc (conj Gt Gb))|exact Gc].
  split; [exact Gc|]. split; [|exact Gb].
  destruct Gt as (X1 & X2 & X3 & X4 & X5 & X6). unfold extends.
  cbn [flushed_batch txn seeds variations miners batches source_files observations].
  repeat match goal with |- _ /\ _ => split end; try assumption.
  now apply prefix_snoc.
Qed.

Lemma grown_ingest_batch_body (t0 : Tables) (bound : nat) (batch_name : str)
  (files : list Path) (adapter_name : str) (dry_run resume : bool) (workers : nat) :
  file_ids_below bound t0 ->
  triple (fun r => grown t0 bound (session r))
         (ingest_batch_body batch_name files adapter_name dry_run resume workers)
         (fun _ r => grown t0 bound (session r))
         (fun _ r => extends t0 (committed (session r))).
Proof.
  intros F. unfold ingest_batch_body.
  apply triple_bind with (R := fun _ r => grown t0 bound (session r)).
  { intros r G. unfold get_adapter.
    destruct (lookup _REGISTRY adapter_name); [exact G|exact (proj1 G)]. }
  intros parser.
  apply triple_bind with (R := fun _ r => grown t0 bound (session r)).
  { intros r G. pose proof (@grown_get_or_create_batch t0 bound batch_name (session r) G)
      as T.
    unfold on_session. destruct (_get_or_create_batch batch_name (session r)); exact T. }
  intros batch.
  apply triple_bind with (R := fun _ r => grown t0 bound (session r)).
  { apply triple_for_each. intros f _. now apply grown_ingest_file. }
  intros u r G. exact G.
Qed.

(** X22.  A run never changes or removes a row that is stored: on a
    database that calls of [ingest_batch] built from the empty one, every
    table after a run, however the run ends, is the table before it with
    rows added at its end (the [record_count] a run sets is that of a
    SourceFile row it added itself). *)
Theorem ingest_batch_only_appends :
  forall (db : Database) (batch_name : str) (files : list Path) (adapter_name : str)
         (dry_run resume : bool) (workers : nat),
    reachable db ->
    extends (stored db)
            (stored (snd (ingest_batch db batch_name files adapter_name dry_run resume
                                       workers))).
Proof.
  intros db bn files an dry resume workers R.
  pose proof (@grown_ingest_batch_body (stored db) (next_source_file (sequences db))
                bn files an dry resume workers (reachable_file_ids R)
                {| session := open_session db; metrics := Metrics_init |}) as T.
  assert (G : grown (stored db) (next_source_file (sequences db)) (open_session db)).
  { split; [apply extends_refl|]. split; [apply extends_refl|]. apply Nat.le_refl. }
  specialize (T G). unfold ingest_batch.
  destruct (ingest_batch_body bn files an dry resume workers _) as [m r|e r];
    cbn [snd close_session stored]; [exact (proj1 T)|exact T].
Qed.

End AppendOnly.

(* ================================================================== *)
(** * The read-only endpoints on an ingested database *)
(* ================================================================== *)

(** ** Dict comprehensions *)

Section Comprehension.
Variable f : str -> str.

Lemma dict_set_computed (d : list (str * str)) (k : str) :
  Forall (fun kv => snd kv = f (fst kv)) d ->
  dict_set d k (f k)
  = if existsb (str_eqb k) (map fst d) then d else d ++ [(k, f k)].
Proof.
  induction 1 as [|[k' v'] d Hk _ IH]; [reflexivity|].
  cbn [dict_set map fst existsb]. cbn [fst snd] in Hk. rewrite (str_eqb_sym k k').
  destruct (str_eqb k' k) eqn:E; cbn [orb].
  - apply str_eqb_eq in E. subst. reflexivity.
  - rewrite IH. now destruct (existsb (str_eqb k) (map fst d)).
Qed.

Lemma comprehension_fold (l : list str) (d : list (str * str)) :
  Forall (fun kv => snd kv = f (fst kv)) d ->
  fold_left (fun d k => dict_set d k (f k)) l d
  = d ++ map (fun c => (c, f c)) (first_occurrences (map fst d) l).
Proof.
  revert d. induction l as [|x l IH]; intros d W.
  - cbn. now rewrite app_nil_r.
  - cbn [fold_left first_occurrences]. rewrite dict_set_computed by exact W.
    destruct (existsb (str_eqb x) (map fst d)) eqn:E.
    + now apply IH.
    + rewrite IH.
      * rewrite map_app, <- app_assoc. cbn [map fst app].
        f_equal. f_equal. f_equal.
        apply first_occurrences_ext.
        intros y. rewrite in_app_iff. cbn. tauto.
      * apply Forall_app. split; [exact W|]. now constructor.
Qed.

Lemma comprehension (l : list str) :
  fold_left (fun d k => dict_set d k (f k)) l []
  = map (fun c => (c, f c)) (first_occurrences [] l).
Proof. rewrite comprehension_fold; [reflexivity|constructor]. Qed.

End Comprehension.

Section Keyed.
Variables (A : Type) (key : A -> str).

Lemma dict_set_fresh (d : list (str * A)) (k : str) (v : A) :
  ~ In k (map fst d) -> dict_set d k v = d ++ [(k, v)].
Proof.
  induction d as [|[k' v'] d IH]; intros N; [reflexivity|].
  cbn [dict_set]. destruct (str_eqb k' k) eqn:E.
  - apply str_eqb_eq in E. subst. exfalso. apply N. now left.
  - cbn [app]. f_equal. apply IH. intros I. apply N. now right.
Qed.

Lemma keyed_fold (rows : list A) (d : list (str * A)) :
  NoDup (map fst d ++ map key rows) ->
  fold_left (fun d row => dict_set d (key row) row) rows d
  = d ++ map (fun row => (key row, row)) rows.
Proof.
  revert d. induction rows as [|r rows IH]; intros d U.
  - cbn. now rewrite app_nil_r.
  - cbn [fold_left map]. rewrite dict_set_fresh.
    + rewrite IH.
      * now rewrite <- app_assoc.
      * rewrite map_app, <- app_assoc. exact U.
    + intros I. cbn [map] in U. apply NoDup_remove_2 in U. apply U.
      apply in_or_app. now left.
Qed.

Lemma lookup_keyed (rows : list A) (n : str) :
  lookup (map (fun row => (key row, row)) rows) n
  = find (fun row => str_eqb (key row) n) rows.
Proof.
  induction rows as [|r rows IH]; [reflexivity|].
  cbn [map lookup find]. now destruct (str_eqb (key r) n).
Qed.

Lemma unique_keys_filter (Q : A -> bool) (l : list A) :
  NoDup (map key l) -> NoDup (map key (filter Q l)).
Proof.
  induction l as [|x l IH]; intros U; [constructor|].
  cbn [map] in U. inversion U as [|? ? Nx Ul]; subst.
  cbn [filter]. destruct (Q x); [|now apply IH].
  cbn [map]. constructor; [|now apply IH].
  intros I. apply Nx. apply in_map_iff in I as (y & E & Iy).
  apply filter_In in Iy as [Iy _]. rewrite <- E. now apply in_map.
Qed.

Lemma find_filter (P Q : A -> bool) (l : list A) :
  (forall x, P x = true -> Q x = true) ->
  find P (filter Q l) = find P l.
Proof.
  intros PQ. induction l as [|x l IH]; [reflexivity|].
  cbn [filter find]. destruct (Q x) eqn:Qx.
  - cbn [find]. now rewrite IH.
  - destruct (P x) eqn:Px; [|exact IH].
    apply PQ in Px. congruence.
Qed.

End Keyed.

Lemma find_map {A B} (g : A -> B) (P : B -> bool) (l : list A) :
  find P (map g l) = option_map g (find (fun x => P (g x)) l).
Proof.
  induction l as [|x l IH]; [reflexivity|].
  cbn [map find]. now destruct (P (g x)).
Qed.

Lemma fold_left_snoc {A B} (f : list B -> A -> list B) (g : A -> B) (l : list A) :
  (forall results x, f results x = results ++ [g x]) ->
  forall acc, fold_left f l acc = acc ++ map g l.
Proof.
  intros E. induction l as [|x l IH]; intros acc; cbn [fold_left map].
  - now rewrite app_nil_r.
  - rewrite IH, E, <- app_assoc. reflexivity.
Qed.

(** ** Counting by group *)

Lemma get_count_tabulated (g : nat -> nat) (l : list nat) (k : nat) :
  get_count (map (fun k => (k, g k)) l) k 0 = if in_dec Nat.eq_dec k l then g k else 0.
Proof.
  induction l as [|x l IH]; [reflexivity|].
  cbn [map get_count]. destruct (Nat.eqb x k) eqn:E.
  - apply Nat.eqb_eq in E. subst. destruct (in_dec Nat.eq_dec k (k :: l)) as [_|N].
    + reflexivity.
    + exfalso. apply N. now left.
  - apply Nat.eqb_neq in E. rewrite IH.
    destruct (in_dec Nat.eq_dec k l) as [I|N], (in_dec Nat.eq_dec k (x :: l)) as [I'|N'];
      try reflexivity.
    + exfalso. apply N'. now right.
    + destruct I' as [->|I']; [now contradiction E|contradiction].
Qed.

Lemma get_count_group_by_count (col : list nat) (k : nat) :
  get_count (group_by_count col) k 0 = count_occ Nat.eq_dec col k.
Proof.
  unfold group_by_count. rewrite get_count_tabulated.
  destruct (in_dec Nat.eq_dec k (nodup Nat.eq_dec col)) as [_|N]; [reflexivity|].
  symmetry. apply count_occ_not_In. intros I. apply N. now apply nodup_In.
Qed.

Lemma count_selected (ids : list nat) (l : list Variation.t) (k : nat) :
  In k ids ->
  count_occ Nat.eq_dec
    (map Variation.seed_id
       (filter (fun v => existsb (Nat.eqb (Variation.seed_id v)) ids) l)) k
  = List.length (filter (fun v => Nat.eqb (Variation.seed_id v) k) l).
Proof.
  intros I. induction l as [|v l IH]; [reflexivity|].
  cbn [filter]. destruct (Nat.eqb (Variation.seed_id v) k) eqn:E.
  - apply Nat.eqb_eq in E.
    assert (X : existsb (Nat.eqb (Variation.seed_id v)) ids = true).
    { apply existsb_exists. exists k. split; [exact I|]. now apply Nat.eqb_eq. }
    rewrite X. cbn [map count_occ length].
    destruct (Nat.eq_dec (Variation.seed_id v) k); [|contradiction]. now rewrite IH.
  - apply Nat.eqb_neq in E.
    destruct (existsb (Nat.eqb (Variation.seed_id v)) ids); [|exact IH].
    cbn [map count_occ]. destruct (Nat.eq_dec (Variation.seed_id v) k); [contradiction|].
    exact IH.
Qed.

(** ** [seeds_exists] *)

Section SeedsExists.
Variable t : Tables.
Variable wanted : list str.       (* the normalized texts asked for *)
Hypothesis unique : NoDup (map seed_key (seeds t)).

Lemma found_value :
  found_seeds t wanted
  = map (fun row => (snd row, row)) (map seed_columns (selected_seeds t wanted)).
Proof.
  unfold found_seeds. rewrite keyed_fold; [reflexivity|].
  cbn [map app]. rewrite map_map. unfold seed_columns. cbn [snd].
  apply (unique_keys_filter seed_key). exact unique.
Qed.

Lemma found_lookup (n : str) :
  In n wanted ->
  lookup (found_seeds t wanted) n = option_map seed_columns (find (seed_has n) (seeds t)).
Proof.
  intros I. rewrite found_value, lookup_keyed, find_map. unfold seed_columns. cbn [snd].
  f_equal. apply (find_filter (seed_has n)).
  intros x Hx. apply str_eqb_eq in Hx. apply existsb_exists.
  exists n. split; [exact I|]. rewrite Hx. apply str_eqb_refl.
Qed.

Lemma found_count (n : str) (row : Seed.t) :
  In n wanted ->
  find (seed_has n) (seeds t) = Some row ->
  get_count
    (group_by_count
       (map Variation.seed_id
          (filter (fun v => existsb (Nat.eqb (Variation.seed_id v))
                                    (map (fun row : nat * str * str => fst (fst row))
                                         (values (found_seeds t wanted))))
                  (variations t))))
    (Seed.id row) 0
  = List.length (filter (fun v => Nat.eqb (Variation.seed_id v) (Seed.id row))
                        (variations t)).
Proof.
  intros I F. rewrite get_count_group_by_count. apply count_selected.
  rewrite found_value. unfold values. rewrite !map_map. unfold seed_columns. cbn [snd fst].
  apply in_map. apply find_some in F as [Is Hs].
  apply filter_In. split; [exact Is|].
  apply str_eqb_eq in Hs. apply existsb_exists.
  exists n. split; [exact I|]. rewrite Hs. apply str_eqb_refl.
Qed.

End SeedsExists.


(** ** Computations that end alike *)

Section Alike.
Variables (S : Type) (R : S -> S -> Prop).





End Alike.







Section DryAgainstReal.
Context `{Platform}.








End DryAgainstReal.

(** X23. Where no two Seed rows share a normalized text, [seeds_exists]
    answers with one item per distinct requested string, in the order of
    first occurrence (a string asked twice is answered once): the item
    says whether a Seed row has the string's normalized text and, if one
    has, how many Variation rows belong to that Seed; otherwise the count
    is 0.  The session is left as it was. *)
Theorem seeds_exists_reports :
  forall (s : Session) (payload : SeedExistsRequest.t),
    NoDup (map seed_key (seeds (txn s))) ->
    seeds_exists payload s
    = Returned (map (seed_report (txn s))
                    (first_occurrences [] (SeedExistsRequest.seeds payload)))
               s.
Proof.
  intros s payload U. unfold seeds_exists.
  rewrite (comprehension (fun seed => normalize_seed seed false)).
  set (asked := first_occurrences [] (SeedExistsRequest.seeds payload)).
  set (norm_map := map (fun c => (c, normalize_seed c false)) asked).
  unfold bind at 1. unfold execute at 1, gets.
  set (found := fold_left _ _ _).
  assert (L : forall raw, In raw asked ->
                lookup found (normalize_seed raw false)
                = option_map (fun s0 => (Seed.id s0, Seed.seed_text s0, Seed.normalized_seed s0))
                    (find (seed_has (normalize_seed raw false)) (seeds (txn s)))).
  { intros raw I. apply (@found_lookup (txn s) (values norm_map) U).
    unfold values, norm_map. rewrite map_map. cbn [snd].
    now apply (in_map (fun c => normalize_seed c false)). }
  destruct found as [|kv found'] eqn:Ef.
  - unfold bind, ret. f_equal.
    rewrite fold_left_snoc
      with (g := fun item : str * str =>
                   {| SeedExistsResponseItem.seed := fst item;
                      SeedExistsResponseItem.exists_ := false;
                      SeedExistsResponseItem.variation_count := 0 |}).
    + cbn [app]. unfold norm_map. rewrite map_map. cbn [fst].
      apply map_ext_in. intros raw I. unfold seed_report.
      specialize (L raw I). cbn [lookup] in L.
      destruct (find _ _); [discriminate L|reflexivity].
    + now intros results [raw norm].
  - rewrite <- Ef in *. unfold bind, execute, gets, ret. f_equal.
    match goal with
    | |- fold_left _ _ _ = _ =>
        rewrite fold_left_snoc
                   with (g := fun item : str * str =>
                           match lookup found (snd item) with
                           | Some row =>
                               {| SeedExistsResponseItem.seed := fst item;
                                  SeedExistsResponseItem.exists_ := true;
                                  SeedExistsResponseItem.variation_count :=
                                    get_count
                                      (group_by_count
                                         (map Variation.seed_id
                                            (filter
                                               (fun v =>
                                                  existsb (Nat.eqb (Variation.seed_id v))
                                                    (map (fun row : nat * str * str => fst (fst row))
                                                         (values found)))
                                               (variations (txn s)))))
                                      (fst (fst row)) 0 |}
                           | None =>
                               {| SeedExistsResponseItem.seed := fst item;
                                  SeedExistsResponseItem.exists_ := false;
                                  SeedExistsResponseItem.variation_count := 0 |}
                           end)
    end.
    + cbn [app]. unfold norm_map. rewrite map_map. cbn [fst snd].
      apply map_ext_in. intros raw I. unfold seed_report.
      rewrite (L raw I).
      destruct (find _ _) as [row|] eqn:F; cbn [option_map fst]; [|reflexivity].
      f_equal. subst found.
      apply (@found_count (txn s) (values norm_map) U (normalize_seed raw false)); [|exact F].
      unfold values, norm_map. rewrite map_map. cbn [snd].
      now apply (in_map (fun c => normalize_seed c false)).
    + intros results [raw norm]. cbn [fst snd]. now destruct (lookup found norm).
Qed.



(** ** Concrete runs *)

#[local] Existing Instance Demo.platform.


Lemma duplicate_content_skipped_witness :
  for_each [Demo.a_json; Demo.b_json] (ingest_file parse Demo.b1 false true) Demo.fresh
  = Returned tt
      (final_state
         (for_each [Demo.a_json; Demo.b_json] (ingest_file parse Demo.b1 false true)
                   Demo.fresh))
  /\ ingest_file parse Demo.b1 false true Demo.a_copy
       (final_state
          (for_each [Demo.a_json; Demo.b_json] (ingest_file parse Demo.b1 false true)
                    Demo.fresh))
     = Returned tt
         {| session :=
              session
                (final_state
                   (for_each [Demo.a_json; Demo.b_json]
                             (ingest_file parse Demo.b1 false true) Demo.fresh));
            metrics :=
              incr c_files_skipped
                (metrics
                   (final_state
                      (for_each [Demo.a_json; Demo.b_json]
                                (ingest_file parse Demo.b1 false true) Demo.fresh))) |}.
Proof.
  assert (R : for_each [Demo.a_json; Demo.b_json] (ingest_file parse Demo.b1 false true)
                Demo.fresh
              = Returned tt
                  (final_state
                     (for_each [Demo.a_json; Demo.b_json]
                               (ingest_file parse Demo.b1 false true) Demo.fresh)))
    by (vm_compute; reflexivity).
  split; [exact R|].
  apply (@duplicate_content_skipped Demo.platform parse Demo.b1 [] [Demo.b_json]
           Demo.a_json Demo.a_copy Demo.fresh).
  - reflexivity.
  - reflexivity.
  - reflexivity.
  - vm_compute. discriminate.
  - exact R.
Defined.

(** C9, as stated, is refuted by a dry run: no SourceFile row is
    written, so the resume check of the second of two byte-identical
    files finds nothing and the file is processed again. *)
Lemma dry_run_processes_duplicate_content :
  contents Demo.a_copy = contents Demo.a_json
  /\ fst (ingest_batch empty_database (lit "b1") [Demo.a_json; Demo.a_copy]
            Demo.generic true true 1)
     = inr {| seeds_new := 1; seeds_existing := 3; variations_new := 2;
              variations_existing := 2; observations_inserted := 4;
              files_processed := 2; files_skipped := 0; invalid_records := 0 |}.
Proof. split; [reflexivity|]. vm_compute. reflexivity. Qed.

(** Content that does not load as JSON gets no SourceFile row either:
    both of two byte-identical malformed files are counted in
    [invalid_records], none in [files_skipped]. *)
Example malformed_duplicate_content :
  fst (ingest_batch empty_database (lit "b1")
         [Demo.file "m.json" Demo.malformed_text; Demo.file "n.json" Demo.malformed_text]
         Demo.generic false true 1)
  = inr {| seeds_new := 0; seeds_existing := 0; variations_new := 0;
           variations_existing := 0; observations_inserted := 0;
           files_processed := 0; files_skipped := 0; invalid_records := 2 |}.
Proof. vm_compute. reflexivity. Qed.





(** The dedup property across two batches, end to end: the same file
    under "b1" and then under "b2". *)
Example same_record_in_two_batches :
  fst (ingest_batch
         (snd (ingest_batch empty_database (lit "b1") [Demo.a_json] Demo.generic false true 1))
         (lit "b2") [Demo.a_json] Demo.generic false true 1)
  = inr {| seeds_new := 0; seeds_existing := 2; variations_new := 0;
           variations_existing := 2; observations_inserted := 2;
           files_processed := 1; files_skipped := 0; invalid_records := 0 |}
  /\ (let t := stored
                 (snd (ingest_batch
                         (snd (ingest_batch empty_database (lit "b1") [Demo.a_json]
                                 Demo.generic false true 1))
                         (lit "b2") [Demo.a_json] Demo.generic false true 1)) in
      map Seed.normalized_seed (seeds t) = [lit "ahmed"]
      /\ map Variation.normalized_variation (variations t) = [lit "ahmad"; lit "amed"]
      /\ List.length (observations t) = 4).
Proof. vm_compute. repeat split. Qed.

(** C4, as stated, is refuted in its parenthesis: a dry run does issue
    writes.  Over [a.json] it flushes a Batch, a Seed, two Variations and
    a Miner into its transaction and draws their keys; the lookup of the
    second record finds the Seed the first one flushed
    ([seeds_existing = 1] over an empty database).  Nothing of it is
    committed. *)
Lemma dry_run_writes_to_its_transaction :
  ingest_batch_body (lit "b1") [Demo.a_json] Demo.generic true true 1 Demo.fresh
  = Returned
      {| seeds_new := 1; seeds_existing := 1; variations_new := 2;
         variations_existing := 0; observations_inserted := 2;
         files_processed := 1; files_skipped := 0; invalid_records := 0 |}
      Demo.dry_end
  /\ map Seed.seed_text (seeds (txn (session Demo.dry_end))) = [lit "ahmed"]
  /\ map Variation.variation_text (variations (txn (session Demo.dry_end)))
     = [lit "ahmad"; lit "amed"]
  /\ map Miner.miner_external_id (miners (txn (session Demo.dry_end))) = [lit "0xabc123"]
  /\ map Batch.batch_name (batches (txn (session Demo.dry_end))) = [lit "b1"]
  /\ next_seed (seqs (session Demo.dry_end)) = 2
  /\ committed (session Demo.dry_end) = empty_tables
  /\ txn (session Demo.dry_end) <> committed (session Demo.dry_end).
Proof.
  repeat match goal with |- _ /\ _ => split end; try (vm_compute; reflexivity).
  intros E. vm_compute in E. discriminate.
Qed.

Lemma seed_diff_partition_witness :
  map Seed.id
      (filter (seed_has (normalize_seed (seed Demo.diff_request) false))
              (seeds (txn (open_session Demo.after_a))))
  = [1]
  /\ seed_diff Demo.diff_request (open_session Demo.after_a)
     = Returned {| existing := [lit "Ahmad"]; new := [lit "zed"] |}
                (open_session Demo.after_a).
Proof.
  assert (S : map Seed.id
                  (filter (seed_has (normalize_seed (seed Demo.diff_request) false))
                          (seeds (txn (open_session Demo.after_a))))
              = [1]) by (vm_compute; reflexivity).
  split; [exact S|].
  destruct (@seed_diff_partition (open_session Demo.after_a) Demo.diff_request 1 S)
    as (R & _).
  rewrite R. vm_compute. reflexivity.
Defined.

(** The example of the specification: a Seed with the Variations "ahmad"
    and "amed", and the candidates "ahmad" and "zed". *)
Example seed_diff_ahmad_zed :
  map Variation.normalized_variation (variations (stored Demo.after_a))
  = [lit "ahmad"; lit "amed"]
  /\ seed_diff {| seed := lit "ahmed"; request_variations := [lit "ahmad"; lit "zed"] |}
               (open_session Demo.after_a)
     = Returned {| existing := [lit "ahmad"]; new := [lit "zed"] |}
                (open_session Demo.after_a).
Proof. split; vm_compute; reflexivity. Qed.

(** A dry run over a database leaves it as it is, and counts. *)
Example dry_run_over_a_json :
  ingest_batch Demo.after_a (lit "b2") [Demo.a_json] Demo.generic true true 1
  = (inr {| seeds_new := 0; seeds_existing := 2; variations_new := 0;
            variations_existing := 2; observations_inserted := 2;
            files_processed := 1; files_skipped := 0; invalid_records := 0 |},
     {| stored := stored Demo.after_a;
        sequences :=
          {| next_seed := 2; next_variation := 3; next_miner := 2; next_batch := 3;
             next_source_file := 2; next_observation := 3 |} |}).
Proof. vm_compute. reflexivity. Qed.

(** Outside the scenario of the resumability theorem: a run with
    [resume = false] over a file its batch already recorded adds a
    second SourceFile row with the same (batch, checksum), and the lookup
    of the next run with [resume = true], which is a
    [scalar_one_or_none], raises on the two rows. *)
Example reprocessing_then_resume :
  let again := snd (ingest_batch Demo.after_a (lit "b1") [Demo.a_json] Demo.generic
                                 false false 1) in
  List.length (source_files (stored again)) = 2
  /\ fst (ingest_batch again (lit "b1") [Demo.a_json] Demo.generic false true 1)
     = inl MultipleResultsFound.
Proof. vm_compute. split; reflexivity. Qed.

(** ** Concrete inputs of the further properties *)

#[local] Existing Instance Demo.platform.

Lemma normalize_text_outer_whitespace_witness :
  forallb Unicode.is_whitespace [0x20%N; 0x09%N] = true
  /\ forallb Unicode.is_whitespace [0x0A%N] = true
  /\ normalize_text ([0x20%N; 0x09%N] ++ lit "Ahmed" ++ [0x0A%N]) false
     = normalize_text (lit "Ahmed") false.
Proof.
  assert (A : forallb Unicode.is_whitespace [0x20%N; 0x09%N] = true) by reflexivity.
  assert (B : forallb Unicode.is_whitespace [0x0A%N] = true) by reflexivity.
  split; [exact A|split; [exact B|]].
  exact (proj1 (normalize_text_outer_whitespace [0x20%N; 0x09%N] (lit "Ahmed") [0x0A%N]
                  false A B)).
Defined.

Lemma normalize_text_ignores_case_witness :
  latin1 (lit "AHMED") = true
  /\ latin1 (lit "ahmed") = true
  /\ Unicode.lower (lit "AHMED") = Unicode.lower (lit "ahmed")
  /\ normalize_text (lit "AHMED") true = normalize_text (lit "ahmed") true.
Proof.
  assert (A : latin1 (lit "AHMED") = true) by (vm_compute; reflexivity).
  assert (B : latin1 (lit "ahmed") = true) by (vm_compute; reflexivity).
  assert (C : Unicode.lower (lit "AHMED") = Unicode.lower (lit "ahmed"))
    by (vm_compute; reflexivity).
  split; [exact A|split; [exact B|split; [exact C|]]].
  exact (normalize_text_ignores_case (lit "AHMED") (lit "ahmed") true A B C).
Defined.

Lemma normalize_collapsing_idempotent_latin1_witness :
  latin1_plain (lit "aaasem  Heeeey") = true
  /\ normalize_text (normalize_text (lit "aaasem  Heeeey") true) true
     = normalize_text (lit "aaasem  Heeeey") true.
Proof.
  assert (A : latin1_plain (lit "aaasem  Heeeey") = true) by (vm_compute; reflexivity).
  split; [exact A|].
  exact (normalize_collapsing_idempotent_latin1 (lit "aaasem  Heeeey") A).
Defined.

Lemma whitespace_seed_is_accepted_witness :
  validate_record (canonical_record [0x20%N; 0x09%N] (PStr (lit "x")) None) = (true, None)
  /\ normalize_seed [0x20%N; 0x09%N] false = [].
Proof.
  refine (whitespace_seed_is_accepted
            (canonical_record [0x20%N; 0x09%N] (PStr (lit "x")) None)
            (seed_text := [0x20%N; 0x09%N]) false _ _ _ _).
  - reflexivity.
  - discriminate.
  - reflexivity.
  - exists (lit "x"). split; [reflexivity|discriminate].
Defined.

Lemma ingest_record_unencodable_witness :
  fst (validate_record (canonical_record [0xD800%N] (PStr (lit "x")) None)) = true
  /\ ingest_record Demo.b1 None false
       (canonical_record [0xD800%N] (PStr (lit "x")) None) Demo.fresh
     = Raised UnicodeEncodeError Demo.fresh.
Proof.
  assert (V : fst (validate_record (canonical_record [0xD800%N] (PStr (lit "x")) None))
              = true) by reflexivity.
  split; [exact V|].
  refine (@ingest_record_unencodable Demo.platform Demo.b1 None false
            (canonical_record [0xD800%N] (PStr (lit "x")) None) Demo.fresh V _).
  left. vm_compute. reflexivity.
Defined.

Lemma parse_yields_canonical_records_witness :
  In (canonical_record (lit "ahmed") (PStr (lit "ahmad")) (Some (lit "0xabc123")))
     (parse Demo.ahmed_json)
  /\ exists (seed : str) (variation : pyval) (miner_id : option str),
       canonical_record (lit "ahmed") (PStr (lit "ahmad")) (Some (lit "0xabc123"))
       = canonical_record seed variation miner_id
       /\ truthy variation = true.
Proof.
  assert (I : In (canonical_record (lit "ahmed") (PStr (lit "ahmad"))
                    (Some (lit "0xabc123")))
                 (parse Demo.ahmed_json)) by (vm_compute; left; reflexivity).
  split; [exact I|].
  destruct (parse_yields_canonical_records Demo.ahmed_json _ I)
    as (seed & variation & miner_id & E & _ & _ & T & _).
  exists seed, variation, miner_id. split; [exact E|exact T].
Defined.

Lemma metrics_balance_witness :
  exists m : Metrics,
    fst (ingest_batch empty_database (lit "b1") [Demo.a_json; Demo.b_json] Demo.generic
                      true false 1) = inr m
    /\ seeds_new m + seeds_existing m = observations_inserted m
    /\ variations_new m + variations_existing m = observations_inserted m.
Proof.
  eexists. split.
  - vm_compute. reflexivity.
  - apply (@metrics_balance Demo.platform empty_database (lit "b1")
             [Demo.a_json; Demo.b_json] Demo.generic true false 1).
    vm_compute. reflexivity.
Defined.

Lemma metrics_count_stored_rows_witness :
  exists m : Metrics,
    ingest_batch Demo.after_a (lit "b2") [Demo.b_json; Demo.e_json] Demo.generic
                 false true 1
    = (inr m, snd (ingest_batch Demo.after_a (lit "b2") [Demo.b_json; Demo.e_json]
                                Demo.generic false true 1))
    /\ List.length
         (observations
            (stored (snd (ingest_batch Demo.after_a (lit "b2") [Demo.b_json; Demo.e_json]
                                       Demo.generic false true 1))))
       = List.length (observations (stored Demo.after_a)) + observations_inserted m.
Proof.
  eexists. split.
  - vm_compute. reflexivity.
  - refine (proj1 (proj2 (proj2
              (@metrics_count_stored_rows Demo.platform Demo.after_a (lit "b2")
                 [Demo.b_json; Demo.e_json] Demo.generic true 1 _ _ _)))).
    vm_compute. reflexivity.
Defined.

Lemma record_count_is_accepted_records_witness :
  exists r' : Run,
    ingest_file parse Demo.b1 false false Demo.a_json Demo.fresh = Returned tt r'
    /\ In (with_record_count (accepted (parse Demo.ahmed_json))
             (source_file_row 1 Demo.b1 Demo.a_json (compute_checksum Demo.a_json)))
          (source_files (committed (session r')))
    /\ accepted (parse Demo.ahmed_json) = 2.
Proof.
  eexists. split; [vm_compute; reflexivity|].
  split; [|reflexivity].
  refine (proj1 (@record_count_is_accepted_records Demo.platform parse Demo.b1 false
                   Demo.a_json Demo.ahmed_json Demo.fresh _ _ _ _ _)).
  - reflexivity.
  - vm_compute. reflexivity.
  - now left.
  - vm_compute. reflexivity.
Defined.

Lemma unprocessed_batch_stores_nothing_witness :
  stored (snd (ingest_batch empty_database (lit "b1")
                 [Demo.file "m.json" Demo.malformed_text] Demo.generic false true 1))
  = stored empty_database.
Proof.
  refine (proj1 (@unprocessed_batch_stores_nothing Demo.platform empty_database (lit "b1")
                   [Demo.file "m.json" Demo.malformed_text] Demo.generic false true 1 _)).
  intros f [<-|[]]. right. vm_compute. reflexivity.
Defined.

Lemma stored_keys_fit_text_witness :
  Forall (fun s => Seed.normalized_seed s = normalize_seed (Seed.seed_text s) false)
         (seeds (stored Demo.after_first_run))
  /\ seeds (stored Demo.after_first_run) <> [].
Proof.
  split; [|vm_compute; discriminate].
  apply Forall_forall. intros s I.
  refine (proj1 (proj1 (@stored_keys_fit_text Demo.platform Demo.after_first_run _) s I)).
  unfold Demo.after_first_run. apply reachable_ingest, reachable_empty.
Defined.

Lemma stored_references_exist_witness :
  Forall (fun v => exists s, In s (seeds (stored Demo.after_first_run))
                             /\ Variation.seed_id v = Seed.id s)
         (variations (stored Demo.after_first_run))
  /\ variations (stored Demo.after_first_run) <> [].
Proof.
  split; [|vm_compute; discriminate].
  apply Forall_forall. intros v I.
  refine (proj1 (proj2 (@stored_references_exist Demo.platform Demo.after_first_run _))
            v I).
  unfold Demo.after_first_run. apply reachable_ingest, reachable_empty.
Defined.

Lemma stored_observations_have_no_payload_witness :
  exists o : Observation.t,
    In o (observations (stored Demo.after_first_run))
    /\ Observation.score o = PNone
    /\ Observation.raw_payload o = None.
Proof.
  eexists. split.
  - vm_compute. left. reflexivity.
  - refine ((fun P => conj (proj1 P) (proj1 (proj2 P)))
              (@stored_observations_have_no_payload Demo.platform Demo.after_first_run _
                 _ _)).
    + unfold Demo.after_first_run. apply reachable_ingest, reachable_empty.
    + vm_compute. left. reflexivity.
Defined.


Lemma ingest_batch_only_appends_witness :
  extends (stored Demo.after_a)
          (stored (snd (ingest_batch Demo.after_a (lit "b2") [Demo.b_json; Demo.s_json]
                                     Demo.generic false true 1))).
Proof.
  refine (@ingest_batch_only_appends Demo.platform Demo.after_a (lit "b2")
            [Demo.b_json; Demo.s_json] Demo.generic false true 1 _).
  unfold Demo.after_a. apply reachable_ingest, reachable_empty.
Defined.

Lemma seeds_exists_reports_witness :
  seeds_exists {| SeedExistsRequest.seeds := [lit " AHMED"; lit "zed"; lit " AHMED"] |}
               (open_session Demo.after_first_run)
  = Returned [ {| SeedExistsResponseItem.seed := lit " AHMED";
                  SeedExistsResponseItem.exists_ := true;
                  SeedExistsResponseItem.variation_count := 2 |};
               {| SeedExistsResponseItem.seed := lit "zed";
                  SeedExistsResponseItem.exists_ := false;
                  SeedExistsResponseItem.variation_count := 0 |} ]
             (open_session Demo.after_first_run).
Proof.
  refine (eq_trans
            (seeds_exists_reports (open_session Demo.after_first_run)
               {| SeedExistsRequest.seeds := [lit " AHMED"; lit "zed"; lit " AHMED"] |} _)
            _).
  - vm_compute. repeat constructor. intros [].
  - vm_compute. reflexivity.
Defined.

